(** * MathMarble physics core: a shallow embedding and its verified properties

    The development follows the physics engine of the repository: the
    [Vector2D] value class, the [PhysicsEngine] (per-step integrator, attach /
    detach policy, curve analysis with its numerical searches, collision test)
    and the [Marble] entity.

    JavaScript numbers are IEEE-754 binary64 values and are modelled by Rocq's
    primitive floats: [+ - * /], [Math.sqrt], [Math.abs] and the comparisons are
    the kernel's binary64 operations.  The transcendental functions of the host
    ([Math.atan2], [Math.cos], [Math.sin], [Math.pow]) are left to the host: every
    definition and theorem is parameterised by a [MathHost]. *)

From Stdlib Require Import ZArith Lia Bool Floats String.
From stdpp Require Import base list.

#[local] Open Scope float_scope.
#[local] Set Warnings "-inexact-float".

(* ===================================================================== *)
(** * JavaScript numbers                                                   *)
(* ===================================================================== *)

Module JS.

(** [isFinite(x)]: neither NaN nor an infinity. *)
Definition isFinite (x : float) : bool := abs x <? infinity.

(** Truthiness of a number: [0], [-0] and [NaN] are falsy. *)
Definition truthy (x : float) : bool := negb (x =? 0) && negb (is_nan x).

(** [x || d] on numbers. *)
Definition or_else (x d : float) : float := if truthy x then x else d.

(** [x !== 0] on numbers ([NaN !== 0] holds, [-0 !== 0] does not). *)
Definition neq0 (x : float) : bool := negb (x =? 0).

(** [Math.sign]. *)
Definition Math_sign (x : float) : float :=
  if 0 <? x then 1 else if x <? 0 then -1 else x.

(** [Math.PI], the binary64 number nearest to pi. *)
Definition Math_PI : float := 0x1.921fb54442d18p+1.

(** [a ?? d]: the default replaces an absent (null / undefined) value only. *)
Definition nullish {A} (a : option A) (d : A) : A :=
  match a with Some v => v | None => d end.

(** The [length] of an array, as the number it is.  A length is below
    [2^32], where the conversion is exact. *)
Definition ofLength (n : nat) : float := of_uint63 (Uint63.of_Z (Z.of_nat n)).

End JS.

(** The host's implementation-defined [Math] functions. *)
Record MathHost : Type := {
  Math_atan2 : float -> float -> float;
  Math_cos : float -> float;
  Math_sin : float -> float;
  Math_pow : float -> float -> float
}.

(* ===================================================================== *)
(** * Completions: a value, a thrown exception, or an exhausted loop budget *)
(* ===================================================================== *)

Inductive res (A : Type) : Type :=
| Ret (a : A)
| Throw
| Timeout.
Arguments Ret {A} a.
Arguments Throw {A}.
Arguments Timeout {A}.

Definition bind {A B} (c : res A) (k : A -> res B) : res B :=
  match c with
  | Ret a => k a
  | Throw => Throw
  | Timeout => Timeout
  end.

(** [try { body } catch (e) { handler }]. *)
Definition try_catch {A} (body handler : res A) : res A :=
  match body with
  | Throw => handler
  | other => other
  end.

(** Calling an evaluator: [None] is a thrown exception. *)
Definition call (r : option float) : res float :=
  match r with
  | Some v => Ret v
  | None => Throw
  end.

Declare Scope res_scope.
Delimit Scope res_scope with res.
Notation "'let*' x ':=' c 'in' k" := (bind c (fun x => k))
  (at level 10, x pattern, c at level 100, k at level 200) : res_scope.
#[local] Open Scope res_scope.

(** A loop whose body either continues with a new state or leaves with a
    result.  [fuel] bounds the number of times the body is entered; when it is
    used up the loop reports [Timeout]. *)
Fixpoint loop {S R : Type} (fuel : nat) (body : S -> res (S + R)) (s : S) : res R :=
  match fuel with
  | O => Timeout
  | Datatypes.S n =>
      let* o := body s in
      match o with
      | inl s' => loop n body s'
      | inr r => Ret r
      end
  end.

(* ===================================================================== *)
(** * Vector2D                                                             *)
(* ===================================================================== *)

Module Vector2D.

Record t : Type := mk { x : float; y : float }.

Definition clone (v : t) : t := mk (x v) (y v).
Definition add (v w : t) : t := mk (x v + x w) (y v + y w).
Definition sub (v w : t) : t := mk (x v - x w) (y v - y w).
Definition mul (v : t) (s : float) : t := mk (x v * s) (y v * s).

Definition div (v : t) (s : float) : t :=
  if s =? 0 then mk 0 0 else mk (x v / s) (y v / s).

Definition magnitude (v : t) : float := sqrt (x v * x v + y v * y v).
Definition magnitudeSq (v : t) : float := x v * x v + y v * y v.

Definition normalize (v : t) : t :=
  let mag := magnitude v in
  if mag =? 0 then mk 0 0 else div v mag.

Definition dot (v w : t) : float := x v * x w + y v * y w.
Definition perpendicular (v : t) : t := mk (- y v) (x v).

Definition rotate (H : MathHost) (v : t) (angle : float) : t :=
  let cos := Math_cos H angle in
  let sin := Math_sin H angle in
  mk (x v * cos - y v * sin) (x v * sin + y v * cos).

Definition lerp (v w : t) (k : float) : t :=
  mk (x v + (x w - x v) * k) (y v + (y w - y v) * k).

Definition distanceTo (v w : t) : float :=
  let dx := x v - x w in
  let dy := y v - y w in
  sqrt (dx * dx + dy * dy).

Definition distanceToSq (v w : t) : float :=
  let dx := x v - x w in
  let dy := y v - y w in
  dx * dx + dy * dy.

(** [fromObject(obj)]: [obj.x || 0], [obj.y || 0]. *)
Definition fromObject (o : t) : t := mk (JS.or_else (x o) 0) (JS.or_else (y o) 0).

End Vector2D.

Abbreviation Vector2D := Vector2D.t.

(* ===================================================================== *)
(** * Data model                                                           *)
(* ===================================================================== *)

(** An equation object, by its [type] tag, with the evaluators that the engine
    calls for that tag.  An evaluator returns [None] when it throws. *)
Inductive Equation : Type :=
| explicit_y (evaluate : float -> option float)
| piecewise (evaluate : float -> option float)
| constant_y (evaluate : float -> option float)
| explicit_x (evaluate : float -> option float)
| constant_x (evaluate : float -> option float)
| implicit (evaluate : float -> float -> option float)
| polar (evaluate : float -> option float)
| parametric (evaluateX evaluateY : float -> option float)
| inequality (evaluate : float -> float -> option bool)
| unsupported.

(** What [EquationParser.parseConstantY] / [parseConstantX] build for the text
    [y = value] / [x = value]: the evaluator ignores its argument. *)
Definition parseConstantY (value : float) : Equation := constant_y (fun _ => Some value).
Definition parseConstantX (value : float) : Equation := constant_x (fun _ => Some value).

Record PathInfo : Type := {
  equation : Equation;
  closestPoint : Vector2D;
  distance : float;
  tangent : Vector2D;
  normal : Vector2D;
  curvature : float
}.

(** The marble.  [color] and [id] play no part in the physics and are left
    out; [maxTrailLength] is whatever number the configuration gave. *)
Record Marble : Type := {
  position : Vector2D;
  velocity : Vector2D;
  radius : float;
  onPath : bool;
  currentEquation : option Equation;
  trail : list Vector2D;
  maxTrailLength : float;
  active : bool
}.

Definition set_position (m : Marble) (p : Vector2D) : Marble :=
  {| position := p; velocity := velocity m; radius := radius m; onPath := onPath m;
     currentEquation := currentEquation m; trail := trail m;
     maxTrailLength := maxTrailLength m; active := active m |}.

Definition set_velocity (m : Marble) (v : Vector2D) : Marble :=
  {| position := position m; velocity := v; radius := radius m; onPath := onPath m;
     currentEquation := currentEquation m; trail := trail m;
     maxTrailLength := maxTrailLength m; active := active m |}.

(** [marble.onPath = b; marble.currentEquation = e]. *)
Definition set_path (m : Marble) (b : bool) (e : option Equation) : Marble :=
  {| position := position m; velocity := velocity m; radius := radius m; onPath := b;
     currentEquation := e; trail := trail m;
     maxTrailLength := maxTrailLength m; active := active m |}.

Definition set_trail (m : Marble) (l : list Vector2D) : Marble :=
  {| position := position m; velocity := velocity m; radius := radius m; onPath := onPath m;
     currentEquation := currentEquation m; trail := l;
     maxTrailLength := maxTrailLength m; active := active m |}.

Module MarbleConfig.
Record t : Type := {
  vx : option float;
  vy : option float;
  radius : option float;
  maxTrailLength : option float
}.
Definition empty : t := {| vx := None; vy := None; radius := None; maxTrailLength := None |}.
End MarbleConfig.

(** [new Marble(x, y, config)]. *)
Definition Marble_new (x y : float) (config : MarbleConfig.t) : Marble :=
  {| position := Vector2D.mk x y;
     velocity := Vector2D.mk (JS.nullish (MarbleConfig.vx config) 0.1)
                             (JS.nullish (MarbleConfig.vy config) 0);
     radius := JS.nullish (MarbleConfig.radius config) 0.2;
     onPath := false;
     currentEquation := None;
     trail := [];
     maxTrailLength := JS.nullish (MarbleConfig.maxTrailLength config) 30;
     active := true |}.

(** [marble.reset(x, y)]. *)
Definition Marble_reset (m : Marble) (x y : float) : Marble :=
  {| position := Vector2D.mk x y;
     velocity := Vector2D.mk 0.1 0;
     radius := radius m;
     onPath := false;
     currentEquation := None;
     trail := [];
     maxTrailLength := maxTrailLength m;
     active := true |}.

(** One turn of [while (this.trail.length > this.maxTrailLength)
    this.trail.shift()]; [shift] leaves an empty array empty. *)
Definition shiftBody (cap : float) (l : list Vector2D)
  : res (list Vector2D + list Vector2D) :=
  if cap <? JS.ofLength (length l) then Ret (inl (tail l)) else Ret (inr l).

Definition shiftWhileLonger (fuel : nat) (cap : float) (l : list Vector2D)
  : res (list Vector2D) :=
  loop fuel (shiftBody cap) l.

(** [marble.updateTrail()]. *)
Definition updateTrail (fuel : nat) (m : Marble) : res Marble :=
  let* l :=
    shiftWhileLonger fuel (maxTrailLength m) (trail m ++ [Vector2D.clone (position m)]) in
  Ret (set_trail m l).

(** What the loop of [updateTrail] leaves when it ends: the longest end of
    the list on which the test [length > maxTrailLength] fails.  The loop ends
    exactly when [maxTrailLength] is not negative ([shiftWhileLonger_ends],
    [shiftWhileLonger_runs_on]). *)
Fixpoint trimmed (cap : float) (l : list Vector2D) : list Vector2D :=
  match l with
  | [] => []
  | _ :: rest => if cap <? JS.ofLength (length l) then trimmed cap rest else l
  end.

(** The marble that [updateTrail] leaves when its loop ends. *)
Definition trailUpdated (m : Marble) : Marble :=
  set_trail m (trimmed (maxTrailLength m) (trail m ++ [Vector2D.clone (position m)])).

(** A star (target). *)
Record Star : Type := {
  star_x : float;
  star_y : float;
  star_radius : float;
  collected : bool
}.

Definition mark_collected (s : Star) : Star :=
  {| star_x := star_x s; star_y := star_y s; star_radius := star_radius s; collected := true |}.

(** The object returned by [update].  [starsCollected] lists references to
    stars (indices into the star store). *)
Record UpdateResult : Type := {
  starsCollected : list nat;
  outOfBounds : bool;
  detached : bool;
  attached : bool
}.

(** The engine's configuration. *)
Record PhysicsEngine : Type := {
  gravity : float;
  timeScale : float;
  rollingFriction : float;
  airDrag : float;
  snapDistance : float;
  snapStrength : float;
  detachThreshold : float;
  maxSlopeAngle : float;
  bounceCoefficient : float;
  minVelocity : float;
  derivativeStep : float;
  searchResolution : float
}.

(** [new PhysicsEngine()] with no configuration. *)
Definition PhysicsEngine_default : PhysicsEngine :=
  {| gravity := -9.8;
     timeScale := 0.016;
     rollingFriction := 0.02;
     airDrag := 0.01;
     snapDistance := 0.5;
     snapStrength := 0.4;
     detachThreshold := 0.3;
     maxSlopeAngle := JS.Math_PI / 3;
     bounceCoefficient := 0.6;
     minVelocity := 0.001;
     derivativeStep := 0.001;
     searchResolution := 0.05 |}.

(** [new PhysicsEngine({ gravity: g })]. *)
Definition PhysicsEngine_withGravity (g : float) : PhysicsEngine :=
  {| gravity := g;
     timeScale := 0.016;
     rollingFriction := 0.02;
     airDrag := 0.01;
     snapDistance := 0.5;
     snapStrength := 0.4;
     detachThreshold := 0.3;
     maxSlopeAngle := JS.Math_PI / 3;
     bounceCoefficient := 0.6;
     minVelocity := 0.001;
     derivativeStep := 0.001;
     searchResolution := 0.05 |}.

(* ===================================================================== *)
(** * PhysicsEngine                                                        *)
(* ===================================================================== *)

Section Engine.

Variable H : MathHost.
Variable this : PhysicsEngine.

(** [h || this.derivativeStep], where [h] defaults to [null]. *)
Definition stepOf (h : option float) : float :=
  match h with
  | Some v => JS.or_else v (derivativeStep this)
  | None => derivativeStep this
  end.

(** ** Numerical methods *)

(** The state of the golden-section loop. *)
Record Golden : Type := {
  g_a : float; g_b : float; g_c : float; g_d : float; iterations : nat
}.

Definition phi : float := (1 + sqrt 5) / 2.
Definition tolerance : float := 0.001.

(** One turn of [while (Math.abs(b - a) > tolerance && iterations < 50)]. *)
Definition goldenBody (distanceAt : float -> res float) (st : Golden)
  : res (Golden + Golden) :=
  if (tolerance <? abs (g_b st - g_a st)) && (iterations st <? 50)%nat then
    let* dc := distanceAt (g_c st) in
    let* dd := distanceAt (g_d st) in
    let '(a, b) := if dc <? dd then (g_a st, g_d st) else (g_c st, g_b st) in
    Ret (inl {| g_a := a; g_b := b;
                g_c := b - (b - a) / phi;
                g_d := a + (b - a) / phi;
                iterations := S (iterations st) |})
  else Ret (inr st).

Definition goldenSearch (fuel : nat) (distanceAt : float -> res float)
    (lo hi : float) : res Golden :=
  loop fuel (goldenBody distanceAt)
    {| g_a := lo; g_b := hi;
       g_c := hi - (hi - lo) / phi;
       g_d := lo + (hi - lo) / phi;
       iterations := 0 |}.

(** [distanceAt] of [findClosestXOnCurve]. *)
Definition distanceAtX (pos : Vector2D) (evaluate : float -> option float)
    (x : float) : res float :=
  try_catch
    (let* y := call (evaluate x) in
     if negb (JS.isFinite y) then Ret infinity
     else Ret (Vector2D.distanceTo pos (Vector2D.mk x y)))
    (Ret infinity).

(** [distanceAt] of [findClosestYOnCurve]. *)
Definition distanceAtY (pos : Vector2D) (evaluate : float -> option float)
    (y : float) : res float :=
  try_catch
    (let* x := call (evaluate y) in
     if negb (JS.isFinite x) then Ret infinity
     else Ret (Vector2D.distanceTo pos (Vector2D.mk x y)))
    (Ret infinity).

Definition findClosestXOnCurve (fuel : nat) (pos : Vector2D)
    (evaluate : float -> option float) (xMin xMax : float) : res float :=
  let* st := goldenSearch fuel (distanceAtX pos evaluate) xMin xMax in
  Ret ((g_a st + g_b st) / 2).

Definition findClosestYOnCurve (fuel : nat) (pos : Vector2D)
    (evaluate : float -> option float) (yMin yMax : float) : res float :=
  let* st := goldenSearch fuel (distanceAtY pos evaluate) yMin yMax in
  Ret ((g_a st + g_b st) / 2).

(** [calculateDerivative] (and [calculateDerivativeX], which has the same
    body). *)
Definition calculateDerivative (evaluate : float -> option float) (x : float)
    (h : option float) : res float :=
  let step := stepOf h in
  try_catch
    (let* y1 := call (evaluate (x - step)) in
     let* y2 := call (evaluate (x + step)) in
     if negb (JS.isFinite y1) || negb (JS.isFinite y2) then Ret 0
     else Ret ((y2 - y1) / (2 * step)))
    (Ret 0).

Definition calculateDerivativeX := calculateDerivative.

(** [calculateSecondDerivative] (and [calculateSecondDerivativeX]). *)
Definition calculateSecondDerivative (evaluate : float -> option float) (x : float)
    (h : option float) : res float :=
  let step := stepOf h in
  try_catch
    (let* y0 := call (evaluate (x - step)) in
     let* y1 := call (evaluate x) in
     let* y2 := call (evaluate (x + step)) in
     if negb (JS.isFinite y0) || negb (JS.isFinite y1) || negb (JS.isFinite y2) then Ret 0
     else Ret ((y0 - 2 * y1 + y2) / (step * step)))
    (Ret 0).

Definition calculateSecondDerivativeX := calculateSecondDerivative.

Definition calculateGradient (evaluate : float -> float -> option float)
    (x y : float) (h : option float) : res Vector2D :=
  let step := stepOf h in
  try_catch
    (let* fxp := call (evaluate (x + step) y) in
     let* fxm := call (evaluate (x - step) y) in
     let dfdx := (fxp - fxm) / (2 * step) in
     let* fyp := call (evaluate x (y + step)) in
     let* fym := call (evaluate x (y - step)) in
     let dfdy := (fyp - fym) / (2 * step) in
     if negb (JS.isFinite dfdx) || negb (JS.isFinite dfdy) then Ret (Vector2D.mk 0 1)
     else Ret (Vector2D.mk dfdx dfdy))
    (Ret (Vector2D.mk 0 1)).

Definition calculateImplicitCurvature (evaluate : float -> float -> option float)
    (x y : float) : res float :=
  let h := derivativeStep this in
  try_catch
    (let* a1 := call (evaluate (x + h) y) in
     let* a2 := call (evaluate (x - h) y) in
     let fx := (a1 - a2) / (2 * h) in
     let* b1 := call (evaluate x (y + h)) in
     let* b2 := call (evaluate x (y - h)) in
     let fy := (b1 - b2) / (2 * h) in
     let* c1 := call (evaluate (x + h) y) in
     let* c2 := call (evaluate x y) in
     let* c3 := call (evaluate (x - h) y) in
     let fxx := (c1 - 2 * c2 + c3) / (h * h) in
     let* d1 := call (evaluate x (y + h)) in
     let* d2 := call (evaluate x y) in
     let* d3 := call (evaluate x (y - h)) in
     let fyy := (d1 - 2 * d2 + d3) / (h * h) in
     let* e1 := call (evaluate (x + h) (y + h)) in
     let* e2 := call (evaluate (x + h) (y - h)) in
     let* e3 := call (evaluate (x - h) (y + h)) in
     let* e4 := call (evaluate (x - h) (y - h)) in
     let fxy := (e1 - e2 - e3 + e4) / (4 * h * h) in
     let num := abs (fx * fx * fyy - 2 * fx * fy * fxy + fy * fy * fxx) in
     let den := Math_pow H (fx * fx + fy * fy) 1.5 in
     if den =? 0 then Ret 0 else Ret (num / den))
    (Ret 0).

(** One turn of the [for (let i = 0; i < iterations; i++)] loop of
    [findClosestPointImplicit]; the state is [(x, y, i)].  The early
    [return { x, y }] and the two [break]s all leave with the current point. *)
Definition implicitBody (evaluate : float -> float -> option float)
    (st : float * float * nat) : res (float * float * nat + Vector2D) :=
  let '(x, y, i) := st in
  if (i <? 20)%nat then
    try_catch
      (let* f := call (evaluate x y) in
       if abs f <? 0.01 then Ret (inr (Vector2D.mk x y))
       else
         let* grad := calculateGradient evaluate x y None in
         let gradMag := Vector2D.magnitude grad in
         if gradMag <? 0.001 then Ret (inr (Vector2D.mk x y))
         else
           let step := f / (gradMag * gradMag) in
           Ret (inl (x - Vector2D.x grad * step * 0.1,
                     y - Vector2D.y grad * step * 0.1,
                     S i)))
      (Ret (inr (Vector2D.mk x y)))
  else Ret (inr (Vector2D.mk x y)).

Definition findClosestPointImplicit (fuel : nat) (pos : Vector2D)
    (evaluate : float -> float -> option float) : res Vector2D :=
  loop fuel (implicitBody evaluate) (Vector2D.x pos, Vector2D.y pos, 0%nat).

(** ** Curve geometry *)

Definition mkPathInfo (eq : Equation) (cp : Vector2D) (dist : float)
    (tg nm : Vector2D) (k : float) : PathInfo :=
  {| equation := eq; closestPoint := cp; distance := dist;
     tangent := tg; normal := nm; curvature := k |}.

(** [analyzeExplicitY].  [findClosestXOnCurve] always returns a number, so
    the test [closestX === null] never succeeds. *)
Definition analyzeExplicitY (fuel : nat) (pos : Vector2D) (eq : Equation)
    (evaluate : float -> option float) : res (option PathInfo) :=
  let* closestX :=
    findClosestXOnCurve fuel pos evaluate (Vector2D.x pos - 3) (Vector2D.x pos + 3) in
  try_catch
    (let* y := call (evaluate closestX) in
     if negb (JS.isFinite y) then Ret None
     else
       let closestPoint := Vector2D.mk closestX y in
       let distance := Vector2D.distanceTo pos (Vector2D.fromObject closestPoint) in
       let* derivative := calculateDerivative evaluate closestX None in
       let tangent := Vector2D.normalize (Vector2D.mk 1 derivative) in
       let normal := Vector2D.perpendicular tangent in
       let* secondDerivative := calculateSecondDerivative evaluate closestX None in
       let curvature :=
         abs secondDerivative / Math_pow H (1 + derivative * derivative) 1.5 in
       Ret (Some (mkPathInfo eq closestPoint distance tangent normal curvature)))
    (Ret None).

(** [analyzeExplicitX]. *)
Definition analyzeExplicitX (fuel : nat) (pos : Vector2D) (eq : Equation)
    (evaluate : float -> option float) : res (option PathInfo) :=
  let* closestY :=
    findClosestYOnCurve fuel pos evaluate (Vector2D.y pos - 3) (Vector2D.y pos + 3) in
  try_catch
    (let* x := call (evaluate closestY) in
     if negb (JS.isFinite x) then Ret None
     else
       let closestPoint := Vector2D.mk x closestY in
       let distance := Vector2D.distanceTo pos (Vector2D.fromObject closestPoint) in
       let* dxdy := calculateDerivativeX evaluate closestY None in
       let tangent := Vector2D.normalize (Vector2D.mk dxdy 1) in
       let normal := Vector2D.perpendicular tangent in
       let* secondDerivative := calculateSecondDerivativeX evaluate closestY None in
       let curvature := abs secondDerivative / Math_pow H (1 + dxdy * dxdy) 1.5 in
       Ret (Some (mkPathInfo eq closestPoint distance tangent normal curvature)))
    (Ret None).

(** [analyzeImplicit].  The closest point is always an object, so the test
    [!closestPoint] never succeeds. *)
Definition analyzeImplicit (fuel : nat) (pos : Vector2D) (eq : Equation)
    (evaluate : float -> float -> option float) : res (option PathInfo) :=
  let* closestPoint := findClosestPointImplicit fuel pos evaluate in
  let distance := Vector2D.distanceTo pos (Vector2D.fromObject closestPoint) in
  let* gradient :=
    calculateGradient evaluate (Vector2D.x closestPoint) (Vector2D.y closestPoint) None in
  let normal := Vector2D.normalize gradient in
  let tangent := Vector2D.perpendicular normal in
  let* curvature :=
    calculateImplicitCurvature evaluate (Vector2D.x closestPoint) (Vector2D.y closestPoint) in
  Ret (Some (mkPathInfo eq closestPoint distance tangent normal curvature)).

(** One turn of the scan of [analyzePolar],
    [for (theta = marbleTheta - PI; theta <= marbleTheta + PI; theta += 0.05)];
    the state is [(theta, minDistance, closestTheta)]. *)
Definition polarBody (pos : Vector2D) (evaluate : float -> option float)
    (marbleTheta : float) (st : float * float * float)
  : res (float * float * float + float * float) :=
  let '(theta, minDistance, closestTheta) := st in
  if theta <=? marbleTheta + JS.Math_PI then
    let* (minDistance', closestTheta') :=
      try_catch
        (let* r := call (evaluate theta) in
         if negb (JS.isFinite r) then Ret (minDistance, closestTheta)
         else
           let x := r * Math_cos H theta in
           let y := r * Math_sin H theta in
           let dist := Vector2D.distanceTo pos (Vector2D.mk x y) in
           if dist <? minDistance then Ret (dist, theta)
           else Ret (minDistance, closestTheta))
        (Ret (minDistance, closestTheta)) in
    Ret (inl (theta + 0.05, minDistance', closestTheta'))
  else Ret (inr (minDistance, closestTheta)).

(** [analyzePolar]. *)
Definition analyzePolar (fuel : nat) (pos : Vector2D) (eq : Equation)
    (evaluate : float -> option float) : res (option PathInfo) :=
  let marbleTheta := Math_atan2 H (Vector2D.y pos) (Vector2D.x pos) in
  let* (minDistance, closestTheta) :=
    loop fuel (polarBody pos evaluate marbleTheta)
      (marbleTheta - JS.Math_PI, infinity, marbleTheta) in
  try_catch
    (let* r := call (evaluate closestTheta) in
     let closestPoint :=
       Vector2D.mk (r * Math_cos H closestTheta) (r * Math_sin H closestTheta) in
     let* r2 := call (evaluate (closestTheta + 0.01)) in
     let* r1 := call (evaluate (closestTheta - 0.01)) in
     let drdt := (r2 - r1) / 0.02 in
     let dxdt := drdt * Math_cos H closestTheta - r * Math_sin H closestTheta in
     let dydt := drdt * Math_sin H closestTheta + r * Math_cos H closestTheta in
     let tangent := Vector2D.normalize (Vector2D.mk dxdt dydt) in
     let normal := Vector2D.perpendicular tangent in
     Ret (Some (mkPathInfo eq closestPoint minDistance tangent normal 0)))
    (Ret None).

(** One turn of the scan of [analyzeParametric],
    [for (t = 0; t <= 2 * Math.PI; t += 0.05)]; the state is
    [(t, minDistance, closestT)]. *)
Definition parametricBody (pos : Vector2D) (evaluateX evaluateY : float -> option float)
    (st : float * float * float) : res (float * float * float + float * float) :=
  let '(t, minDistance, closestT) := st in
  if t <=? 2 * JS.Math_PI then
    let* (minDistance', closestT') :=
      try_catch
        (let* x := call (evaluateX t) in
         let* y := call (evaluateY t) in
         if negb (JS.isFinite x) || negb (JS.isFinite y) then Ret (minDistance, closestT)
         else
           let dist := Vector2D.distanceTo pos (Vector2D.mk x y) in
           if dist <? minDistance then Ret (dist, t)
           else Ret (minDistance, closestT))
        (Ret (minDistance, closestT)) in
    Ret (inl (t + 0.05, minDistance', closestT'))
  else Ret (inr (minDistance, closestT)).

(** [analyzeParametric]. *)
Definition analyzeParametric (fuel : nat) (pos : Vector2D) (eq : Equation)
    (evaluateX evaluateY : float -> option float) : res (option PathInfo) :=
  let* (minDistance, closestT) :=
    loop fuel (parametricBody pos evaluateX evaluateY) (0, infinity, 0) in
  try_catch
    (let* x := call (evaluateX closestT) in
     let* y := call (evaluateY closestT) in
     let dt := 0.01 in
     let* x2 := call (evaluateX (closestT + dt)) in
     let* x1 := call (evaluateX (closestT - dt)) in
     let dxdt := (x2 - x1) / (2 * dt) in
     let* y2 := call (evaluateY (closestT + dt)) in
     let* y1 := call (evaluateY (closestT - dt)) in
     let dydt := (y2 - y1) / (2 * dt) in
     let tangent := Vector2D.normalize (Vector2D.mk dxdt dydt) in
     let normal := Vector2D.perpendicular tangent in
     Ret (Some (mkPathInfo eq (Vector2D.mk x y) minDistance tangent normal 0)))
    (Ret None).

(** [analyzePathAtPoint]: the [switch] on [equation.type]. *)
Definition analyzePathAtPoint (fuel : nat) (marble : Marble) (eq : Equation)
  : res (option PathInfo) :=
  let marblePos := position marble in
  match eq with
  | explicit_y f | piecewise f | constant_y f => analyzeExplicitY fuel marblePos eq f
  | explicit_x f | constant_x f => analyzeExplicitX fuel marblePos eq f
  | implicit f => analyzeImplicit fuel marblePos eq f
  | polar f => analyzePolar fuel marblePos eq f
  | parametric fx fy => analyzeParametric fuel marblePos eq fx fy
  | inequality _ | unsupported => Ret None
  end.

Definition is_inequality (eq : Equation) : bool :=
  match eq with inequality _ => true | _ => false end.

(** The [for (const equation of equations)] loop of [findNearestPath]; the
    state is [(nearestInfo, minDistance)]. *)
Fixpoint nearestLoop (fuel : nat) (marble : Marble) (equations : list Equation)
    (nearestInfo : option PathInfo) (minDistance : float) : res (option PathInfo) :=
  match equations with
  | [] => Ret nearestInfo
  | eq :: rest =>
      if is_inequality eq then nearestLoop fuel marble rest nearestInfo minDistance
      else
        let* info := analyzePathAtPoint fuel marble eq in
        match info with
        | Some i =>
            if distance i <? minDistance
            then nearestLoop fuel marble rest (Some i) (distance i)
            else nearestLoop fuel marble rest nearestInfo minDistance
        | None => nearestLoop fuel marble rest nearestInfo minDistance
        end
  end.

Definition findNearestPath (fuel : nat) (marble : Marble) (equations : list Equation)
  : res (option PathInfo) :=
  nearestLoop fuel marble equations None infinity.

(** ** Path-following and free-fall physics *)

(** [updateOnPath]. *)
Definition updateOnPath (marble : Marble) (pathInfo : PathInfo) (dt : float) : Marble :=
  let closestPoint := closestPoint pathInfo in
  let targetPosition := Vector2D.mk (Vector2D.x closestPoint) (Vector2D.y closestPoint) in
  let marble := set_position marble
                  (Vector2D.lerp (position marble) targetPosition (snapStrength this)) in
  let tangentUnit := Vector2D.normalize (tangent pathInfo) in
  let normalUnit := Vector2D.normalize (normal pathInfo) in
  let tangentSpeed := Vector2D.dot (velocity marble) tangentUnit in
  let gravityVector := Vector2D.mk 0 (gravity this) in
  let gravityAlongTangent := Vector2D.dot gravityVector tangentUnit in
  let tangentSpeed := tangentSpeed + gravityAlongTangent * dt in
  let frictionForce :=
    - JS.Math_sign tangentSpeed * rollingFriction this * abs (gravity this) in
  let tangentSpeed :=
    if abs (frictionForce * dt) <? abs tangentSpeed
    then tangentSpeed + frictionForce * dt
    else tangentSpeed * 0.9 in
  let '(effectiveTangent, tangentSpeed) :=
    if (Vector2D.x tangentUnit <? 0) && (abs tangentSpeed <? 0.1)
    then (Vector2D.mul tangentUnit (-1), abs tangentSpeed)
    else (tangentUnit, tangentSpeed) in
  let marble := set_velocity marble (Vector2D.mul effectiveTangent tangentSpeed) in
  let distanceFromPath := Vector2D.distanceTo (position marble) targetPosition in
  if 0.01 <? distanceFromPath then
    let correctionForce := Vector2D.mul normalUnit (- distanceFromPath * 0.5) in
    set_velocity marble (Vector2D.add (velocity marble) correctionForce)
  else marble.

(** [shouldAttachToPath]. *)
Definition shouldAttachToPath (marble : Marble) (pathInfo : PathInfo) : bool :=
  let normalSpeed :=
    abs (Vector2D.dot (velocity marble) (Vector2D.normalize (normal pathInfo))) in
  let tangentSpeed :=
    abs (Vector2D.dot (velocity marble) (Vector2D.normalize (tangent pathInfo))) in
  if (normalSpeed * 0.5 <? tangentSpeed) || (distance pathInfo <? 0.1) then true
  else
    let toPath :=
      Vector2D.normalize
        (Vector2D.mk (Vector2D.x (closestPoint pathInfo) - Vector2D.x (position marble))
                     (Vector2D.y (closestPoint pathInfo) - Vector2D.y (position marble))) in
    let approachSpeed := Vector2D.dot (velocity marble) toPath in
    if 0 <? approachSpeed then true else false.

(** [shouldDetachFromPath]. *)
Definition shouldDetachFromPath (marble : Marble) (pathInfo : PathInfo) : bool :=
  let slopeAngle :=
    Math_atan2 H (abs (Vector2D.y (tangent pathInfo))) (abs (Vector2D.x (tangent pathInfo))) in
  if (maxSlopeAngle this <? slopeAngle)
     && (Vector2D.magnitude (velocity marble) <? detachThreshold this)
  then true
  else
    let curvature := JS.or_else (curvature pathInfo) 0 in
    if JS.neq0 curvature then
      let speed := Vector2D.magnitude (velocity marble) in
      let centripetalRequired := speed * speed * abs curvature in
      let normalForce := abs (gravity this * Math_cos H slopeAngle) in
      if normalForce * 2 <? centripetalRequired then true else false
    else false.

(** [updateInAir].  The first statement assigns to [marble.velocity.y]. *)
Definition updateInAir (marble : Marble) (dt : float) : Marble :=
  let marble :=
    set_velocity marble
      (Vector2D.mk (Vector2D.x (velocity marble))
                   (Vector2D.y (velocity marble) + gravity this * dt)) in
  let speed := Vector2D.magnitude (velocity marble) in
  if 0 <? speed then
    let dragMagnitude := airDrag this * speed * speed in
    let dragForce := Vector2D.mul (Vector2D.normalize (velocity marble)) (- dragMagnitude) in
    set_velocity marble (Vector2D.add (velocity marble) (Vector2D.mul dragForce dt))
  else marble.

(** ** Collision detection *)

Definition checkCollision (marble : Marble) (star : Star) : bool :=
  let dx := Vector2D.x (position marble) - star_x star in
  let dy := Vector2D.y (position marble) - star_y star in
  let distanceSq := dx * dx + dy * dy in
  let radiusSum := radius marble + star_radius star in
  distanceSq <? radiusSum * radiusSum.

(** ** The main update loop *)

(** STEP 2 of [update]: the path state.  Returns the marble with the flags
    [attached] and [detached] of the result object. *)
Definition updatePathState (marble : Marble) (scaledDt : float)
    (pathInfo : option PathInfo) : Marble * bool * bool :=
  let wasOnPath := onPath marble in
  let freeFall (detached : bool) :=
    (updateInAir (set_path marble false None) scaledDt, false, detached) in
  match pathInfo with
  | Some info =>
      if distance info <? snapDistance this then
        if shouldAttachToPath marble info then
          let attached := negb wasOnPath in
          let marble := set_path marble true (Some (equation info)) in
          let marble := updateOnPath marble info scaledDt in
          if shouldDetachFromPath marble info
          then (set_path marble false None, attached, true)
          else (marble, attached, false)
        else freeFall false
      else freeFall wasOnPath
  | None => freeFall wasOnPath
  end.

(** STEP 3: [marble.position = marble.position.add(marble.velocity.mul(scaledDt))]. *)
Definition integratePosition (marble : Marble) (scaledDt : float) : Marble :=
  set_position marble
    (Vector2D.add (position marble) (Vector2D.mul (velocity marble) scaledDt)).

(** STEP 4: the [for (const star of stars)] loop.  [store] holds the star
    objects and [stars] is the array of references to them, so that one
    object listed twice is one object.  A reference always designates an
    object of the store; the loop skips an index outside it. *)
Fixpoint collectStars (marble : Marble) (store : list Star) (stars : list nat)
    (acc : list nat) : list Star * list nat :=
  match stars with
  | [] => (store, acc)
  | r :: rest =>
      match store !! r with
      | Some star =>
          if negb (collected star) && checkCollision marble star
          then collectStars marble (<[r := mark_collected star]> store) rest (acc ++ [r])
          else collectStars marble store rest acc
      | None => collectStars marble store rest acc
      end
  end.

(** STEP 6: the minimum-velocity clamp. *)
Definition clampMinVelocity (marble : Marble) : Marble :=
  if Vector2D.magnitude (velocity marble) <? minVelocity this then
    if 0 <? Vector2D.magnitude (velocity marble) then
      set_velocity marble
        (Vector2D.mul (Vector2D.normalize (velocity marble)) (minVelocity this * 2))
    else
      set_velocity marble (Vector2D.mk 0.01 (gravity this * 0.01))
  else marble.

(** The marble after STEPS 2 and 3 of [update], once the nearest path is
    known. *)
Definition afterMove (marble : Marble) (scaledDt : float)
    (pathInfo : option PathInfo) : Marble :=
  integratePosition (fst (fst (updatePathState marble scaledDt pathInfo))) scaledDt.

(** [update(marble, dt, equations, stars)].  The result is the marble, the
    star store and the returned object. *)
Definition update (fuel : nat) (marble : Marble) (dt : float)
    (equations : list Equation) (store : list Star) (stars : list nat)
  : res (Marble * list Star * UpdateResult) :=
  let scaledDt := dt * timeScale this in
  let* pathInfo := findNearestPath fuel marble equations in
  let '(marble1, attached, detached) := updatePathState marble scaledDt pathInfo in
  let marble2 := integratePosition marble1 scaledDt in
  let '(store', starsCollected) := collectStars marble2 store stars [] in
  let* marble3 := updateTrail fuel marble2 in
  let marble4 := clampMinVelocity marble3 in
  Ret (marble4, store',
       {| starsCollected := starsCollected; outOfBounds := false;
          detached := detached; attached := attached |}).

(** What [update] returns once the nearest path is known, when the trail
    loop ends ([update_returns]). *)
Definition finishUpdate (marble : Marble) (scaledDt : float)
    (pathInfo : option PathInfo) (store : list Star) (stars : list nat)
  : Marble * list Star * UpdateResult :=
  let '(marble1, attached, detached) := updatePathState marble scaledDt pathInfo in
  let marble2 := integratePosition marble1 scaledDt in
  let '(store', starsCollected) := collectStars marble2 store stars [] in
  let marble3 := trailUpdated marble2 in
  let marble4 := clampMinVelocity marble3 in
  (marble4, store',
   {| starsCollected := starsCollected; outOfBounds := false;
      detached := detached; attached := attached |}).

End Engine.

(* ===================================================================== *)
(** * A reference host                                                     *)
(* ===================================================================== *)

(** A plain implementation of the host functions, used to run the engine on
    concrete inputs.  No accuracy is claimed for it: the theorems below hold
    for every host that meets their stated assumptions. *)
Module RefHost.

(** Sum of [c(k) * z^k] terms of a power series, by Horner-free iteration:
    [term] is the current term, [k] its index. *)
Fixpoint series (n : nat) (next : float -> float -> float) (term k acc : float) : float :=
  match n with
  | O => acc
  | S n' => series n' next (next term k) (k + 1) (acc + term)
  end.

(** [sin] and [cos] by their Taylor series (adequate for the few turns the
    engine asks for). *)
Definition sin (x : float) : float :=
  series 40 (fun term k => - term * x * x / ((2 * k + 2) * (2 * k + 3))) x 0 0.

Definition cos (x : float) : float :=
  series 40 (fun term k => - term * x * x / ((2 * k + 1) * (2 * k + 2))) 1 0 0.

(** [atan] on [[-1, 1]]: two halvings of the angle, then the series. *)
Definition atan_small (z : float) : float :=
  let h1 := z / (1 + sqrt (1 + z * z)) in
  let h2 := h1 / (1 + sqrt (1 + h1 * h1)) in
  4 * series 30 (fun term k => - term * h2 * h2 * (2 * k + 1) / (2 * k + 3)) h2 0 0.

Definition atan (z : float) : float :=
  if abs z <=? 1 then atan_small z
  else if 0 <? z then JS.Math_PI / 2 - atan_small (1 / z)
  else - (JS.Math_PI / 2) - atan_small (1 / z).

Definition atan2_raw (y x : float) : float :=
  if 0 <? x then atan (y / x)
  else if x <? 0 then
    if y <? 0 then atan (y / x) - JS.Math_PI else atan (y / x) + JS.Math_PI
  else if 0 <? y then JS.Math_PI / 2
  else if y <? 0 then - (JS.Math_PI / 2)
  else y + x.

(** [atan2], kept within [[-PI, PI]]. *)
Definition atan2 (y x : float) : float :=
  let r := atan2_raw y x in
  if is_nan r then r
  else if (- JS.Math_PI <=? r) && (r <=? JS.Math_PI) then r
  else if r <? 0 then - JS.Math_PI else JS.Math_PI.

(** [pow] for the exponents met in the engine. *)
Definition pow (b e : float) : float :=
  if e =? 0 then 1
  else if e =? 1 then b
  else if e =? 1.5 then b * sqrt b
  else nan.

Definition host : MathHost :=
  {| Math_atan2 := atan2; Math_cos := cos; Math_sin := sin; Math_pow := pow |}.

End RefHost.


(* ===================================================================== *)
(** * Vocabulary of the statements                                         *)
(* ===================================================================== *)

(** Magnitudes of the velocity components along the tangent and the normal,
    and the velocity's component toward the closest point. *)
Definition tangentialSpeed (marble : Marble) (pathInfo : PathInfo) : float :=
  abs (Vector2D.dot (velocity marble) (Vector2D.normalize (tangent pathInfo))).

Definition normalSpeed (marble : Marble) (pathInfo : PathInfo) : float :=
  abs (Vector2D.dot (velocity marble) (Vector2D.normalize (normal pathInfo))).

Definition towardPath (marble : Marble) (pathInfo : PathInfo) : Vector2D :=
  Vector2D.normalize
    (Vector2D.mk (Vector2D.x (closestPoint pathInfo) - Vector2D.x (position marble))
                 (Vector2D.y (closestPoint pathInfo) - Vector2D.y (position marble))).

Definition approachSpeed (marble : Marble) (pathInfo : PathInfo) : float :=
  Vector2D.dot (velocity marble) (towardPath marble pathInfo).

(** The slope angle [atan2(|tangent.y|, |tangent.x|)]. *)
Definition slopeAngle (H : MathHost) (pathInfo : PathInfo) : float :=
  Math_atan2 H (abs (Vector2D.y (tangent pathInfo))) (abs (Vector2D.x (tangent pathInfo))).

(** The attachment flag and the bound-curve reference agree. *)
Definition attachment_consistent (marble : Marble) : Prop :=
  onPath marble = true <-> is_Some (currentEquation marble).

(** The host's [atan2] yields NaN or an angle within [[-PI, PI]]. *)
Definition atan2_in_range (H : MathHost) : Prop :=
  forall y x : float,
    is_nan (Math_atan2 H y x) = true \/
    ((- JS.Math_PI <=? Math_atan2 H y x) = true /\ (Math_atan2 H y x <=? JS.Math_PI) = true).

(** A completion that is a value. *)
Definition returns {A : Type} (c : res A) : Prop := exists a, c = Ret a.

(** The velocity the clamp of STEP 6 produces from the velocity [v]. *)
Definition clamped (this : PhysicsEngine) (v : Vector2D) : Vector2D :=
  if Vector2D.magnitude v <? minVelocity this then
    if 0 <? Vector2D.magnitude v
    then Vector2D.mul (Vector2D.normalize v) (minVelocity this * 2)
    else Vector2D.mk 0.01 (gravity this * 0.01)
  else v.

(** The number of turns of a scan [for (t = t0; t <= hi; t += 0.05)], when it
    leaves within [n] tests of its condition. *)
Fixpoint scanTurns (n : nat) (t hi : float) : option nat :=
  match n with
  | O => None
  | S n' => if t <=? hi then option_map S (scanTurns n' (t + 0.05) hi) else Some O
  end.

(** ** Values of floats, for the arithmetic of the scans *)

(** The value of a finite float, scaled by [2^1074] so that it is an integer;
    [0] for the others. *)
Definition Zv (f : spec_float) : Z :=
match f with
| S754_finite s m e => cond_Zopp s (Zpos m * 2 ^ (e + 1074))
| _ => 0%Z
end.

(** Zero or a finite number. *)
Definition is_fin (f : spec_float) : bool :=
match f with
| S754_zero _ | S754_finite _ _ _ => true
| _ => false
end.

Definition is_zero_sf (f : spec_float) : bool :=
match f with S754_zero _ => true | _ => false end.

(** The float [2]. *)
Definition SFtwo : spec_float := S754_finite false 4503599627370496 (-51).

Definition Fv (x : float) : Z := Zv (Prim2SF x).
Definition finF (x : float) : bool := is_fin (Prim2SF x).

(** The scaled value of [1.0], and the rounding error allowed on sums of
    magnitude at most 16. *)
Definition unitZ : Z := (2 ^ 1074)%Z.
Definition errZ : Z := (2 ^ 1027)%Z.


(** Both coordinates are finite. *)
Definition finiteVec (v : Vector2D) : bool :=
JS.isFinite (Vector2D.x v) && JS.isFinite (Vector2D.y v).

(** The step runs the free-fall dynamics: no path, or a path beyond
    [snapDistance], or a path the marble should not attach to. *)
Definition freeFallBranch (this : PhysicsEngine) (marble : Marble)
  (pathInfo : option PathInfo) : bool :=
match pathInfo with
| Some info => negb ((distance info <? snapDistance this) && shouldAttachToPath marble info)
| None => true
end.

(** The drag force that [updateInAir] computes for [marble] and [dt]. *)
Definition freeFallDrag (this : PhysicsEngine) (marble : Marble) (dt : float) : Vector2D :=
let v1 := Vector2D.mk (Vector2D.x (velocity marble))
                      (Vector2D.y (velocity marble) + gravity this * dt) in
let speed := Vector2D.magnitude v1 in
Vector2D.mul (Vector2D.normalize v1) (- (airDrag this * speed * speed)).

(** The free-fall dynamics as the specification words them: gravity on the
    vertical velocity, then the drag [normalize(velocity) * (-drag) * dt] with
    [drag = airDrag * |velocity|^2], whatever the speed. *)
Definition updateInAir_asSpecified (this : PhysicsEngine) (marble : Marble) (dt : float)
  : Marble :=
let v1 := Vector2D.mk (Vector2D.x (velocity marble))
                      (Vector2D.y (velocity marble) + gravity this * dt) in
let speed := Vector2D.magnitude v1 in
let drag := airDrag this * speed * speed in
set_velocity marble
  (Vector2D.add v1 (Vector2D.mul (Vector2D.mul (Vector2D.normalize v1) (- drag)) dt)).

(** ** Concrete inputs *)

(** A marble placed at rest at [(0, 2)]; a marble created with the default
    velocity just above the line [y = 0]; a star at [(0, 2)]. *)
Definition restingMarble : Marble :=
Marble_new 0 2 {| MarbleConfig.vx := Some 0; MarbleConfig.vy := Some 0;
                  MarbleConfig.radius := None; MarbleConfig.maxTrailLength := None |}.

Definition nearMarble : Marble := Marble_new 0 0.05 MarbleConfig.empty.

(** [new Marble(0, 0, { maxTrailLength: -1 })]. *)
Definition stuckMarble : Marble :=
Marble_new 0 0 {| MarbleConfig.vx := None; MarbleConfig.vy := None;
                  MarbleConfig.radius := None; MarbleConfig.maxTrailLength := Some (-1) |}.

Definition exampleStar : Star :=
{| star_x := 0; star_y := 2; star_radius := 0.3; collected := false |}.

(** The line [y = 2], and what the analysis of it reports for a marble at
    [(0, 2)]: the golden-section search over [[-3, 3]] ends at an abscissa
    close to, but not at, 0. *)
Definition lineY2 : Equation := parseConstantY 2.

Definition lineY2_abscissa : float :=
Eval vm_compute in
  match goldenSearch 51 (distanceAtX (Vector2D.mk 0 2) (fun _ => Some 2)) (0 - 3) (0 + 3) with
  | Ret st => (g_a st + g_b st) / 2
  | _ => nan
  end.

Definition lineY2_info : PathInfo :=
{| equation := lineY2;
   closestPoint := Vector2D.mk lineY2_abscissa 2;
   distance := Vector2D.distanceTo (Vector2D.mk 0 2)
                 (Vector2D.fromObject (Vector2D.mk lineY2_abscissa 2));
   tangent := Vector2D.mk 1 0;
   normal := Vector2D.mk (-0) 1;
   curvature := 0 |}.

(** [n] update steps in a row, with no stars: the [onPath] flag after each. *)
Fixpoint onPathTrace (H : MathHost) (this : PhysicsEngine) (fuel : nat) (n : nat)
  (marble : Marble) (equations : list Equation) : list bool :=
match n with
| O => []
| S n' =>
    match update H this fuel marble 1 equations [] [] with
    | Ret (marble', _, _) => onPath marble' :: onPathTrace H this fuel n' marble' equations
    | _ => [false]
    end
end.

(** The budget that is enough for every loop of the engine. *)
Definition enoughFuel : nat := 256.

(** Case analysis on the evaluator calls and tests of a [try] body. *)
Ltac run_body :=
repeat (simpl;
match goal with
| |- context [call (?f ?a ?b)] => destruct (f a b)
| |- context [call (?f ?a)] => destruct (f a)
| |- context [if ?c then _ else _] => destruct c
end);
simpl; eauto with engine.

(* ===================================================================== *)
(** * The rest of the physics module                                       *)
(* ===================================================================== *)

(** ** World bounds *)

(** The [bounds] object of [checkBounds] and [applyBoundaryBounce]. *)
Record Bounds : Type := {
  minX : float;
  maxX : float;
  minY : float;
  maxY : float
}.

(** [checkBounds(marble, bounds)]:
    [x >= minX && x <= maxX && y >= minY && y <= maxY]. *)
Definition checkBounds (marble : Marble) (bounds : Bounds) : bool :=
  let x := Vector2D.x (position marble) in
  let y := Vector2D.y (position marble) in
  (minX bounds <=? x) && (x <=? maxX bounds) && (minY bounds <=? y) && (y <=? maxY bounds).

(** [marble.position.x = px; marble.velocity.x = vx]. *)
Definition set_x (m : Marble) (px vx : float) : Marble :=
  set_velocity
    (set_position m (Vector2D.mk px (Vector2D.y (position m))))
    (Vector2D.mk vx (Vector2D.y (velocity m))).

(** [marble.position.y = py; marble.velocity.y = vy]. *)
Definition set_y (m : Marble) (py vy : float) : Marble :=
  set_velocity
    (set_position m (Vector2D.mk (Vector2D.x (position m)) py))
    (Vector2D.mk (Vector2D.x (velocity m)) vy).

(** [applyBoundaryBounce(marble, bounds)]: first the horizontal walls, then
    the vertical ones. *)
Definition applyBoundaryBounce (this : PhysicsEngine) (marble : Marble) (bounds : Bounds)
  : Marble :=
  let marble :=
    if Vector2D.x (position marble) <? minX bounds then
      set_x marble (minX bounds)
        (abs (Vector2D.x (velocity marble)) * bounceCoefficient this)
    else if maxX bounds <? Vector2D.x (position marble) then
      set_x marble (maxX bounds)
        (- abs (Vector2D.x (velocity marble)) * bounceCoefficient this)
    else marble in
  if Vector2D.y (position marble) <? minY bounds then
    set_y marble (minY bounds)
      (abs (Vector2D.y (velocity marble)) * bounceCoefficient this)
  else if maxY bounds <? Vector2D.y (position marble) then
    set_y marble (maxY bounds)
      (- abs (Vector2D.y (velocity marble)) * bounceCoefficient this)
  else marble.

(** ** The legacy entry point of the marble *)

(** [marble.update(physics, equations)]: one engine step with [dt = 1] over
    [this.stars || []], then the position is pushed on the trail once more and
    the trail is shortened by at most one entry.  [stars] is the marble's own
    [stars] property, absent unless the game has set it. *)
Definition Marble_update (H : MathHost) (physics : PhysicsEngine) (fuel : nat)
    (marble : Marble) (stars : option (list nat)) (equations : list Equation)
    (store : list Star) : res (Marble * list Star) :=
  let* (marble, store, result) :=
    update H physics fuel marble 1 equations store (JS.nullish stars []) in
  let marble :=
    set_trail marble
      (trail marble ++
         [Vector2D.mk (Vector2D.x (position marble)) (Vector2D.y (position marble))]) in
  let marble :=
    if maxTrailLength marble <? JS.ofLength (length (trail marble))
    then set_trail marble (tail (trail marble))
    else marble in
  Ret (marble, store).

(** ** Vocabulary of the further statements *)

(** The rank of a number in the order of the comparisons: the scaled value of
    a finite number, and a bound beyond every finite value for the
    infinities. *)
Definition SFord (f : spec_float) : Z :=
match f with
| S754_infinity true => (- 2 ^ 2100)%Z
| S754_infinity false => (2 ^ 2100)%Z
| other => Zv other
end.

Definition ord (x : float) : Z := SFord (Prim2SF x).

(** The number of collected stars of a store. *)
Fixpoint collectedCount (store : list Star) : nat :=
match store with
| [] => 0
| s :: rest => (if collected s then 1 else 0) + collectedCount rest
end.

(** What the analysis of the curves of a list can report for a marble: the
    path info of a curve of the list that is not an inequality. *)
Definition candidate (H : MathHost) (this : PhysicsEngine) (fuel : nat) (marble : Marble)
  (equations : list Equation) (info : PathInfo) : Prop :=
exists eq, eq ∈ equations /\ is_inequality eq = false /\
  analyzePathAtPoint H this fuel marble eq = Ret (Some info).

(** A number that is NaN, a zero, or of the sign [s] ([true]: negative). *)
Definition sided (s : bool) (f : spec_float) : bool :=
match f with
| S754_nan | S754_zero _ => true
| S754_infinity s' | S754_finite s' _ _ => Bool.eqb s s'
end.

(** The fields that no step of [update] assigns. *)
Definition sameBody (m m' : Marble) : Prop :=
radius m' = radius m /\ maxTrailLength m' = maxTrailLength m /\ active m' = active m.

(** Two numbers that are each other's opposite, or both a zero: they have the
    same square. *)
Definition mirrored (a b : spec_float) : Prop :=
b = SFopp a \/ (is_zero_sf a = true /\ is_zero_sf b = true).

(** [n] quarter turns of a vector. *)
Fixpoint quarterTurns (n : nat) (v : Vector2D) : Vector2D :=
match n with
| O => v
| S n' => Vector2D.perpendicular (quarterTurns n' v)
end.

(* ===================================================================== *)
(** * The game loop                                                        *)
(* ===================================================================== *)

(** The state of the [Game] object that its simulation step reads and
    writes.  The canvas, the renderer and the [UIManager] only draw and show
    messages; their calls are left out.  [stars] holds the star objects, and
    the array handed to the engine lists each of them once, in order. *)
Module Game.

#[local] Abbreviation reported := starsCollected.

Record t : Type := mk {
  physics : PhysicsEngine;
  equations : list Equation;
  marbles : list Marble;
  stars : list Star;
  level : nat;
  starsCollected : nat;
  gameRunning : bool;
  xMin : float;
  xMax : float;
  yMin : float;
  yMax : float
}.

Definition set_marbles (g : t) (l : list Marble) : t :=
  mk (physics g) (equations g) l (stars g) (level g) (starsCollected g) (gameRunning g)
     (xMin g) (xMax g) (yMin g) (yMax g).

Definition set_stars (g : t) (l : list Star) : t :=
  mk (physics g) (equations g) (marbles g) l (level g) (starsCollected g) (gameRunning g)
     (xMin g) (xMax g) (yMin g) (yMax g).

Definition set_starsCollected (g : t) (n : nat) : t :=
  mk (physics g) (equations g) (marbles g) (stars g) (level g) n (gameRunning g)
     (xMin g) (xMax g) (yMin g) (yMax g).

Definition set_gameRunning (g : t) (b : bool) : t :=
  mk (physics g) (equations g) (marbles g) (stars g) (level g) (starsCollected g) b
     (xMin g) (xMax g) (yMin g) (yMax g).

(** [star.collected = false]. *)
Definition uncollect (s : Star) : Star :=
  {| star_x := star_x s; star_y := star_y s; star_radius := star_radius s;
     collected := false |}.

(** The [bounds] object of [update]. *)
Definition bounds (g : t) : Bounds :=
  {| minX := xMin g - 2; maxX := xMax g + 2; minY := yMin g - 5; maxY := yMax g + 2 |}.

(** The callback of [this.marbles.forEach] in [update], for the marble at
    index [i]; the state is the game and the local [marblesInBounds]. *)
Definition stepMarble (H : MathHost) (fuel : nat) (st : t * bool) (i : nat) : res (t * bool) :=
  let '(g, marblesInBounds) := st in
  match marbles g !! i with
  | None => Ret st
  | Some marble =>
      let* (marble, store, result) :=
        update H (physics g) fuel marble 1 (equations g) (stars g)
          (seq 0 (length (stars g))) in
      let g := set_stars (set_marbles g (<[i := marble]> (marbles g))) store in
      let g :=
        if (0 <? length (reported result))%nat then
          let g :=
            set_starsCollected g
              (starsCollected g + length (reported result)) in
          if (starsCollected g =? length (stars g))%nat
          then set_gameRunning g false
          else g
        else g in
      Ret (g, if checkBounds marble (bounds g) then true else marblesInBounds)
  end.

Fixpoint forEachMarble (H : MathHost) (fuel : nat) (st : t * bool) (indices : list nat)
  : res (t * bool) :=
  match indices with
  | [] => Ret st
  | i :: rest =>
      let* st := stepMarble H fuel st i in
      forEachMarble H fuel st rest
  end.

(** [game.update()]. *)
Definition update (H : MathHost) (fuel : nat) (g : t) : res t :=
  let* (g, marblesInBounds) :=
    forEachMarble H fuel (g, false) (seq 0 (length (marbles g))) in
  if negb marblesInBounds && (0 <? length (marbles g))%nat then
    let g := set_gameRunning g false in
    if (starsCollected g <? length (stars g))%nat then
      Ret (set_starsCollected (set_stars g (map uncollect (stars g))) 0)
    else Ret g
  else Ret g.

(** [game.reset()]. *)
Definition reset (g : t) : t :=
  set_starsCollected
    (set_stars (set_marbles (set_gameRunning g false) []) (map uncollect (stars g))) 0.

End Game.

(** What every turn of the marble loop keeps, relative to the game [g0] at
    the start of [update]. *)
Definition loopInv (g0 g : Game.t) : Prop :=
Game.starsCollected g = collectedCount (Game.stars g) /\
length (Game.stars g) = length (Game.stars g0) /\
length (Game.marbles g) = length (Game.marbles g0) /\
Game.equations g = Game.equations g0 /\
Game.physics g = Game.physics g0 /\
Game.level g = Game.level g0 /\
(Game.gameRunning g = true -> Game.gameRunning g0 = true) /\
(Game.starsCollected g0 <= Game.starsCollected g)%nat /\
((Game.starsCollected g0 < length (Game.stars g0))%nat ->
 Game.starsCollected g = length (Game.stars g) -> Game.gameRunning g = false).

(** A game with the line [y = 2], one marble at rest at [(0, 2)] and one star
    there. *)
Definition exampleGame : Game.t :=
Game.mk PhysicsEngine_default [lineY2] [restingMarble] [exampleStar] 1 0 true (-10) 10 (-10) 10.

(* ===================================================================== *)
(** * Numbers of the page and of the parser                                *)
(* ===================================================================== *)

(** ** [Math.min] and [Math.max] *)

(** The number is [-0] (resp. [+0]). *)
Definition is_neg_zero (x : float) : bool := (x =? 0) && (1 / x <? 0).
Definition is_pos_zero (x : float) : bool := (x =? 0) && (0 <? 1 / x).

(** One turn of [Math.min]: [-0] counts as below [+0]. *)
Definition min_step (lowest number : float) : float :=
  if is_neg_zero number && is_pos_zero lowest then number
  else if number <? lowest then number
  else lowest.

Definition max_step (highest number : float) : float :=
  if is_pos_zero number && is_neg_zero highest then number
  else if highest <? number then number
  else highest.

(** [Math.min(...values)] and [Math.max(...values)]: NaN as soon as one value
    is NaN, the infinity of the right sign for no value. *)
Definition Math_min (values : list float) : float :=
  if existsb is_nan values then nan else fold_left min_step values infinity.

Definition Math_max (values : list float) : float :=
  if existsb is_nan values then nan else fold_left max_step values neg_infinity.

(** ** The start position (UIManager) *)

(** [getStartPosition()], from the numbers that [parseFloat] reads in the two
    input fields (NaN for a missing field or an unreadable text). *)
Definition getStartPosition (startX startY : float) : Vector2D :=
  let x := JS.or_else startX (-8) in
  let y := JS.or_else startY 8 in
  Vector2D.mk (Math_max [-10; Math_min [10; x]]) (Math_max [-10; Math_min [10; y]]).

(** ** World to screen *)

(** [mapToScreen(value, min, max, screenMin, screenMax)], of the game and of
    the renderer. *)
Definition mapToScreen (value min max screenMin screenMax : float) : float :=
  screenMin + (value - min) * (screenMax - screenMin) / (max - min).

(** ** Implicit curves: the cell test of [getPoints] *)

(** [hasZeroCrossing(f11, f12, f21, f22, tolerance)]. *)
Definition hasZeroCrossing (f11 f12 f21 f22 tolerance : float) : bool :=
  let values :=
    List.filter (fun v => negb (is_nan v) && JS.isFinite v) [f11; f12; f21; f22] in
  if (length values <? 2)%nat then false
  else
    let minVal := Math_min values in
    let maxVal := Math_max values in
    (minVal <=? tolerance) && (- tolerance <=? maxVal).

(** ** Piecewise curves: the conditions *)

(** A condition [{ operator, value }]. *)
Record Condition : Type := {
  operator : string;
  value : float
}.

(** The test of one condition in [checkConditions]; an unknown operator
    accepts every number. *)
Definition checkCondition (x : float) (cond : Condition) : bool :=
  if String.eqb (operator cond) ">"%string then value cond <? x
  else if String.eqb (operator cond) "<"%string then x <? value cond
  else if String.eqb (operator cond) ">="%string then value cond <=? x
  else if String.eqb (operator cond) "<="%string then x <=? value cond
  else if String.eqb (operator cond) "=="%string then abs (x - value cond) <? 0.01
  else if String.eqb (operator cond) "!="%string then 0.01 <=? abs (x - value cond)
  else true.

(** [checkConditions(x, conditions)]: [conditions.every(...)]. *)
Definition checkConditions (x : float) (conditions : list Condition) : bool :=
  forallb (checkCondition x) conditions.

(** The conditions that [parseConditions] builds for a double inequality
    [leftValue leftOp x rightOp rightValue], from the groups of its match. *)
Definition doubleConditions (leftValue : float) (leftOp rightOp : string)
    (rightValue : float) : list Condition :=
  let invertedLeftOp :=
    if String.eqb leftOp "<"%string then ">"%string
    else if String.eqb leftOp "<="%string then ">="%string
    else if String.eqb leftOp ">"%string then "<"%string
    else "<="%string in
  [ {| operator := invertedLeftOp; value := leftValue |};
    {| operator := rightOp; value := rightValue |} ].

(** The comparison [u op v] that one of the four signs [<], [<=], [>], [>=]
    writes. *)
Definition compares (op : string) (u v : float) : bool :=
  if String.eqb op "<"%string then u <? v
  else if String.eqb op "<="%string then u <=? v
  else if String.eqb op ">"%string then v <? u
  else v <=? u.

(** ** The colors of the parser *)

Definition colors : list string :=
  ["#ef4444"; "#10b981"; "#3b82f6"; "#8b5cf6"; "#f59e0b"; "#ec4899"]%string.

(** [getNextColor()], on the parser's [colorIndex]: the color handed out
    ([None] for [undefined]) and the new index. *)
Definition getNextColor (colorIndex : nat) : option string * nat :=
  (colors !! colorIndex, ((colorIndex + 1) mod length colors)%nat).

(** [n] calls of [getNextColor] in a row. *)
Fixpoint nextColors (n : nat) (colorIndex : nat) : list (option string) * nat :=
  match n with
  | O => ([], colorIndex)
  | S n' =>
      let '(color, colorIndex) := getNextColor colorIndex in
      let '(rest, colorIndex) := nextColors n' colorIndex in
      (color :: rest, colorIndex)
  end.

(** The parameters that a scan [for (t = t0; t <= hi; t += 0.05)] visits
    within [n] tests of its condition. *)
Fixpoint scanSamples (n : nat) (t hi : float) : list float :=
match n with
| O => []
| S n' => if t <=? hi then t :: scanSamples n' (t + 0.05) hi else []
end.

(** The point of a parametric curve at the parameter [t], when both
    evaluators return finite numbers there. *)
Definition parametricPoint (evaluateX evaluateY : float -> option float) (t : float)
  : option Vector2D :=
match evaluateX t, evaluateY t with
| Some x, Some y =>
    if JS.isFinite x && JS.isFinite y then Some (Vector2D.mk x y) else None
| _, _ => None
end.

(** The point of a polar curve at the angle [theta], when the evaluator
    returns a finite radius there. *)
Definition polarPoint (H : MathHost) (evaluate : float -> option float) (theta : float)
  : option Vector2D :=
match evaluate theta with
| Some r =>
    if JS.isFinite r
    then Some (Vector2D.mk (r * Math_cos H theta) (r * Math_sin H theta))
    else None
| None => None
end.

(** What a scan has found after the samples [seen]: either nothing, with the
    distance still infinite, or the sample [ct] at the distance [md]; and no
    sample seen is nearer than [md]. *)
Definition nearestSample (point : float -> option Vector2D) (pos : Vector2D)
  (seen : list float) (md ct : float) : Prop :=
(md = infinity \/
 exists p, ct ∈ seen /\ point ct = Some p /\ md = Vector2D.distanceTo pos p) /\
forall t p, t ∈ seen -> point t = Some p -> (Vector2D.distanceTo pos p <? md) = false.

(* ===================================================================== *)
(** * JavaScript strings                                                   *)
(* ===================================================================== *)

(** A JavaScript string is a sequence of UTF-16 code units; [length],
    [slice], [substring], [startsWith], [includes] and the patterns used here
    all work on code units. *)
Definition JSString : Type := list N.

(** The JavaScript string of an ASCII literal. *)
Definition lit (s : string) : JSString :=
  map (fun a => Ascii.N_of_ascii a) (list_ascii_of_string s).

Module Str.

(** [s.startsWith(p)]. *)
Fixpoint startsWith (s p : JSString) {struct p} : bool :=
  match p, s with
  | [], _ => true
  | c :: p', d :: s' => N.eqb d c && startsWith s' p'
  | _ :: _, [] => false
  end.

(** [s.includes(p)]. *)
Fixpoint includes (s p : JSString) : bool :=
  startsWith s p ||
  match s with
  | [] => false
  | _ :: s' => includes s' p
  end.

(** [s.endsWith(p)]; a pattern [/p$/] of literal characters matches [s]
    exactly when [s] ends with [p]. *)
Definition endsWith (s p : JSString) : bool := startsWith (rev s) (rev p).

(** [s.substring(n)] and [s.slice(0, n)], for an index that is a natural
    number. *)
Definition substring (s : JSString) (n : nat) : JSString := drop n s.
Definition slice0 (s : JSString) (n : nat) : JSString := take n s.

(** The class [\s] of a pattern: white space and line terminators. *)
Definition isWhitespace (c : N) : bool :=
  (N.leb 9 c && N.leb c 13) || N.eqb c 32 || N.eqb c 160 || N.eqb c 5760
  || (N.leb 8192 c && N.leb c 8202) || N.eqb c 8232 || N.eqb c 8233 || N.eqb c 8239
  || N.eqb c 8287 || N.eqb c 12288 || N.eqb c 65279.

(** The class [\d]: the ten ASCII digits. *)
Definition isDigit (c : N) : bool := N.leb 48 c && N.leb c 57.

(** [s.replace(/\s/g, '')]. *)
Definition removeWhitespace (s : JSString) : JSString :=
  List.filter (fun c => negb (isWhitespace c)) s.

(** The rest of [s] after its longest run of digits, and whether the run is
    not empty. *)
Fixpoint skipDigits (s : JSString) : JSString :=
  match s with
  | c :: s' => if isDigit c then skipDigits s' else s
  | [] => []
  end.

(** [/^-?\d+\.?\d*$/.test(s)]: an optional minus sign, at least one digit,
    an optional point, digits, and nothing more. *)
Definition isNumberText (s : JSString) : bool :=
  let s := match s with c :: s' => if N.eqb c 45 then s' else s | [] => s end in
  match s with
  | c :: _ =>
      isDigit c &&
      match skipDigits s with
      | [] => true
      | d :: rest =>
          N.eqb d 46 && match skipDigits rest with [] => true | _ :: _ => false end
      end
  | [] => false
  end.

End Str.

(** The host's implementation of [String.prototype.toLowerCase]. *)
Record StringHost : Type := {
  toLowerCase : JSString -> JSString
}.

(** A host that lowers the ASCII letters and keeps every other code unit. *)
Definition asciiLower : StringHost :=
  {| toLowerCase :=
       map (fun c => if N.leb 65 c && N.leb c 90 then N.add c 32 else c) |}.

(* ===================================================================== *)
(** * EquationParser: the kind of an equation                              *)
(* ===================================================================== *)

Section EquationParser.

Variable S : StringHost.

(** [detectEquationType(equation)]: the name of the kind, or the exception
    [Cannot determine equation type]. *)
Definition detectEquationType (equation : JSString) : res string :=
  let clean := Str.removeWhitespace equation in
  let lower := toLowerCase S clean in
  if Str.startsWith lower (lit "r=")
     && (Str.includes clean [952%N] || Str.includes lower (lit "theta"))
  then Ret "polar"%string
  else if (Str.includes clean (lit "x(t)") || Str.includes clean (lit "y(t)"))
          || (Str.includes clean (lit ",") && Str.includes clean (lit "t")
              && negb (Str.includes clean (lit "theta")))
  then Ret "parametric"%string
  else if Str.includes clean (lit ">=") || Str.includes clean (lit "<=")
          || Str.includes clean [8805%N] || Str.includes clean [8804%N]
          || (Str.includes clean (lit ">") && negb (Str.includes clean (lit "=")))
          || (Str.includes clean (lit "<") && negb (Str.includes clean (lit "=")))
  then Ret "inequality"%string
  else
    let afterX :=
      if Str.startsWith lower (lit "x=") then
        let rightSide := Str.substring clean 2 in
        if Str.isNumberText rightSide then Some "constant_x"%string
        else if negb (Str.includes clean (lit "y")) || Str.includes rightSide (lit "y")
        then Some "explicit_x"%string
        else None
      else None in
    match afterX with
    | Some kind => Ret kind
    | None =>
        if Str.startsWith lower (lit "y=") then
          let rightSide := Str.substring clean 2 in
          if Str.isNumberText rightSide then Ret "constant_y"%string
          else Ret "explicit_y"%string
        else if Str.startsWith lower (lit "y=") then Ret "explicit_y"%string
        else if Str.startsWith lower (lit "x=") then Ret "explicit_x"%string
        else if Str.includes clean (lit "=") && Str.includes clean (lit "x")
                && Str.includes clean (lit "y")
        then Ret "implicit"%string
        else if Str.includes clean (lit "x") && negb (Str.includes clean (lit "y"))
        then Ret "explicit_y"%string
        else Throw
    end.

End EquationParser.

(* ===================================================================== *)
(** * MathKeyboard: inserting a key and deleting it                        *)
(* ===================================================================== *)

Module MathKeyboard.

(** The input field: its text and the position of the cursor.  The page keeps
    the cursor within the text. *)
Record Input : Type := {
  value : JSString;
  selectionStart : nat
}.

(** [input.setSelectionRange(n, n)]. *)
Definition setSelectionRange (text : JSString) (n : nat) : Input :=
  {| value := text; selectionStart := Nat.min n (length text) |}.

(** The patterns of [getDeleteCount], in their order; each is a literal text
    anchored at the end. *)
Definition patterns : list JSString :=
  map lit
    ["sin("; "cos("; "tan("; "sec("; "csc("; "cot(";
     "sinh("; "cosh("; "tanh(";
     "arcsin("; "arccos("; "arctan(";
     "sqrt("; "abs("; "ln("; "log("; "log10(";
     "floor("; "ceil("; "sign(";
     "nthroot(";
     "theta"; "pi";
     " = "; " < "; " > "; " <= "; " >= "; " != "]%string.

(** [getDeleteCount(value, pos)]: the length of the first pattern that the
    text before the cursor ends with, and 1 when there is none. *)
Definition getDeleteCount (text : JSString) (pos : nat) : nat :=
  let before := Str.slice0 text pos in
  match List.find (fun p => Str.endsWith before p) patterns with
  | Some p => length p
  | None => 1
  end.

(** Where [insert] writes: [selectionStart || value.length]. *)
Definition insertPosition (input : Input) : nat :=
  if (selectionStart input =? 0)%nat then length (value input) else selectionStart input.

(** [insert(value)], on the input field. *)
Definition insert (input : Input) (text : JSString) : Input :=
  let pos := insertPosition input in
  let before := Str.slice0 (value input) pos in
  let after := Str.substring (value input) pos in
  setSelectionRange (before ++ text ++ after) (pos + length text).

(** [handleAction('backspace')], on the input field.  The count never exceeds
    the position, so that [pos - count] is not negative. *)
Definition backspace (input : Input) : Input :=
  let pos := selectionStart input in
  let val := value input in
  if (0 <? pos)%nat then
    let count := getDeleteCount val pos in
    setSelectionRange (Str.slice0 val (pos - count) ++ Str.substring val pos) (pos - count)
  else input.

(** The keys whose text is a pattern of [getDeleteCount], but for the three
    inverse trigonometric keys, and these three. *)
Definition smartKeys : list JSString :=
  map lit
    ["sin("; "cos("; "tan("; "sec("; "csc("; "cot(";
     "sinh("; "cosh("; "tanh(";
     "sqrt("; "abs("; "ln("; "log("; "log10(";
     "floor("; "ceil("; "sign(";
     "nthroot(";
     "theta"; "pi";
     " = "; " < "; " > "; " <= "; " >= "; " != "]%string.

Definition inverseKeys : list JSString := map lit ["arcsin("; "arccos("; "arctan("]%string.

End MathKeyboard.

(** ** Deciding a pattern match from the end of a text *)

(** Whether every text [k ++ b] starts with [p], when [k] settles it. *)
Fixpoint prefixVerdict (k p : JSString) : option bool :=
match p, k with
| [], _ => Some true
| c :: p', d :: k' => if N.eqb d c then prefixVerdict k' p' else Some false
| _ :: _, [] => None
end.

(** The first of the patterns [ps] that a text ending with [key] ends with,
    when [key] settles it. *)
Fixpoint firstMatch (key : JSString) (ps : list JSString) : option (option JSString) :=
match ps with
| [] => Some None
| p :: rest =>
    match prefixVerdict (rev key) (rev p) with
    | Some true => Some (Some p)
    | Some false => firstMatch key rest
    | None => None
    end
end.

(** The number of characters that a backspace deletes after [key]. *)
Definition deletedAfter (key : JSString) : option nat :=
match firstMatch key MathKeyboard.patterns with
| Some (Some p) => Some (length p)
| Some None => Some 1%nat
| None => None
end.

(* ===================================================================== *)
(** * EquationRenderer: the pieces of a curve                              *)
(* ===================================================================== *)

Module EquationRenderer.

(** [if (currentSegment.length > 1) this.drawSmoothCurve(currentSegment)]:
    [drawn] lists the segments handed to [drawSmoothCurve] so far. *)
Definition drawIfLong (currentSegment : list Vector2D) (drawn : list (list Vector2D))
  : list (list Vector2D) :=
  if (1 <? length currentSegment)%nat then drawn ++ [currentSegment] else drawn.

(** The loop of [drawContinuousSegments(points)] and the statement after it.
    A point is [Some] screen position when its [valid] is set, [None]
    otherwise.  The result lists the segments drawn, in order. *)
Fixpoint drawContinuousSegments_from (points : list (option Vector2D))
    (currentSegment : list Vector2D) (drawn : list (list Vector2D))
  : list (list Vector2D) :=
  match points with
  | [] => drawIfLong currentSegment drawn
  | Some p :: rest =>
      match last currentSegment with
      | Some l =>
          let dist := abs (Vector2D.y p - Vector2D.y l) in
          if 100 <? dist
          then drawContinuousSegments_from rest [p] (drawIfLong currentSegment drawn)
          else drawContinuousSegments_from rest (currentSegment ++ [p]) drawn
      | None => drawContinuousSegments_from rest (currentSegment ++ [p]) drawn
      end
  | None :: rest => drawContinuousSegments_from rest [] (drawIfLong currentSegment drawn)
  end.

(** [drawContinuousSegments(points)]. *)
Definition drawContinuousSegments (points : list (option Vector2D)) : list (list Vector2D) :=
  drawContinuousSegments_from points [] [].

End EquationRenderer.

(** No jump of more than 100 between two successive points of a segment. *)
Fixpoint continuous (segment : list Vector2D) : Prop :=
match segment with
| a :: (b :: _) as rest =>
    (100 <? abs (Vector2D.y b - Vector2D.y a)) = false /\ continuous rest
| _ => True
end.

(** The valid points of a list, in order. *)
Definition validPoints (points : list (option Vector2D)) : list Vector2D :=
  omap id points.

(** ** Grouping the points of an implicit curve *)

Section Grouping.

Variable H : MathHost.
Variable points : list Vector2D.
Variable maxDistance : float.

(** The distance that the inner loop computes between [points[j]] and the
    last point of the curve; the operator [**] is the host's power. *)
Definition jumpTo (p lastPoint : Vector2D) : float :=
  sqrt (Math_pow H (Vector2D.x p - Vector2D.x lastPoint) 2
        + Math_pow H (Vector2D.y p - Vector2D.y lastPoint) 2).

(** The [for (let j ...)] loop: the first point that is not used and lies
    within [maxDistance] of [lastPoint]. *)
Definition nextPoint (used : list nat) (lastPoint : Vector2D) : option nat :=
  List.find
    (fun j =>
       negb (bool_decide (j ∈ used)) &&
       match points !! j with
       | Some p => jumpTo p lastPoint <=? maxDistance
       | None => false
       end)
    (seq 0 (length points)).

(** The [while (added)] loop.  A curve holds references to points (indices
    into [points]); [used] is the set of the indices taken so far. *)
Fixpoint growCurve (fuel : nat) (curve used : list nat) : res (list nat * list nat) :=
  match fuel with
  | O => Timeout
  | S fuel' =>
      match last curve ≫= (fun j => points !! j) with
      | None => Throw
      | Some lastPoint =>
          match nextPoint used lastPoint with
          | Some j => growCurve fuel' (curve ++ [j]) (j :: used)
          | None => Ret (curve, used)
          end
      end
  end.

(** The [for (let i ...)] loop. *)
Fixpoint groupFrom (fuel : nat) (indices : list nat) (used : list nat)
    (curves : list (list nat)) : res (list (list nat)) :=
  match indices with
  | [] => Ret curves
  | i :: rest =>
      if bool_decide (i ∈ used) then groupFrom fuel rest used curves
      else
        let* (curve, used) := growCurve fuel [i] (i :: used) in
        groupFrom fuel rest used (curves ++ [curve])
  end.

(** [groupPointsIntoCurves(points, maxDistance)], as curves of references. *)
Definition groupPointsIntoCurves (fuel : nat) : res (list (list nat)) :=
  if (length points =? 0)%nat then Ret []
  else groupFrom fuel (seq 0 (length points)) [] [].

(** Each point of a curve lies within [maxDistance] of the one before it. *)
Fixpoint linked (curve : list nat) : Prop :=
  match curve with
  | i :: (j :: _) as rest =>
      (exists p q, points !! i = Some p /\ points !! j = Some q /\
         (jumpTo q p <=? maxDistance) = true) /\
      linked rest
  | _ => True
  end.

(** The state of the grouping: the indices used are those of the curves
    closed so far and of the open curve, each once and each a point. *)
Definition grouped (done : list (list nat)) (curve used : list nat) : Prop :=
used ≡ₚ concat done ++ curve /\ NoDup used /\
Forall (fun j => (j < length points)%nat) used.

End Grouping.

(** A host whose power squares exactly, to run the grouping on examples. *)
Definition squaringHost : MathHost :=
  {| Math_atan2 := RefHost.atan2; Math_cos := RefHost.cos; Math_sin := RefHost.sin;
     Math_pow := fun b e => if e =? 2 then b * b else RefHost.pow b e |}.

(* ===================================================================== *)
(** * Completions and loops                                                *)
(* ===================================================================== *)

Lemma returns_Ret {A} (a : A) : returns (Ret a).
Proof. by exists a. Qed.

Lemma returns_try_catch {A} (body handler : res A) :
  body <> Timeout -> returns handler -> returns (try_catch body handler).
Proof. destruct body; simpl; intros Hb Hh; [by eexists | done | done]. Qed.

Lemma call_not_Timeout (r : option float) : call r <> Timeout.
Proof. by destruct r. Qed.

Lemma returns_not_Timeout {A} (c : res A) : returns c -> c <> Timeout.
Proof. by intros [a ->]. Qed.

Create HintDb engine.
#[local] Hint Resolve returns_Ret returns_not_Timeout call_not_Timeout : engine.

(** More fuel never changes the value of a loop that returned. *)
Lemma loop_fuel_mono {S R} (body : S -> res (S + R)) :
  forall fuel fuel' s r, (fuel <= fuel')%nat ->
    loop fuel body s = Ret r -> loop fuel' body s = Ret r.
Proof.
  induction fuel as [|n IH]; intros fuel' s r Hle; simpl; [done|].
  destruct fuel' as [|n']; [lia|]. simpl.
  destruct (body s) as [[s'|r']| |]; simpl; try done.
  apply IH. lia.
Qed.

(** A loop with an invariant and a measure: it returns, and its result
    satisfies what the leaving turn establishes. *)
Lemma loop_inv {S R} (body : S -> res (S + R)) (measure : S -> nat)
    (I : S -> Prop) (Q : R -> Prop) :
  (forall s, I s ->
     (exists s', body s = Ret (inl s') /\ I s' /\ (measure s' < measure s)%nat) \/
     (exists r, body s = Ret (inr r) /\ Q r)) ->
  forall fuel s, I s -> (measure s < fuel)%nat ->
    exists r, loop fuel body s = Ret r /\ Q r.
Proof.
  intros Hstep. induction fuel as [|n IH]; intros s Hs Hm; [lia|]. simpl.
  destruct (Hstep s Hs) as [(s' & -> & Hs' & Hlt)|(r & -> & Hr)]; simpl.
  - apply IH; [done|lia].
  - by exists r.
Qed.

Section Numerics.

Variable H : MathHost.
Variable this : PhysicsEngine.

Lemma distanceAtX_returns pos f x : returns (distanceAtX pos f x).
Proof.
  unfold distanceAtX. destruct (f x) as [v|]; simpl; [|by eexists].
  destruct (JS.isFinite v); simpl; by eexists.
Qed.

Lemma distanceAtY_returns pos f y : returns (distanceAtY pos f y).
Proof.
  unfold distanceAtY. destruct (f y) as [v|]; simpl; [|by eexists].
  destruct (JS.isFinite v); simpl; by eexists.
Qed.

(** The golden-section loop leaves after at most 50 turns, and when it leaves
    either the interval is within the tolerance or 50 turns were made. *)
Lemma goldenSearch_returns (distanceAt : float -> res float) (lo hi : float) fuel :
  (forall x, returns (distanceAt x)) -> (51 <= fuel)%nat ->
  exists st, goldenSearch fuel distanceAt lo hi = Ret st /\
    (iterations st <= 50)%nat /\
    ((tolerance <? abs (g_b st - g_a st)) = false \/ iterations st = 50%nat).
Proof.
  intros Hd Hfuel. unfold goldenSearch.
  apply (loop_inv (goldenBody distanceAt) (fun st => 50 - iterations st)%nat
           (fun st => (iterations st <= 50)%nat)); simpl; [|lia|lia].
  intros st Hst. unfold goldenBody.
  destruct (tolerance <? abs (g_b st - g_a st)) eqn:Htol; simpl.
  - destruct (Nat.ltb_spec (iterations st) 50) as [Hlt|Hge].
    + left. destruct (Hd (g_c st)) as [dc ->], (Hd (g_d st)) as [dd ->]. simpl.
      destruct (dc <? dd); eexists; (split; [reflexivity|]); simpl; lia.
    + right. exists st. repeat split; [lia|]. right. lia.
  - right. exists st. repeat split; [lia|]. by left.
Qed.

Lemma findClosestXOnCurve_returns fuel pos f lo hi :
  (51 <= fuel)%nat -> returns (findClosestXOnCurve fuel pos f lo hi).
Proof.
  intros Hf. unfold findClosestXOnCurve.
  destruct (goldenSearch_returns (distanceAtX pos f) lo hi fuel) as (st & -> & _);
    [apply distanceAtX_returns|done|]. simpl. by eexists.
Qed.

Lemma findClosestYOnCurve_returns fuel pos f lo hi :
  (51 <= fuel)%nat -> returns (findClosestYOnCurve fuel pos f lo hi).
Proof.
  intros Hf. unfold findClosestYOnCurve.
  destruct (goldenSearch_returns (distanceAtY pos f) lo hi fuel) as (st & -> & _);
    [apply distanceAtY_returns|done|]. simpl. by eexists.
Qed.

Lemma calculateDerivative_returns f x h : returns (calculateDerivative this f x h).
Proof. unfold calculateDerivative. run_body. Qed.

Lemma calculateSecondDerivative_returns f x h :
  returns (calculateSecondDerivative this f x h).
Proof. unfold calculateSecondDerivative. run_body. Qed.

Lemma calculateGradient_returns f x y h : returns (calculateGradient this f x y h).
Proof. unfold calculateGradient. run_body. Qed.

Lemma calculateImplicitCurvature_returns f x y :
  returns (calculateImplicitCurvature H this f x y).
Proof. unfold calculateImplicitCurvature. run_body. Qed.

Lemma findClosestPointImplicit_returns fuel pos f :
(21 <= fuel)%nat -> returns (findClosestPointImplicit this fuel pos f).
Proof.
intros Hf. unfold findClosestPointImplicit.
destruct (loop_inv (implicitBody this f) (fun st => 20 - snd st)%nat
            (fun _ => True) (fun _ => True)) with (fuel := fuel)
  (s := (Vector2D.x pos, Vector2D.y pos, 0%nat)) as (r & -> & _);
  [|done|simpl; lia|by eexists].
intros [[x y] i] _. unfold implicitBody.
destruct (Nat.ltb_spec i 20) as [Hlt|Hge]; [|right; by eexists].
destruct (f x y) as [v|]; simpl; [|right; by eexists].
destruct (abs v <? 0.01); simpl; [right; by eexists|].
destruct (calculateGradient_returns f x y None) as [g ->]. simpl.
destruct (Vector2D.magnitude g <? 0.001); simpl; [right; by eexists|].
left. eexists. split; [reflexivity|]. simpl. split; [done|lia].
Qed.

(** A scan whose sequence of sample points leaves within [k] turns returns
    with any budget above [k]. *)
Lemma parametricScan_returns pos fx fy :
forall n t md ct k, scanTurns n t (2 * JS.Math_PI) = Some k ->
  forall fuel, (k < fuel)%nat ->
    returns (loop fuel (parametricBody pos fx fy) (t, md, ct)).
Proof.
induction n as [|n IH]; intros t md ct k Hk fuel Hfuel; cbn [scanTurns] in Hk; [done|].
destruct fuel as [|fuel]; [lia|]. cbn [loop]. unfold parametricBody at 1.
destruct (t <=? 2 * JS.Math_PI) eqn:Hle; [|cbn [bind]; by eexists].
destruct (scanTurns n (t + 0.05) (2 * JS.Math_PI)) as [k'|] eqn:Hk'; [|done].
cbn [option_map] in Hk. injection Hk as <-.
assert (exists p, try_catch
          (let* x := call (fx t) in
           let* y := call (fy t) in
           if negb (JS.isFinite x) || negb (JS.isFinite y) then Ret (md, ct)
           else if Vector2D.distanceTo pos (Vector2D.mk x y) <? md
                then Ret (Vector2D.distanceTo pos (Vector2D.mk x y), t)
                else Ret (md, ct))
          (Ret (md, ct)) = Ret p) as [[md' ct'] ->].
{ destruct (fx t), (fy t); cbn [call bind try_catch]; eauto.
  destruct (negb _ || negb _); eauto. destruct (_ <? md); eauto. }
cbn [bind]. eapply IH; [exact Hk'|lia].
Qed.

Lemma polarScan_returns pos f marbleTheta :
forall n t md ct k, scanTurns n t (marbleTheta + JS.Math_PI) = Some k ->
  forall fuel, (k < fuel)%nat ->
    returns (loop fuel (polarBody H pos f marbleTheta) (t, md, ct)).
Proof.
induction n as [|n IH]; intros t md ct k Hk fuel Hfuel; cbn [scanTurns] in Hk; [done|].
destruct fuel as [|fuel]; [lia|]. cbn [loop]. unfold polarBody at 1.
destruct (t <=? marbleTheta + JS.Math_PI) eqn:Hle; [|cbn [bind]; by eexists].
destruct (scanTurns n (t + 0.05) (marbleTheta + JS.Math_PI)) as [k'|] eqn:Hk'; [|done].
cbn [option_map] in Hk. injection Hk as <-.
assert (exists p, try_catch
          (let* r := call (f t) in
           if negb (JS.isFinite r) then Ret (md, ct)
           else if Vector2D.distanceTo pos
                     (Vector2D.mk (r * Math_cos H t) (r * Math_sin H t)) <? md
                then Ret (Vector2D.distanceTo pos
                            (Vector2D.mk (r * Math_cos H t) (r * Math_sin H t)), t)
                else Ret (md, ct))
          (Ret (md, ct)) = Ret p) as [[md' ct'] ->].
{ destruct (f t); cbn [call bind try_catch]; eauto.
  destruct (negb _); eauto. destruct (_ <? md); eauto. }
cbn [bind]. eapply IH; [exact Hk'|lia].
Qed.

(** The parametric scan visits 126 sample points. *)
Lemma parametricScan_turns : scanTurns 200 0 (2 * JS.Math_PI) = Some 126%nat.
Proof. vm_compute. reflexivity. Qed.

End Numerics.

(* ===================================================================== *)
(** * Binary64 arithmetic: rounding error and order                       *)
(* ===================================================================== *)

Section FloatFacts.

#[local] Open Scope Z_scope.

Lemma digits2_pos_size m : digits2_pos m = Pos.size m.
Proof. induction m; simpl; congruence. Qed.

Lemma digits2_pos_bounds m :
2 ^ (Zpos (digits2_pos m) - 1) <= Zpos m < 2 ^ Zpos (digits2_pos m).
Proof.
rewrite digits2_pos_size. split.
- pose proof (Pos.size_le m) as Hle.
  assert (2 ^ Zpos (Pos.size m) <= 2 * Zpos m) as H2.
  { change (2 * Zpos m) with (Zpos m~0). rewrite <- Pos2Z.inj_pow. apply Pos2Z.pos_le_pos, Hle. }
  replace (Zpos (Pos.size m)) with (Zpos (Pos.size m) - 1 + 1) in H2 by lia.
  rewrite Z.pow_add_r in H2 by lia. lia.
- rewrite <- Pos2Z.inj_pow. apply Pos2Z.pos_lt_pos, Pos.size_gt.
Qed.

Lemma fexp_eq k : fexp prec emax k = Z.max (k - 53) (-1074).
Proof. reflexivity. Qed.

(** Validity of a finite float. *)
Lemma valid_finite s m e :
valid_binary (S754_finite s m e) = true ->
-1074 <= e <= 971 /\ Zpos (digits2_pos m) <= 53 /\ (-1074 < e -> Zpos (digits2_pos m) = 53).
Proof.
unfold SpecFloat.valid_binary, bounded, canonical_mantissa. rewrite fexp_eq.
intros [Hc He]%andb_true_iff. apply Z.eqb_eq in Hc. apply Z.leb_le in He.
change (emax - prec) with 971 in He. lia.
Qed.

Lemma shr_1_m mrs : 0 <= shr_m mrs -> shr_m (shr_1 mrs) = shr_m mrs / 2.
Proof.
destruct mrs as [m r s]. simpl. intros Hm.
destruct m as [|[p|p|]|p]; cbn [shr_m] in *; try lia.
- reflexivity.
- apply Z.div_unique with (r := 1); lia.
- apply Z.div_unique with (r := 0); lia.
- reflexivity.
Qed.

Lemma iter_pos_shr_1 p : forall mrs, 0 <= shr_m mrs ->
shr_m (SpecFloat.iter_pos shr_1 p mrs) = shr_m mrs / 2 ^ Zpos p.
Proof.
induction p as [p IH|p IH|]; intros mrs Hm; cbn [SpecFloat.iter_pos].
- assert (0 <= shr_m (shr_1 mrs)) as H1.
  { rewrite shr_1_m by done. apply Z.div_pos; lia. }
  assert (0 <= shr_m (SpecFloat.iter_pos shr_1 p (shr_1 mrs))) as H2.
  { rewrite IH by done. apply Z.div_pos; [done|]. apply Z.pow_pos_nonneg; lia. }
  rewrite IH, IH, shr_1_m by done.
  rewrite !Z.div_div by (try apply Z.pow_pos_nonneg; lia).
  f_equal. rewrite Pos2Z.inj_xI. rewrite <- Z.pow_add_r by lia.
  replace (2 * Zpos p + 1) with (1 + (Zpos p + Zpos p)) by lia.
  rewrite (Z.pow_add_r 2 1) by lia. reflexivity.
- assert (0 <= shr_m (SpecFloat.iter_pos shr_1 p mrs)) as H2.
  { rewrite IH by done. apply Z.div_pos; [done|]. apply Z.pow_pos_nonneg; lia. }
  rewrite IH, IH by done.
  rewrite !Z.div_div by (try apply Z.pow_pos_nonneg; lia).
  f_equal. rewrite Pos2Z.inj_xO. rewrite <- Z.pow_add_r by lia. f_equal. lia.
- rewrite shr_1_m by done. reflexivity.
Qed.

Lemma shr_m_of_loc m l : shr_m (shr_record_of_loc m l) = m.
Proof. by destruct l as [|[]]. Qed.

Lemma shr_fexp_pos m e l :
-1074 <= e ->
exists mrs e',
  shr_fexp prec emax (Zpos m) e l = (mrs, e') /\
  e' = Z.max e (Zpos (digits2_pos m) + e - 53) /\
  shr_m mrs = Zpos m / 2 ^ (e' - e) /\
  (e' = e -> mrs = shr_record_of_loc (Zpos m) l).
Proof.
intros He. unfold shr_fexp, shr. cbn [Zdigits2]. rewrite fexp_eq.
destruct (Z.max (Zpos (digits2_pos m) + e - 53) (-1074) - e) as [|p|p] eqn:Hn.
- eexists _, _. split; [reflexivity|]. split; [lia|]. split; [|done].
  rewrite shr_m_of_loc. replace (e - e) with 0 by lia. by rewrite Z.div_1_r.
- eexists _, _. split; [reflexivity|]. split; [lia|]. split; [|lia].
  rewrite iter_pos_shr_1 by (rewrite shr_m_of_loc; lia).
  rewrite shr_m_of_loc. f_equal. f_equal. lia.
- eexists _, _. split; [reflexivity|]. split; [lia|]. split; [|done].
  rewrite shr_m_of_loc. replace (e - e) with 0 by lia. by rewrite Z.div_1_r.
Qed.

Lemma shr_step m e e' :
-1074 <= e -> e' = Z.max e (Zpos (digits2_pos m) + e - 53) ->
let q := Zpos m / 2 ^ (e' - e) in
let u := 2 ^ (e' + 1074) in
let V := Zpos m * 2 ^ (e + 1074) in
1 <= q /\ q * u <= V /\ V < (q + 1) * u /\ (e < e' -> u * 2 ^ 52 <= V) /\
(e' = e -> q = Zpos m).
Proof.
intros He He'. cbv zeta.
pose proof (digits2_pos_bounds m) as [Hlo Hhi].
set (d := Zpos (digits2_pos m)) in *.
set (k := 2 ^ (e' - e)). set (w := 2 ^ (e + 1074)).
set (q := Zpos m / k). set (u := 2 ^ (e' + 1074)). set (V := Zpos m * w).
assert (0 < k) as Hk by (apply Z.pow_pos_nonneg; lia).
assert (0 < w) as Hw by (apply Z.pow_pos_nonneg; lia).
assert (u = k * w) as Hu.
{ unfold u, k, w. rewrite <- Z.pow_add_r by lia. f_equal. lia. }
assert (k <= Zpos m) as Hkm.
{ destruct (Z.eq_dec e' e) as [->|Hne].
  - unfold k. replace (e - e) with 0 by lia. change (2 ^ 0) with 1. lia.
  - unfold k. replace (e' - e) with (d - 53) by lia.
    etrans; [|exact Hlo]. apply Z.pow_le_mono_r; lia. }
pose proof (Z.mul_div_le (Zpos m) k Hk) as H1.
pose proof (Z.mul_succ_div_gt (Zpos m) k Hk) as H2.
fold q in H1, H2.
assert (1 <= q) as Hq1.
{ unfold q. apply Z.div_le_lower_bound; lia. }
split; [done|]. rewrite Hu. unfold V.
split.
{ replace (q * (k * w)) with (k * q * w) by ring.
  apply Z.mul_le_mono_nonneg_r; lia. }
split.
{ replace ((q + 1) * (k * w)) with (k * Z.succ q * w) by ring.
  apply Z.mul_lt_mono_pos_r; lia. }
split.
- intros Hlt. assert (e' = d + e - 53) as He'' by lia.
  assert (k * w * 2 ^ 52 = 2 ^ (d - 1) * w) as ->.
  { unfold k, w. rewrite <- !Z.pow_add_r by lia. f_equal. lia. }
  apply Z.mul_le_mono_nonneg_r; lia.
- intros ->. unfold q, k. replace (e - e) with 0 by lia. by rewrite Z.div_1_r.
Qed.

Lemma round_nearest_even_bounds q l :
q <= round_nearest_even q l <= q + 1.
Proof. destruct l as [|[]]; simpl; try lia. destruct (Z.even q); lia. Qed.

(** Arithmetic of one truncation followed by a rounding to [q] or [q + 1]. *)
Lemma rel_err_step V q u m1 T :
0 < u -> 0 < T -> q * u <= V -> V < (q + 1) * u -> u * T <= V -> q <= m1 <= q + 1 ->
V * (T - 1) <= m1 * u * T /\ m1 * u * T <= V * (T + 1).
Proof.
intros Hu HT Hlo Hhi Hb Hm.
assert (q * u <= m1 * u) as H1 by (apply Z.mul_le_mono_nonneg_r; lia).
assert (m1 * u <= (q + 1) * u) as H2 by (apply Z.mul_le_mono_nonneg_r; lia).
assert ((V - u) * T <= m1 * u * T) as H3 by (apply Z.mul_le_mono_nonneg_r; lia).
assert (m1 * u * T <= (V + u) * T) as H4 by (apply Z.mul_le_mono_nonneg_r; lia).
lia.
Qed.

Lemma rel_err_exact V T : 0 <= V -> 0 < T -> V * (T - 1) <= V * T /\ V * T <= V * (T + 1).
Proof. intros HV HT. split; apply Z.mul_le_mono_nonneg_l; lia. Qed.

Lemma rel_err_compose V M R S :
0 <= V -> 0 < S ->
V * (2 * S - 1) <= M * (2 * S) -> M * (2 * S - 1) <= R * (2 * S) ->
V * (S - 1) <= R * S.
Proof.
intros HV HS H1 H2.
assert (V * (2 * S - 1) * (2 * S - 1) <= M * (2 * S) * (2 * S - 1)) as H3
  by (apply Z.mul_le_mono_nonneg_r; lia).
assert (M * (2 * S - 1) * (2 * S) <= R * (2 * S) * (2 * S)) as H4
  by (apply Z.mul_le_mono_nonneg_r; lia).
assert (0 <= V * S) as H5 by (apply Z.mul_nonneg_nonneg; lia).
assert (4 * S * (V * (S - 1)) <= 4 * S * (R * S)) as H6.
{ replace (4 * S * (V * (S - 1))) with (V * (2 * S - 1) * (2 * S - 1) - V) by ring.
  replace (4 * S * (R * S)) with (R * (2 * S) * (2 * S)) by ring.
  replace (M * (2 * S) * (2 * S - 1)) with (M * (2 * S - 1) * (2 * S)) in H3 by ring.
  lia. }
apply Z.mul_le_mono_pos_l in H6; lia.
Qed.

(** Rounding a positive mantissa: the result is finite, of the same sign, and
  within a relative error of [2^-51]. *)
Lemma binary_round_aux_bounds s m e :
-1074 <= e -> Zpos m * 2 ^ (e + 1074) < 2 ^ 2045 ->
exists m' e',
  binary_round_aux prec emax s (Zpos m) e loc_Exact = S754_finite s m' e' /\
  -1074 <= e' /\
  Zpos m * 2 ^ (e + 1074) * (2 ^ 51 - 1) <= Zpos m' * 2 ^ (e' + 1074) * 2 ^ 51 /\
  Zpos m' * 2 ^ (e' + 1074) * 2 ^ 51 <= Zpos m * 2 ^ (e + 1074) * (2 ^ 51 + 1).
Proof.
intros He Hov.
destruct (shr_fexp_pos m e loc_Exact He) as (mrs1 & e1 & Hs1 & He1 & Hq1 & Hex1).
unfold binary_round_aux. rewrite Hs1.
pose proof (shr_step m e e1 He He1) as (Hq & Hlo & Hhi & Hsh & Hsame).
rewrite <- Hq1 in Hq, Hlo, Hhi, Hsame.
pose proof (round_nearest_even_bounds (shr_m mrs1) (loc_of_shr_record mrs1)) as Hr.
assert (e1 = e -> round_nearest_even (shr_m mrs1) (loc_of_shr_record mrs1) = Zpos m) as Hrex.
{ intros Heq. rewrite (Hex1 Heq). reflexivity. }
destruct (round_nearest_even (shr_m mrs1) (loc_of_shr_record mrs1)) as [|p1|p1] eqn:Hm1;
  [lia| |lia].
assert (-1074 <= e1) as He1' by lia.
destruct (shr_fexp_pos p1 e1 loc_Exact He1') as (mrs2 & e2 & Hs2 & He2 & Hq2 & _).
rewrite Hs2.
pose proof (shr_step p1 e1 e2 He1' He2) as (Hq' & Hlo' & Hhi' & Hsh' & Hsame').
rewrite <- Hq2 in Hq', Hlo', Hhi', Hsame'.
destruct (shr_m mrs2) as [|p2|p2] eqn:Hm2; [lia| |lia].
set (V := Zpos m * 2 ^ (e + 1074)) in *.
set (u1 := 2 ^ (e1 + 1074)) in *.
set (u2 := 2 ^ (e2 + 1074)) in *.
assert (0 < u1) as Hu1 by (apply Z.pow_pos_nonneg; lia).
assert (0 < u2) as Hu2 by (apply Z.pow_pos_nonneg; lia).
assert (0 < V) as HV by (apply Z.mul_pos_pos; [lia|apply Z.pow_pos_nonneg; lia]).
assert (2 ^ 52 = 2 * 2 ^ 51) as HT by reflexivity.
assert (0 < 2 ^ 51) as HS by reflexivity.
generalize dependent (2 ^ 52). intros T Hsh Hsh' HT.
generalize dependent (2 ^ 51). intros S HS HT. subst T.
(* first shift and rounding *)
assert (V * (2 * S - 1) <= Zpos p1 * u1 * (2 * S) /\
        Zpos p1 * u1 * (2 * S) <= V * (2 * S + 1)) as [HM1lo HM1hi].
{ destruct (Z.eq_dec e1 e) as [Heq|Hne].
  - pose proof (Hrex Heq) as Hx. injection Hx as ->.
    unfold u1, V. rewrite Heq. apply rel_err_exact; lia.
  - apply (rel_err_step V (shr_m mrs1)); try lia. }
(* second shift *)
assert (Zpos p2 * u2 <= Zpos p1 * u1 /\
        Zpos p1 * u1 * (2 * S - 1) <= Zpos p2 * u2 * (2 * S)) as [HRhi HRlo].
{ split; [lia|].
  destruct (Z.eq_dec e2 e1) as [Heq|Hne].
  - pose proof (Hsame' Heq) as Hx. injection Hx as ->.
    unfold u2, u1. rewrite Heq. apply rel_err_exact; lia.
  - apply (rel_err_step (Zpos p1 * u1) (Z.pos p2) u2 (Z.pos p2)); try lia. }
assert (Zpos p1 * u1 <= 2 * V) as HM2.
{ assert (V <= V * S) as Hx.
  { replace V with (V * 1) at 1 by ring. apply Z.mul_le_mono_nonneg_l; lia. }
  assert (Zpos p1 * u1 * (2 * S) <= 2 * V * (2 * S)) as Hy by lia.
  apply Z.mul_le_mono_pos_r in Hy; lia. }
assert (e2 <= 971) as He2max.
{ assert (u2 <= Zpos p2 * u2) as Hu2R.
  { replace u2 with (1 * u2) at 1 by ring. apply Z.mul_le_mono_nonneg_r; lia. }
  assert (u2 < 2 ^ 2046) as Hlt.
  { replace (2 ^ 2046) with (2 * 2 ^ 2045) by reflexivity. lia. }
  unfold u2 in Hlt. apply Z.pow_lt_mono_r_iff in Hlt; lia. }
assert ((e2 <=? emax - prec) = true) as -> by (apply Z.leb_le; change (emax - prec) with 971; lia).
exists p2, e2. split; [reflexivity|]. split; [lia|].
fold u2. split.
- apply (rel_err_compose V (Zpos p1 * u1)); lia.
- assert (Zpos p2 * u2 * (2 * S) <= Zpos p1 * u1 * (2 * S)) as Hx
    by (apply Z.mul_le_mono_nonneg_r; lia).
  assert (Zpos p2 * u2 * S * 2 <= V * (S + 1) * 2); [|lia].
  assert (V <= V * 2) by lia. lia.
Qed.

Lemma pos_iter_xO m d : Zpos (Pos.iter xO m d) = Zpos m * 2 ^ Zpos d.
Proof.
induction d as [|d IH] using Pos.peano_ind.
- simpl. lia.
- rewrite Pos.iter_succ, Pos2Z.inj_xO, IH, Pos2Z.inj_succ, Z.pow_succ_r by lia. ring.
Qed.

Lemma shl_align_spec m e e' :
snd (shl_align m e e') = Z.min e e' /\
Zpos (fst (shl_align m e e')) = Zpos m * 2 ^ (e - Z.min e e').
Proof.
unfold shl_align. destruct (e' - e) as [|d|d] eqn:Hd; cbn [fst snd].
- rewrite Z.min_l by lia. replace (e - e) with 0 by lia. lia.
- rewrite Z.min_l by lia. replace (e - e) with 0 by lia. lia.
- rewrite Z.min_r by lia. rewrite pos_iter_xO. split; [done|]. do 2 f_equal. lia.
Qed.

Lemma binary_round_bounds s m e :
-1074 <= e -> Zpos m * 2 ^ (e + 1074) < 2 ^ 2045 ->
exists m' e',
  binary_round prec emax s m e = S754_finite s m' e' /\
  -1074 <= e' /\
  Zpos m * 2 ^ (e + 1074) * (2 ^ 51 - 1) <= Zpos m' * 2 ^ (e' + 1074) * 2 ^ 51 /\
  Zpos m' * 2 ^ (e' + 1074) * 2 ^ 51 <= Zpos m * 2 ^ (e + 1074) * (2 ^ 51 + 1).
Proof.
intros He Hov. unfold binary_round.
pose proof (shl_align_spec m e (fexp prec emax (Zpos (digits2_pos m) + e))) as [Hz Hm].
destruct (shl_align m e (fexp prec emax (Zpos (digits2_pos m) + e))) as [mz ez].
cbn [fst snd] in Hz, Hm. rewrite fexp_eq in Hz, Hm.
assert (-1074 <= ez /\ ez <= e) as [Hez1 Hez2] by lia.
assert (Zpos mz * 2 ^ (ez + 1074) = Zpos m * 2 ^ (e + 1074)) as Hval.
{ rewrite Hm, <- Hz, <- Z.mul_assoc, <- Z.pow_add_r by lia. do 2 f_equal. lia. }
rewrite <- Hval in *. by apply binary_round_aux_bounds.
Qed.

Lemma pow2_pos k : 0 <= k -> 0 < 2 ^ k.
Proof. intros. apply Z.pow_pos_nonneg; lia. Qed.

Lemma scale_split m a b : 0 <= a -> 0 <= b -> m * 2 ^ a * 2 ^ b = m * 2 ^ (a + b).
Proof. intros. rewrite Z.pow_add_r by done. ring. Qed.

(** The exact sum of two finite floats, rounded. *)
Lemma SFadd_bounds x y :
valid_binary x = true -> valid_binary y = true ->
is_fin x = true -> is_fin y = true ->
Z.abs (Zv x + Zv y) < 2 ^ 2045 ->
is_fin (SF64add x y) = true /\
Z.abs (Zv (SF64add x y) - (Zv x + Zv y)) * 2 ^ 51 <= Z.abs (Zv x + Zv y).
Proof.
intros Hvx Hvy Hfx Hfy Hov.
destruct x as [sx| | |sx mx ex], y as [sy| | |sy my ey]; try done.
- destruct sx, sy; (split; [done|]); cbn [SF64add SFadd Zv]; lia.
- split; [done|]. cbn [SF64add SFadd]. change (Zv (S754_zero sx)) with 0.
  replace (_ - _) with 0 by ring. rewrite Z.mul_0_l. apply Z.abs_nonneg.
- split; [done|]. cbn [SF64add SFadd]. change (Zv (S754_zero sy)) with 0.
  replace (_ - _) with 0 by ring. rewrite Z.mul_0_l. apply Z.abs_nonneg.
- apply valid_finite in Hvx as (Hex & _), Hvy as (Hey & _).
  unfold SF64add, SFadd.
  pose proof (shl_align_spec mx ex (Z.min ex ey)) as [_ Hax].
  pose proof (shl_align_spec my ey (Z.min ex ey)) as [_ Hay].
  rewrite (Z.min_r ex (Z.min ex ey)) in Hax by lia.
  rewrite (Z.min_r ey (Z.min ex ey)) in Hay by lia.
  set (ez := Z.min ex ey) in *.
  assert (ez <= ex /\ ez <= ey /\ -1074 <= ez) as (Hzx & Hzy & Hez) by (unfold ez; lia).
  set (a := cond_Zopp sx (Zpos (fst (shl_align mx ex ez)))).
  set (b := cond_Zopp sy (Zpos (fst (shl_align my ey ez)))).
  assert (a * 2 ^ (ez + 1074) = Zv (S754_finite sx mx ex)) as Ha.
  { unfold a. rewrite Hax. cbn [Zv].
    pose proof (scale_split (Zpos mx) (ex - ez) (ez + 1074) ltac:(lia) ltac:(lia)) as Hs.
    replace (ex - ez + (ez + 1074)) with (ex + 1074) in Hs by lia.
    destruct sx; cbn [cond_Zopp]; rewrite ?Z.mul_opp_l; by rewrite Hs. }
  assert (b * 2 ^ (ez + 1074) = Zv (S754_finite sy my ey)) as Hb.
  { unfold b. rewrite Hay. cbn [Zv].
    pose proof (scale_split (Zpos my) (ey - ez) (ez + 1074) ltac:(lia) ltac:(lia)) as Hs.
    replace (ey - ez + (ez + 1074)) with (ey + 1074) in Hs by lia.
    destruct sy; cbn [cond_Zopp]; rewrite ?Z.mul_opp_l; by rewrite Hs. }
  assert ((a + b) * 2 ^ (ez + 1074) = Zv (S754_finite sx mx ex) + Zv (S754_finite sy my ey))
    as Hsum by lia.
  rewrite <- Hsum in *. clear Ha Hb Hsum.
  pose proof (pow2_pos (ez + 1074) ltac:(lia)) as Hw.
  generalize dependent (a + b). intros S HS. unfold binary_normalize.
  destruct S as [|p|p].
  + simpl. lia.
  + rewrite Z.abs_eq in HS by lia.
    destruct (binary_round_bounds false p ez Hez HS) as (m' & e' & -> & He' & Hlo & Hhi).
    split; [done|]. cbn [Zv cond_Zopp].
    assert (0 <= Zpos p * 2 ^ (ez + 1074)) by lia.
    rewrite (Z.abs_eq (Zpos p * _)) by lia.
    apply Z.abs_case_strong; [intros ?? ->; done|..]; lia.
  + assert (Z.abs (Zneg p * 2 ^ (ez + 1074)) = Zpos p * 2 ^ (ez + 1074)) as Habs.
    { rewrite <- Pos2Z.opp_pos, Z.mul_opp_l, Z.abs_opp. apply Z.abs_eq. lia. }
    rewrite Habs in *.
    destruct (binary_round_bounds true p ez Hez HS) as (m' & e' & -> & He' & Hlo & Hhi).
    split; [done|]. cbn [Zv cond_Zopp].
    replace (Zneg p * 2 ^ (ez + 1074)) with (- (Zpos p * 2 ^ (ez + 1074))) by lia.
    apply Z.abs_case_strong; [intros ?? ->; done|..]; lia.
Qed.

Lemma SFsub_add_opp x y : SF64sub x y = SF64add x (SFopp y).
Proof.
destruct x as [sx|sx| |sx mx ex], y as [sy|sy| |sy my ey]; try done;
  by destruct sx, sy.
Qed.

Lemma Zv_opp x : Zv (SFopp x) = - Zv x.
Proof. destruct x as [| | |s m e]; try done. destruct s; cbn [SFopp Zv negb cond_Zopp]; lia. Qed.

Lemma is_fin_opp x : is_fin (SFopp x) = is_fin x.
Proof. by destruct x. Qed.

Lemma valid_opp x : valid_binary (SFopp x) = valid_binary x.
Proof. by destruct x. Qed.

(** Of two canonical mantissas, the one with the smaller exponent is the
  smaller number. *)
Lemma canonical_lt s1 m1 e1 s2 m2 e2 :
valid_binary (S754_finite s1 m1 e1) = true ->
valid_binary (S754_finite s2 m2 e2) = true ->
e1 < e2 -> Zpos m1 * 2 ^ (e1 + 1074) <= Zpos m2 * 2 ^ (e2 + 1074).
Proof.
intros (He1 & Hd1 & _)%valid_finite (He2 & _ & Hd2)%valid_finite Hlt.
pose proof (digits2_pos_bounds m1) as [_ Hhi].
pose proof (digits2_pos_bounds m2) as [Hlo _].
rewrite Hd2 in Hlo by lia. change (53 - 1) with 52 in Hlo.
assert (Zpos m1 < 2 ^ 53) as Hm1.
{ eapply Z.lt_le_trans; [exact Hhi|]. apply Z.pow_le_mono_r; lia. }
pose proof (pow2_pos (e1 + 1074) ltac:(lia)) as Hw1.
pose proof (pow2_pos (e2 + 1074) ltac:(lia)) as Hw2.
assert (2 ^ 53 * 2 ^ (e1 + 1074) <= 2 ^ 52 * 2 ^ (e2 + 1074)) as Hmid.
{ rewrite <- !Z.pow_add_r by lia. apply Z.pow_le_mono_r; lia. }
assert (Zpos m1 * 2 ^ (e1 + 1074) <= 2 ^ 53 * 2 ^ (e1 + 1074)) as H1
  by (apply Z.mul_le_mono_nonneg_r; lia).
assert (2 ^ 52 * 2 ^ (e2 + 1074) <= Zpos m2 * 2 ^ (e2 + 1074)) as H2
  by (apply Z.mul_le_mono_nonneg_r; lia).
lia.
Qed.

(** The order of finite floats is the order of their values. *)
Lemma SFleb_Zv x y :
valid_binary x = true -> valid_binary y = true ->
is_fin x = true -> is_fin y = true ->
SFleb x y = true -> Zv x <= Zv y.
Proof.
intros Hvx Hvy Hfx Hfy.
destruct x as [sx| | |sx mx ex], y as [sy| | |sy my ey]; try done.
- unfold SFleb, SFcompare. cbn [Zv].
  pose proof (Hvy) as (Hey & _)%valid_finite.
  pose proof (pow2_pos (ey + 1074) ltac:(lia)).
  destruct sy; [done|]. cbn [cond_Zopp]. lia.
- unfold SFleb, SFcompare. cbn [Zv].
  pose proof (Hvx) as (Hex & _)%valid_finite.
  pose proof (pow2_pos (ex + 1074) ltac:(lia)).
  destruct sx; [|done]. cbn [cond_Zopp]. lia.
- unfold SFleb, SFcompare. cbn [Zv].
  pose proof (Hvx) as (Hex & _)%valid_finite.
  pose proof (Hvy) as (Hey & _)%valid_finite.
  pose proof (pow2_pos (ex + 1074) ltac:(lia)).
  pose proof (pow2_pos (ey + 1074) ltac:(lia)).
  destruct sx, sy; cbn [cond_Zopp]; try done; try lia.
  + destruct (Z.compare_spec ex ey) as [->|Hlt|Hgt]; try done.
    * change (Pos.compare_cont Eq mx my) with (Pos.compare mx my).
      destruct (Pos.compare_spec mx my) as [->|Hm|Hm]; cbn [CompOpp]; try done; try lia.
      intros _. assert (Zpos my * 2 ^ (ey + 1074) <= Zpos mx * 2 ^ (ey + 1074));
        [apply Z.mul_le_mono_nonneg_r; lia|lia].
    * intros _. pose proof (canonical_lt _ _ _ _ _ _ Hvy Hvx Hgt). lia.
  + destruct (Z.compare_spec ex ey) as [->|Hlt|Hgt]; try done.
    * change (Pos.compare_cont Eq mx my) with (Pos.compare mx my).
      destruct (Pos.compare_spec mx my) as [->|Hm|Hm]; try done; try lia.
      intros _. apply Z.mul_le_mono_nonneg_r; lia.
    * intros _. by apply (canonical_lt false _ _ false).
Qed.

(** What a successful comparison says about its operands. *)
Lemma SFleb_fin_l x y : SFleb x y = true -> is_fin x = true -> y <> S754_nan /\ y <> S754_infinity true.
Proof. by destruct x as [| | |sx mx ex], y as [|[]| |]. Qed.

Lemma SFleb_fin_r x y : SFleb x y = true -> is_fin y = true -> x <> S754_nan /\ x <> S754_infinity false.
Proof. by destruct x as [|[]| |], y as [| | |sy my ey]. Qed.

Lemma between_fin l x h :
is_fin l = true -> is_fin h = true -> SFleb l x = true -> SFleb x h = true -> is_fin x = true.
Proof.
intros Hl Hh H1 H2.
destruct (SFleb_fin_l _ _ H1 Hl) as [Hn Hni], (SFleb_fin_r _ _ H2 Hh) as [_ Hpi].
by destruct x as [|[]| |].
Qed.

Lemma add_Fv x y :
finF x = true -> finF y = true -> Z.abs (Fv x + Fv y) < 2 ^ 2045 ->
finF (x + y) = true /\
Z.abs (Fv (x + y) - (Fv x + Fv y)) * 2 ^ 51 <= Z.abs (Fv x + Fv y).
Proof.
unfold finF, Fv. intros Hx Hy Hov. rewrite add_spec.
apply SFadd_bounds; auto using Prim2SF_valid.
Qed.

Lemma sub_Fv x y :
finF x = true -> finF y = true -> Z.abs (Fv x - Fv y) < 2 ^ 2045 ->
finF (x - y) = true /\
Z.abs (Fv (x - y) - (Fv x - Fv y)) * 2 ^ 51 <= Z.abs (Fv x - Fv y).
Proof.
unfold finF, Fv. intros Hx Hy Hov. rewrite sub_spec, SFsub_add_opp.
replace (Zv (Prim2SF x) - Zv (Prim2SF y)) with (Zv (Prim2SF x) + Zv (SFopp (Prim2SF y))) in *
  by (rewrite Zv_opp; lia).
apply SFadd_bounds; rewrite ?valid_opp, ?is_fin_opp; auto using Prim2SF_valid.
Qed.

Lemma leb_Fv x y :
finF x = true -> finF y = true -> (x <=? y)%float = true -> Fv x <= Fv y.
Proof.
unfold finF, Fv. intros Hx Hy. rewrite leb_spec.
apply SFleb_Zv; auto using Prim2SF_valid.
Qed.

Lemma SFeqb_refl_nan X : SFeqb X X = false -> X = S754_nan.
Proof.
destruct X as [|[]| |[] m e]; try done; unfold SFeqb, SFcompare;
  change (Pos.compare_cont Eq m m) with (Pos.compare m m);
  destruct (Z.compare_spec e e); try lia;
  destruct (Pos.compare_spec m m); try lia; done.
Qed.

Lemma is_nan_spec x : is_nan x = true -> Prim2SF x = S754_nan.
Proof.
unfold is_nan. rewrite FloatAxioms.eqb_spec. intros Hn%negb_true_iff. by apply SFeqb_refl_nan.
Qed.

Lemma scanTurns_mono n : forall n' t hi k,
scanTurns n t hi = Some k -> (n <= n')%nat -> scanTurns n' t hi = Some k.
Proof.
induction n as [|n IH]; intros n' t hi k Hk Hle; [done|].
destruct n' as [|n']; [lia|]. cbn [scanTurns] in *.
destruct (t <=? hi)%float; [|done].
destruct (scanTurns n (t + 0.05) hi) as [j|] eqn:Hj; [|done].
rewrite (IH n' _ _ j Hj) by lia. done.
Qed.

Lemma step_facts :
finF 0.05 = true /\ 49 * unitZ <= 1000 * Fv 0.05 /\ 10 * Fv 0.05 <= unitZ.
Proof. repeat split; try (apply Z.leb_le); try (apply Z.ltb_lt); vm_compute; reflexivity. Qed.

Lemma pi_facts :
finF JS.Math_PI = true /\ finF (- JS.Math_PI) = true /\
Fv (- JS.Math_PI) = - Fv JS.Math_PI /\
3 * unitZ <= Fv JS.Math_PI /\ 100 * Fv JS.Math_PI <= 315 * unitZ.
Proof. repeat split; try (apply Z.leb_le); try (apply Z.ltb_lt); vm_compute; reflexivity. Qed.

Lemma err_facts : errZ * 2 ^ 51 = 16 * unitZ /\ 0 < errZ /\ 1000000 * errZ <= unitZ.
Proof. repeat split; try (apply Z.leb_le); try (apply Z.ltb_lt); vm_compute; reflexivity. Qed.

Lemma unit_facts : 0 < unitZ /\ 16 * unitZ < 2 ^ 2045.
Proof. repeat split; try (apply Z.leb_le); try (apply Z.ltb_lt); vm_compute; reflexivity. Qed.

(** A sum of magnitude at most 16 is off by at most [errZ]. *)
Lemma add_Fv_small x y :
finF x = true -> finF y = true -> Z.abs (Fv x + Fv y) <= 16 * unitZ ->
finF (x + y) = true /\ Z.abs (Fv (x + y) - (Fv x + Fv y)) <= errZ.
Proof.
intros Hx Hy Hs. destruct unit_facts as [HU Hov], err_facts as (He & _ & _).
destruct (add_Fv x y Hx Hy) as [Hf Hb]; [lia|]. split; [done|].
assert (Z.abs (Fv (x + y) - (Fv x + Fv y)) * 2 ^ 51 <= errZ * 2 ^ 51) as Hc by lia.
apply Z.mul_le_mono_pos_r in Hc; [done|reflexivity].
Qed.

Lemma sub_Fv_small x y :
finF x = true -> finF y = true -> Z.abs (Fv x - Fv y) <= 16 * unitZ ->
finF (x - y) = true /\ Z.abs (Fv (x - y) - (Fv x - Fv y)) <= errZ.
Proof.
intros Hx Hy Hs. destruct unit_facts as [HU Hov], err_facts as (He & _ & _).
destruct (sub_Fv x y Hx Hy) as [Hf Hb]; [lia|]. split; [done|].
assert (Z.abs (Fv (x - y) - (Fv x - Fv y)) * 2 ^ 51 <= errZ * 2 ^ 51) as Hc by lia.
apply Z.mul_le_mono_pos_r in Hc; [done|reflexivity].
Qed.

(** Each turn of a scan advances the sample point by at least
  [Fv 0.05 - errZ]: the scan leaves within [n] turns when the distance to the
  bound is below [n] such advances. *)
Lemma scan_progress (hi : float) :
finF hi = true -> Z.abs (Fv hi) <= 8 * unitZ ->
forall (n : nat) (t : float),
  finF t = true -> - (8 * unitZ) <= Fv t ->
  Fv hi - Fv t < Z.of_nat n * (Fv 0.05 - errZ) ->
  exists k, (k <= n)%nat /\ scanTurns (S n) t hi = Some k.
Proof.
intros Hfh Hh.
destruct unit_facts as [HU _], err_facts as (_ & He0 & He), step_facts as (Hfc & Hc1 & Hc2).
induction n as [|n IH]; intros t Hft Hlo Hd; cbn [scanTurns].
- destruct (t <=? hi)%float eqn:Hle; [|by exists 0%nat].
  apply leb_Fv in Hle; [lia|done|done].
- destruct (t <=? hi)%float eqn:Hle; [|exists 0%nat; split; [lia|done]].
  apply leb_Fv in Hle; [|done|done].
  destruct (add_Fv_small t 0.05 Hft Hfc) as [Hft' Herr]; [lia|].
  destruct (IH (t + 0.05)%float Hft') as (k & Hk & Hturns); [lia|lia|].
  exists (S k). split; [lia|]. cbn [scanTurns] in Hturns. by rewrite Hturns.
Qed.

Lemma polar_scan_bound (mt : float) :
is_nan mt = true \/
((- JS.Math_PI <=? mt)%float = true /\ (mt <=? JS.Math_PI)%float = true) ->
exists k, (k < 256)%nat /\
  scanTurns 256 (mt - JS.Math_PI)%float (mt + JS.Math_PI)%float = Some k.
Proof.
intros [Hnan|[Hlo Hhi]].
- exists 0%nat. split; [lia|]. cbn [scanTurns].
  rewrite leb_spec, sub_spec, (is_nan_spec _ Hnan). reflexivity.
- destruct unit_facts as [HU _], err_facts as (_ & He0 & He),
    step_facts as (Hfc & Hc1 & Hc2), pi_facts as (Hfp & Hfn & Hnp & Hp1 & Hp2).
  assert (finF mt = true) as Hfm.
  { unfold finF in *. rewrite leb_spec in Hlo, Hhi.
    by apply (between_fin (Prim2SF (- JS.Math_PI)) _ (Prim2SF JS.Math_PI)). }
  pose proof (leb_Fv _ _ Hfn Hfm Hlo) as Hl. rewrite Hnp in Hl.
  pose proof (leb_Fv _ _ Hfm Hfp Hhi) as Hh.
  destruct (sub_Fv_small mt JS.Math_PI Hfm Hfp) as [Hf0 He0']; [lia|].
  destruct (add_Fv_small mt JS.Math_PI Hfm Hfp) as [Hf1 He1']; [lia|].
  destruct (scan_progress (mt + JS.Math_PI)%float Hf1 ltac:(lia) 200 (mt - JS.Math_PI)%float Hf0)
    as (k & Hk & Hturns); [lia|lia|].
  exists k. split; [lia|]. eapply scanTurns_mono; [exact Hturns|lia].
Qed.

End FloatFacts.

(** With an [atan2] in range, the scan of [analyzePolar] leaves within the
    budget. *)
Lemma polarScan_turns (H : MathHost) :
atan2_in_range H ->
forall y x : float,
  exists k, (k < enoughFuel)%nat /\
    scanTurns enoughFuel (Math_atan2 H y x - JS.Math_PI) (Math_atan2 H y x + JS.Math_PI) = Some k.
Proof. intros Hhost y x. apply polar_scan_bound, Hhost. Qed.


(* ===================================================================== *)
(** * What a step leaves of the marble, and the trail loop                 *)
(* ===================================================================== *)

Section BodyKept.

Variable H : MathHost.
Variable this : PhysicsEngine.

Lemma updateOnPath_frame marble info dt :
sameBody marble (updateOnPath this marble info dt) /\
trail (updateOnPath this marble info dt) = trail marble.
Proof.
unfold updateOnPath, sameBody.
destruct (_ && _); cbn [fst snd]; destruct (0.01 <? _); done.
Qed.

Lemma updateInAir_frame marble dt :
sameBody marble (updateInAir this marble dt) /\
trail (updateInAir this marble dt) = trail marble.
Proof. unfold updateInAir, sameBody. by destruct (0 <? _). Qed.

Lemma updatePathState_frame marble scaledDt pathInfo :
sameBody marble (fst (fst (updatePathState H this marble scaledDt pathInfo))) /\
trail (fst (fst (updatePathState H this marble scaledDt pathInfo))) = trail marble.
Proof.
assert (forall d : bool,
          sameBody marble (fst (fst (updateInAir this (set_path marble false None) scaledDt,
                                     false, d))) /\
          trail (fst (fst (updateInAir this (set_path marble false None) scaledDt, false, d)))
            = trail marble) as Hfree.
{ intros d. cbn [fst]. apply (updateInAir_frame (set_path marble false None) scaledDt). }
unfold updatePathState. destruct pathInfo as [info|]; [|apply Hfree].
destruct (distance info <? snapDistance this); [|apply Hfree].
destruct (shouldAttachToPath marble info); [|apply Hfree].
pose proof (updateOnPath_frame (set_path marble true (Some (equation info))) info scaledDt)
  as [Hb Ht].
destruct (shouldDetachFromPath H this _ info); cbn [fst]; split; done.
Qed.

Lemma clampMinVelocity_frame marble :
sameBody marble (clampMinVelocity this marble) /\
trail (clampMinVelocity this marble) = trail marble.
Proof.
unfold clampMinVelocity, sameBody.
destruct (_ <? minVelocity this); [destruct (0 <? _)|]; done.
Qed.

Lemma afterMove_frame marble scaledDt pathInfo :
sameBody marble (afterMove H this marble scaledDt pathInfo) /\
trail (afterMove H this marble scaledDt pathInfo) = trail marble.
Proof.
unfold afterMove, integratePosition.
destruct (updatePathState_frame marble scaledDt pathInfo) as [Hb Ht]. done.
Qed.

End BodyKept.

(** The trail loop ends when the capacity is not negative: an empty trail is
    never longer than such a capacity.  The budget covers one turn for each
    entry and the last test. *)
Lemma shiftWhileLonger_ends cap l : forall fuel,
(cap <? 0) = false -> (length l < fuel)%nat ->
shiftWhileLonger fuel cap l = Ret (trimmed cap l).
Proof.
unfold shiftWhileLonger.
induction l as [|p rest IH]; intros [|fuel] Hcap Hfuel; cbn [length] in Hfuel; try lia.
- cbn [loop trimmed]. unfold shiftBody. cbn [length]. change (JS.ofLength 0) with 0.
  by rewrite Hcap.
- cbn [loop trimmed]. unfold shiftBody.
  destruct (cap <? JS.ofLength (length (p :: rest))); cbn [bind tail]; [|done].
  apply IH; [done|lia].
Qed.

Lemma updateTrail_ends fuel marble :
(maxTrailLength marble <? 0) = false -> (length (trail marble) + 2 <= fuel)%nat ->
updateTrail fuel marble = Ret (trailUpdated marble).
Proof.
intros Hcap Hfuel. unfold updateTrail, trailUpdated.
rewrite shiftWhileLonger_ends; [done|done|]. rewrite length_app. cbn [length]. lia.
Qed.

(** Once the nearest path is found, [update] returns when the trail loop
    ends, and its value is the remainder of the step applied to that path. *)
Lemma update_finish (H : MathHost) (this : PhysicsEngine) (fuel : nat) (marble : Marble)
  (dt : float) (equations : list Equation) (store : list Star) (stars : list nat)
  (pathInfo : option PathInfo) :
findNearestPath H this fuel marble equations = Ret pathInfo ->
(length (trail marble) + 2 <= fuel)%nat -> (maxTrailLength marble <? 0) = false ->
update H this fuel marble dt equations store stars =
  Ret (finishUpdate H this marble (dt * timeScale this) pathInfo store stars).
Proof.
intros Hp Htrail Hcap. unfold update, finishUpdate. rewrite Hp. cbn [bind].
pose proof (afterMove_frame H this marble (dt * timeScale this) pathInfo)
  as [(_ & Hc & _) Ht].
unfold afterMove in Hc, Ht.
destruct (updatePathState H this marble (dt * timeScale this) pathInfo)
  as [[marble1 attached] detached]. cbn [fst] in Hc, Ht.
destruct (collectStars (integratePosition marble1 (dt * timeScale this)) store stars [])
  as [store' collected].
rewrite updateTrail_ends; [done| |]; by rewrite ?Hc, ?Ht.
Qed.

(* ===================================================================== *)
(** * Every step returns                                                   *)
(* ===================================================================== *)

Section Totality.

Variable H : MathHost.
Variable this : PhysicsEngine.
Hypothesis Hhost : atan2_in_range H.
Variable fuel : nat.
Hypothesis Hfuel : (enoughFuel <= fuel)%nat.

Lemma analyzeExplicitY_returns pos eq f : returns (analyzeExplicitY H this fuel pos eq f).
Proof.
unfold analyzeExplicitY.
destruct (findClosestXOnCurve_returns fuel pos f (Vector2D.x pos - 3) (Vector2D.x pos + 3))
  as [cx ->]; [unfold enoughFuel in Hfuel; lia|].
cbn [bind]. apply returns_try_catch; [|by eexists].
destruct (f cx) as [v|]; cbn [call bind]; [|done].
destruct (negb (JS.isFinite v)); [done|].
destruct (calculateDerivative_returns this f cx None) as [d ->]. cbn [bind].
destruct (calculateSecondDerivative_returns this f cx None) as [sd ->]. done.
Qed.

Lemma analyzeExplicitX_returns pos eq f : returns (analyzeExplicitX H this fuel pos eq f).
Proof.
unfold analyzeExplicitX.
destruct (findClosestYOnCurve_returns fuel pos f (Vector2D.y pos - 3) (Vector2D.y pos + 3))
  as [cy ->]; [unfold enoughFuel in Hfuel; lia|].
cbn [bind]. apply returns_try_catch; [|by eexists].
destruct (f cy) as [v|]; cbn [call bind]; [|done].
destruct (negb (JS.isFinite v)); [done|].
unfold calculateDerivativeX, calculateSecondDerivativeX.
destruct (calculateDerivative_returns this f cy None) as [d ->]. cbn [bind].
destruct (calculateSecondDerivative_returns this f cy None) as [sd ->]. done.
Qed.

Lemma analyzeImplicit_returns pos eq f : returns (analyzeImplicit H this fuel pos eq f).
Proof.
unfold analyzeImplicit.
destruct (findClosestPointImplicit_returns this fuel pos f) as [cp ->];
  [unfold enoughFuel in Hfuel; lia|].
cbn [bind].
destruct (calculateGradient_returns this f (Vector2D.x cp) (Vector2D.y cp) None) as [g ->].
cbn [bind].
destruct (calculateImplicitCurvature_returns H this f (Vector2D.x cp) (Vector2D.y cp))
  as [k ->].
by eexists.
Qed.

Lemma analyzePolar_returns pos eq f : returns (analyzePolar H fuel pos eq f).
Proof.
unfold analyzePolar.
destruct (polarScan_turns H Hhost (Vector2D.y pos) (Vector2D.x pos)) as (k & Hk & Hturns).
destruct (polarScan_returns H pos f _ _ _ infinity
            (Math_atan2 H (Vector2D.y pos) (Vector2D.x pos)) k Hturns fuel)
  as [[md ct] ->]; [lia|].
cbn [bind]. apply returns_try_catch; [|by eexists].
destruct (f ct); cbn [call bind]; [|done].
destruct (f (ct + 0.01)); cbn [call bind]; [|done].
destruct (f (ct - 0.01)); cbn [call bind]; done.
Qed.

Lemma analyzeParametric_returns pos eq fx fy :
returns (analyzeParametric fuel pos eq fx fy).
Proof.
unfold analyzeParametric.
destruct (parametricScan_returns pos fx fy _ _ infinity 0 _ parametricScan_turns fuel)
  as [[md ct] ->]; [unfold enoughFuel in Hfuel; lia|].
cbn [bind]. apply returns_try_catch; [|by eexists].
destruct (fx ct); cbn [call bind]; [|done].
destruct (fy ct); cbn [call bind]; [|done].
destruct (fx (ct + 0.01)); cbn [call bind]; [|done].
destruct (fx (ct - 0.01)); cbn [call bind]; [|done].
destruct (fy (ct + 0.01)); cbn [call bind]; [|done].
destruct (fy (ct - 0.01)); cbn [call bind]; done.
Qed.

Lemma analyzePathAtPoint_returns marble eq :
returns (analyzePathAtPoint H this fuel marble eq).
Proof.
destruct eq; cbn [analyzePathAtPoint];
  auto using analyzeExplicitY_returns, analyzeExplicitX_returns, analyzeImplicit_returns,
    analyzePolar_returns, analyzeParametric_returns, returns_Ret.
Qed.

Lemma nearestLoop_returns marble equations :
forall nearest minDistance,
  returns (nearestLoop H this fuel marble equations nearest minDistance).
Proof.
induction equations as [|eq rest IH]; intros nearest minDistance; cbn [nearestLoop].
- by eexists.
- destruct (is_inequality eq); [apply IH|].
  destruct (analyzePathAtPoint_returns marble eq) as [[i|] ->]; cbn [bind]; [|apply IH].
  destruct (distance i <? minDistance); apply IH.
Qed.

Lemma findNearestPath_returns marble equations :
returns (findNearestPath H this fuel marble equations).
Proof. apply nearestLoop_returns. Qed.

(** When the capacity of the trail is not negative [update] returns, and its
    value is the remainder of the step applied to the nearest path found. *)
Lemma update_returns marble dt equations store stars :
(length (trail marble) + 2 <= fuel)%nat -> (maxTrailLength marble <? 0) = false ->
exists pathInfo,
  findNearestPath H this fuel marble equations = Ret pathInfo /\
  update H this fuel marble dt equations store stars =
    Ret (finishUpdate H this marble (dt * timeScale this) pathInfo store stars).
Proof.
intros Htrail Hcap.
destruct (findNearestPath_returns marble equations) as [pathInfo Hp].
exists pathInfo. split; [done|]. by apply update_finish.
Qed.

End Totality.

(* ===================================================================== *)
(** * Binary64 arithmetic: zeros, signs and non-finite values             *)
(* ===================================================================== *)

Lemma isFinite_finF x : JS.isFinite x = finF x.
Proof.
unfold JS.isFinite, finF. rewrite ltb_spec, abs_spec.
by destruct (Prim2SF x) as [| | |[] m e].
Qed.

Lemma eqb_zero_spec x : (x =? 0) = true -> exists s, Prim2SF x = S754_zero s.
Proof.
rewrite FloatAxioms.eqb_spec. destruct (Prim2SF x) as [s|[]| |[] m e]; try done.
intros _. by exists s.
Qed.

(** A falsy number is a zero or NaN. *)
Lemma falsy_spec x :
JS.truthy x = false -> (exists s, Prim2SF x = S754_zero s) \/ Prim2SF x = S754_nan.
Proof.
unfold JS.truthy. intros [Hz|Hn]%andb_false_iff.
- left. apply eqb_zero_spec. by apply negb_false_iff.
- right. apply is_nan_spec. by apply negb_false_iff.
Qed.

(** Rounding keeps the sign it is given. *)
Lemma binary_round_aux_sign s m e l :
match binary_round_aux prec emax s m e l with
| S754_zero s' | S754_infinity s' | S754_finite s' _ _ => s' = s
| S754_nan => True
end.
Proof.
unfold binary_round_aux.
destruct (shr_fexp prec emax m e l) as [mrs e'].
destruct (shr_fexp prec emax _ e' loc_Exact) as [mrs2 e2].
destruct (shr_m mrs2); [done| |done]. by destruct (e2 <=? emax - prec)%Z.
Qed.

Lemma SFmul_comm x y : SF64mul x y = SF64mul y x.
Proof.
destruct x as [sx|sx| |sx mx ex], y as [sy|sy| |sy my ey]; cbn [SF64mul SFmul];
  rewrite ?(xorb_comm sx sy); try done.
by rewrite Pos.mul_comm, Z.add_comm.
Qed.

Lemma float_mul_comm (x y : float) : x * y = y * x.
Proof. apply Prim2SF_inj. by rewrite !mul_spec, SFmul_comm. Qed.

(** A product with a non-negative factor [2] is never below a zero, and
    nothing is below NaN. *)
Lemma ltb_abs_double_zero z t c :
JS.truthy c = false -> (2 * abs z <? t * abs c) = false.
Proof.
intros Hc. rewrite ltb_spec, !mul_spec, !abs_spec.
change (Prim2SF 2) with (S754_finite false 4503599627370496 (-51)).
assert (match SF64mul (Prim2SF t) (SFabs (Prim2SF c)) with
        | S754_zero _ | S754_nan => True
        | _ => False
        end) as Hr.
{ destruct (falsy_spec c Hc) as [[s ->]| ->]; by destruct (Prim2SF t). }
assert (match SF64mul (S754_finite false 4503599627370496 (-51)) (SFabs (Prim2SF z)) with
        | S754_zero s | S754_infinity s | S754_finite s _ _ => s = false
        | S754_nan => True
        end) as Hl.
{ destruct (Prim2SF z) as [sz|sz| |sz mz ez]; try done.
  apply binary_round_aux_sign. }
destruct (SF64mul (Prim2SF t) _) as [s'| | |]; try done;
  destruct (SF64mul (S754_finite false _ _) _) as [s1|s1| |s1 m1 e1]; try done;
  by subst.
Qed.

(** ** Products and sums with a zero *)

Lemma mul_zero_r a z :
finF a = true -> is_zero_sf (Prim2SF z) = true -> is_zero_sf (Prim2SF (a * z)) = true.
Proof.
unfold finF. rewrite mul_spec.
by destruct (Prim2SF a) as [| | |], (Prim2SF z) as [| | |].
Qed.

Lemma mul_zero_l a z :
finF a = true -> is_zero_sf (Prim2SF z) = true -> is_zero_sf (Prim2SF (z * a)) = true.
Proof. rewrite float_mul_comm. apply mul_zero_r. Qed.

(** Adding a zero to a finite number gives a number equal to it. *)
Lemma add_zero_r a z :
finF a = true -> is_zero_sf (Prim2SF z) = true ->
finF (a + z) = true /\ (a + z =? a) = true.
Proof.
unfold finF. rewrite FloatAxioms.eqb_spec, add_spec.
destruct (Prim2SF a) as [sa| | |sa ma ea], (Prim2SF z) as [sz| | |]; try done; intros _ _.
- by destruct sa, sz.
- split; [done|]. cbn [SF64add SFadd]. unfold SFeqb, SFcompare.
  change (Pos.compare_cont Eq ma ma) with (Pos.compare ma ma).
  destruct (Z.compare_spec ea ea); try lia.
  destruct (Pos.compare_spec ma ma); try lia. by destruct sa.
Qed.

(* ===================================================================== *)
(** * Binary64 arithmetic: exact operations                                *)
(* ===================================================================== *)

Section FloatExact.

#[local] Open Scope Z_scope.

Lemma digits2_pos_iter_xO m p :
Zpos (digits2_pos (Pos.iter xO m p)) = Zpos (digits2_pos m) + Zpos p.
Proof.
induction p as [|p IH] using Pos.peano_ind.
- cbn. lia.
- rewrite Pos.iter_succ. cbn [digits2_pos]. lia.
Qed.

(** Shifting out zeros is exact. *)
Lemma iter_pos_shr_1_exact p : forall m,
SpecFloat.iter_pos shr_1 p (Build_shr_record (Zpos (Pos.iter xO m p)) false false) =
Build_shr_record (Zpos m) false false.
Proof.
induction p as [p IH|p IH|]; intros m; cbn [SpecFloat.iter_pos Pos.iter shr_1 orb].
- by rewrite !IH.
- by rewrite !IH.
- done.
Qed.

(** Rounding a number that a canonical mantissa represents returns that
  mantissa (or overflows). *)
Lemma binary_round_aux_exact s m e mx ex :
canonical_mantissa prec emax m e = true ->
(mx = m /\ ex = e) \/ (exists p, mx = Pos.iter xO m p /\ ex = e - Zpos p) ->
binary_round_aux prec emax s (Zpos mx) ex loc_Exact =
  if e <=? 971 then S754_finite s m e else S754_infinity s.
Proof.
unfold canonical_mantissa. intros Hc%Z.eqb_eq Hrep.
assert (shr_fexp prec emax (Zpos mx) ex loc_Exact =
        (Build_shr_record (Zpos m) false false, e)) as Hs1.
{ unfold shr_fexp, shr. cbn [Zdigits2 shr_record_of_loc].
  destruct Hrep as [[-> ->]|(p & -> & ->)].
  - rewrite Hc. by replace (e - e) with 0 by lia.
  - rewrite digits2_pos_iter_xO.
    replace (Zpos (digits2_pos m) + Zpos p + (e - Zpos p)) with (Zpos (digits2_pos m) + e)
      by lia.
    rewrite Hc. replace (e - (e - Zpos p)) with (Zpos p) by lia.
    rewrite iter_pos_shr_1_exact. f_equal. lia. }
unfold binary_round_aux. rewrite Hs1. cbn [shr_m loc_of_shr_record round_nearest_even].
unfold shr_fexp, shr. cbn [Zdigits2 shr_record_of_loc]. rewrite Hc.
replace (e - e) with 0 by lia. cbn [shr_m]. reflexivity.
Qed.

Lemma SFmul_two s m e :
valid_binary (S754_finite s m e) = true ->
SF64mul SFtwo (S754_finite s m e) =
  if Zpos (digits2_pos m) =? 53
  then (if e + 1 <=? 971 then S754_finite s m (e + 1) else S754_infinity s)
  else S754_finite s (xO m) e.
Proof.
intros (He & Hd & Hn)%valid_finite.
unfold SF64mul, SFmul, SFtwo. cbn [xorb].
change (Pos.mul 4503599627370496 m) with (Pos.iter xO m 52).
destruct (Z.eqb_spec (Zpos (digits2_pos m)) 53) as [Hd53|Hd53].
- apply binary_round_aux_exact.
  + unfold canonical_mantissa. rewrite fexp_eq. apply Z.eqb_eq. lia.
  + right. exists 52%positive. split; [done|lia].
- assert (e = -1074) as -> by lia.
  change (Pos.iter xO m 52) with (Pos.iter xO (xO m) 51).
  rewrite (binary_round_aux_exact s (xO m) (-1074)); [done| |].
  + unfold canonical_mantissa. rewrite fexp_eq. apply Z.eqb_eq.
    cbn [digits2_pos]. lia.
  + right. exists 51%positive. split; [done|lia].
Qed.

Lemma binary_round_canonical s m e :
valid_binary (S754_finite s m e) = true ->
binary_round prec emax s m e = S754_finite s m e.
Proof.
intros Hv. pose proof Hv as (He & Hd & Hn)%valid_finite.
unfold binary_round, shl_align. rewrite fexp_eq.
replace (Z.max (Zpos (digits2_pos m) + e - 53) (-1074) - e) with 0 by lia.
rewrite (binary_round_aux_exact s m e); [|by apply andb_true_iff in Hv as [? _]|by left].
by replace (e <=? 971) with true by (symmetry; apply Z.leb_le; lia).
Qed.

(** [c - 2c + c] is exactly [+0] whenever [2c] does not overflow. *)
Lemma SF_second_difference C :
valid_binary C = true -> is_fin C = true -> is_fin (SF64mul SFtwo C) = true ->
SF64add (SF64sub C (SF64mul SFtwo C)) C = S754_zero false.
Proof.
intros Hv Hf Hf2. destruct C as [s| | |s m e]; try done.
- by destruct s.
- rewrite (SFmul_two s m e Hv) in *.
  pose proof Hv as (He & Hd & Hn)%valid_finite.
  assert (SF64sub (S754_finite s m e)
            (if Zpos (digits2_pos m) =? 53
             then if e + 1 <=? 971 then S754_finite s m (e + 1) else S754_infinity s
             else S754_finite s (xO m) e) = S754_finite (negb s) m e) as ->.
  { assert (valid_binary (S754_finite (negb s) m e) = true) as Hv' by done.
    destruct (Zpos (digits2_pos m) =? 53).
    - destruct (e + 1 <=? 971); [|done].
      unfold SF64sub, SFsub, shl_align. rewrite Z.min_l by lia.
      replace (e - e) with 0 by lia. replace (e - (e + 1)) with (-1) by lia.
      cbn [fst Pos.iter].
      replace (cond_Zopp s (Zpos m) - cond_Zopp s (Zpos (xO m)))
        with (cond_Zopp (negb s) (Zpos m)) by (destruct s; cbn [cond_Zopp negb]; lia).
      destruct s; cbn [negb cond_Zopp binary_normalize]; by apply binary_round_canonical.
    - unfold SF64sub, SFsub, shl_align. rewrite Z.min_l by lia.
      replace (e - e) with 0 by lia. cbn [fst].
      replace (cond_Zopp s (Zpos m) - cond_Zopp s (Zpos (xO m)))
        with (cond_Zopp (negb s) (Zpos m)) by (destruct s; cbn [cond_Zopp negb]; lia).
      destruct s; cbn [negb cond_Zopp binary_normalize]; by apply binary_round_canonical. }
  unfold SF64add, SFadd, shl_align. rewrite Z.min_l by lia.
  replace (e - e) with 0 by lia. cbn [fst].
  replace (cond_Zopp (negb s) (Zpos m) + cond_Zopp s (Zpos m)) with 0
    by (destruct s; cbn [cond_Zopp negb]; lia).
  done.
Qed.

(** [c - c] is exactly [+0]. *)
Lemma SF_sub_diag C : is_fin C = true -> SF64sub C C = S754_zero false.
Proof.
destruct C as [[]| | |s m e]; try done. intros _.
unfold SF64sub, SFsub. by rewrite Z.sub_diag.
Qed.

(** [+0] divided by a positive number is [+0]. *)
Lemma SF_zero_div D :
SFltb (S754_zero false) D = true -> SF64div (S754_zero false) D = S754_zero false.
Proof. by destruct D as [|[]| |[] m e]. Qed.

End FloatExact.

Lemma float_sub_diag c : finF c = true -> c - c = 0.
Proof.
intros Hc. apply Prim2SF_inj. rewrite sub_spec. by apply SF_sub_diag.
Qed.

Lemma float_second_difference c :
finF c = true -> finF (2 * c) = true -> c - 2 * c + c = 0.
Proof.
unfold finF. rewrite mul_spec. intros Hc H2.
apply Prim2SF_inj. rewrite add_spec, sub_spec, mul_spec.
by apply SF_second_difference; [apply Prim2SF_valid|..].
Qed.

Lemma float_zero_div d : (0 <? d) = true -> 0 / d = 0.
Proof.
rewrite ltb_spec. intros Hd. apply Prim2SF_inj. rewrite div_spec. by apply SF_zero_div.
Qed.

(* ===================================================================== *)
(** * The attachment policy                                                *)
(* ===================================================================== *)

(** C1. [shouldAttachToPath] answers true exactly when the tangential speed
    exceeds half the normal speed, or the reported distance is below 0.1, or
    the velocity has a positive component toward the closest point; otherwise
    it answers false. *)
Theorem shouldAttachToPath_iff (marble : Marble) (pathInfo : PathInfo) :
(shouldAttachToPath marble pathInfo = true <->
   (normalSpeed marble pathInfo * 0.5 <? tangentialSpeed marble pathInfo) = true \/
   (distance pathInfo <? 0.1) = true \/
   (0 <? approachSpeed marble pathInfo) = true) /\
(shouldAttachToPath marble pathInfo = false <->
   (normalSpeed marble pathInfo * 0.5 <? tangentialSpeed marble pathInfo) = false /\
   (distance pathInfo <? 0.1) = false /\
   (0 <? approachSpeed marble pathInfo) = false).
Proof.
unfold shouldAttachToPath, approachSpeed, towardPath, normalSpeed, tangentialSpeed.
destruct (_ * 0.5 <? _), (distance pathInfo <? 0.1), (0 <? _); cbn [orb]; intuition congruence.
Qed.

(** C2. [shouldDetachFromPath] answers true exactly when the slope angle
    exceeds [maxSlopeAngle] while the speed is below [detachThreshold], or when
    [speed^2 * |curvature|] exceeds [2 * |gravity * cos(slopeAngle)|]; otherwise
    it answers false. *)
Theorem shouldDetachFromPath_iff (H : MathHost) (this : PhysicsEngine)
  (marble : Marble) (pathInfo : PathInfo) :
let speed := Vector2D.magnitude (velocity marble) in
(maxSlopeAngle PhysicsEngine_default = JS.Math_PI / 3 /\
 detachThreshold PhysicsEngine_default = 0.3) /\
(shouldDetachFromPath H this marble pathInfo = true <->
   ((maxSlopeAngle this <? slopeAngle H pathInfo) = true /\
    (speed <? detachThreshold this) = true) \/
   (2 * abs (gravity this * Math_cos H (slopeAngle H pathInfo))
      <? speed * speed * abs (curvature pathInfo)) = true).
Proof.
cbv zeta. split; [done|]. unfold shouldDetachFromPath. fold (slopeAngle H pathInfo).
set (speed := Vector2D.magnitude (velocity marble)).
set (force := abs (gravity this * Math_cos H (slopeAngle H pathInfo))).
rewrite (float_mul_comm 2 force).
destruct ((maxSlopeAngle this <? slopeAngle H pathInfo) && (speed <? detachThreshold this))
  eqn:Hsteep.
- apply andb_true_iff in Hsteep. tauto.
- assert (~ ((maxSlopeAngle this <? slopeAngle H pathInfo) = true /\
             (speed <? detachThreshold this) = true)) as Hno.
  { rewrite <- andb_true_iff. congruence. }
  unfold JS.or_else. destruct (JS.truthy (curvature pathInfo)) eqn:Htruthy.
  + assert (JS.neq0 (curvature pathInfo) = true) as ->.
    { unfold JS.truthy in Htruthy. by apply andb_true_iff in Htruthy as [? _]. }
    destruct (force * 2 <? _); intuition congruence.
  + change (JS.neq0 0) with false. cbv iota.
    pose proof (ltb_abs_double_zero (gravity this * Math_cos H (slopeAngle H pathInfo))
                  (speed * speed) (curvature pathInfo) Htruthy) as Hb.
    fold force in Hb. rewrite (float_mul_comm 2 force) in Hb. rewrite Hb.
    intuition congruence.
Qed.

(** C8 (as the code has it).  [updateInAir] first adds [gravity * dt] to the
    vertical velocity and then, only when the speed is greater than 0, adds
    the drag [normalize(velocity) * (-(airDrag * speed^2)) * dt], which is
    then what the specification words; when the speed is 0 or not a number
    nothing more is added (for a zero speed the direction
    [normalize(velocity)] is the zero vector).  Nothing but the velocity
    changes. *)
Theorem updateInAir_spec (this : PhysicsEngine) (marble : Marble) (dt : float) :
let v1 := Vector2D.mk (Vector2D.x (velocity marble))
                      (Vector2D.y (velocity marble) + gravity this * dt) in
let speed := Vector2D.magnitude v1 in
let drag := airDrag this * speed * speed in
updateInAir this marble dt =
  set_velocity marble
    (if 0 <? speed
     then Vector2D.add v1 (Vector2D.mul (Vector2D.mul (Vector2D.normalize v1) (- drag)) dt)
     else v1) /\
((0 <? speed) = true -> updateInAir this marble dt = updateInAir_asSpecified this marble dt) /\
((0 <? speed) = false -> updateInAir this marble dt = set_velocity marble v1) /\
((speed =? 0) = true -> Vector2D.normalize v1 = Vector2D.mk 0 0).
Proof.
cbv zeta. split; [|split; [|split]].
- unfold updateInAir. cbn [velocity set_velocity]. by destruct (0 <? _).
- intros Hs. unfold updateInAir, updateInAir_asSpecified. cbn [velocity set_velocity].
  by rewrite Hs.
- intros Hs. unfold updateInAir. cbn [velocity set_velocity]. by rewrite Hs.
- unfold Vector2D.normalize. by intros ->.
Qed.

(** C8 as stated fails: for a velocity whose horizontal component is not a
    number the speed is not a number either, the test [speed > 0] fails, and
    the code leaves the vertical velocity at [1 + gravity * dt], where the
    drag of the specification would make it NaN. *)
Lemma updateInAir_skips_drag :
let marble :=
  Marble_new 0 0 {| MarbleConfig.vx := Some nan; MarbleConfig.vy := Some 1;
                    MarbleConfig.radius := None; MarbleConfig.maxTrailLength := None |} in
velocity (updateInAir PhysicsEngine_default marble 0.016) =
  Vector2D.mk nan (1 + -9.8 * 0.016) /\
is_nan (Vector2D.y (velocity (updateInAir PhysicsEngine_default marble 0.016))) = false /\
velocity (updateInAir_asSpecified PhysicsEngine_default marble 0.016) = Vector2D.mk nan nan.
Proof. cbv zeta. repeat split; by vm_compute. Qed.

(* ===================================================================== *)
(** * The steps of [update]                                                *)
(* ===================================================================== *)

Section Steps.

Variable H : MathHost.
Variable this : PhysicsEngine.

Lemma finishUpdate_marble marble scaledDt pathInfo store stars :
fst (fst (finishUpdate H this marble scaledDt pathInfo store stars)) =
  clampMinVelocity this (trailUpdated (afterMove H this marble scaledDt pathInfo)).
Proof.
unfold finishUpdate, afterMove.
destruct (updatePathState H this marble scaledDt pathInfo) as [[marble1 a] d].
by destruct (collectStars _ store stars []).
Qed.

Lemma finishUpdate_store marble scaledDt pathInfo store stars :
snd (fst (finishUpdate H this marble scaledDt pathInfo store stars)) =
  fst (collectStars (afterMove H this marble scaledDt pathInfo) store stars []).
Proof.
unfold finishUpdate, afterMove.
destruct (updatePathState H this marble scaledDt pathInfo) as [[marble1 a] d].
by destruct (collectStars _ store stars []).
Qed.

Lemma finishUpdate_starsCollected marble scaledDt pathInfo store stars :
starsCollected (snd (finishUpdate H this marble scaledDt pathInfo store stars)) =
  snd (collectStars (afterMove H this marble scaledDt pathInfo) store stars []).
Proof.
unfold finishUpdate, afterMove.
destruct (updatePathState H this marble scaledDt pathInfo) as [[marble1 a] d].
by destruct (collectStars _ store stars []).
Qed.

(** ** Attachment flag and bound curve *)

Lemma updateOnPath_path marble info dt :
onPath (updateOnPath this marble info dt) = onPath marble /\
currentEquation (updateOnPath this marble info dt) = currentEquation marble.
Proof.
unfold updateOnPath.
destruct (_ && _); cbn [fst snd]; destruct (0.01 <? _); done.
Qed.

Lemma updateInAir_path marble dt :
onPath (updateInAir this marble dt) = onPath marble /\
currentEquation (updateInAir this marble dt) = currentEquation marble.
Proof. unfold updateInAir. by destruct (0 <? _). Qed.

Lemma updatePathState_consistent marble scaledDt pathInfo :
attachment_consistent (fst (fst (updatePathState H this marble scaledDt pathInfo))).
Proof.
assert (forall d : bool, attachment_consistent
          (fst (fst (updateInAir this (set_path marble false None) scaledDt, false, d))))
  as Hfree.
{ intros d. unfold attachment_consistent. cbn [fst].
  destruct (updateInAir_path (set_path marble false None) scaledDt) as [-> ->].
  cbn. split; [done|]. by intros [? ?]. }
unfold updatePathState. destruct pathInfo as [info|]; [|apply Hfree].
destruct (distance info <? snapDistance this); [|apply Hfree].
destruct (shouldAttachToPath marble info); [|apply Hfree].
destruct (shouldDetachFromPath H this _ info); unfold attachment_consistent; cbn [fst].
- cbn. split; [done|]. by intros [? ?].
- destruct (updateOnPath_path (set_path marble true (Some (equation info))) info scaledDt)
    as [-> ->].
  cbn. split; [by eexists|done].
Qed.

Lemma clampMinVelocity_path marble :
onPath (clampMinVelocity this marble) = onPath marble /\
currentEquation (clampMinVelocity this marble) = currentEquation marble.
Proof. unfold clampMinVelocity. destruct (_ <? minVelocity this); [destruct (0 <? _)|]; done. Qed.

Lemma finishUpdate_consistent marble scaledDt pathInfo store stars :
attachment_consistent (fst (fst (finishUpdate H this marble scaledDt pathInfo store stars))).
Proof.
rewrite finishUpdate_marble. unfold attachment_consistent.
destruct (clampMinVelocity_path (trailUpdated (afterMove H this marble scaledDt pathInfo)))
  as [-> ->].
apply (updatePathState_consistent marble scaledDt pathInfo).
Qed.

(** ** The velocity clamp *)

Lemma finishUpdate_velocity marble scaledDt pathInfo store stars :
velocity (fst (fst (finishUpdate H this marble scaledDt pathInfo store stars))) =
  clamped this (velocity (afterMove H this marble scaledDt pathInfo)).
Proof.
rewrite finishUpdate_marble. unfold clampMinVelocity, clamped.
cbn [trailUpdated set_trail velocity].
destruct (_ <? minVelocity this); [destruct (0 <? _)|]; done.
Qed.

(** ** The stars *)

(** What the star loop does to the store. *)
Lemma collectStars_store marble (stars : list nat) :
forall (store : list Star) (acc : list nat),
  length (fst (collectStars marble store stars acc)) = length store /\
  forall (i : nat) (s : Star), store !! i = Some s ->
    exists s', fst (collectStars marble store stars acc) !! i = Some s' /\
      star_x s' = star_x s /\ star_y s' = star_y s /\ star_radius s' = star_radius s /\
      (collected s' = true <->
         collected s = true \/ (i ∈ stars /\ checkCollision marble s = true)).
Proof.
induction stars as [|r rest IH]; intros store acc; cbn [collectStars].
- split; [done|]. intros i s Hi. exists s. repeat split; try done; [tauto|].
  intros [?|[Hin _]]; [done|]. by apply elem_of_nil in Hin.
- destruct (store !! r) as [star|] eqn:Hr.
  + destruct (negb (collected star) && checkCollision marble star) eqn:Hc.
    * apply andb_true_iff in Hc as [Hnc Hcol]. apply negb_true_iff in Hnc.
      destruct (IH (<[r:=mark_collected star]> store) (acc ++ [r])) as [Hlen Hst].
      split; [by rewrite Hlen, length_insert|].
      intros i s Hi. destruct (decide (i = r)) as [->|Hne].
      -- assert (s = star) as -> by congruence.
         destruct (Hst r (mark_collected star)) as (s' & Hs' & Hx & Hy & Hrad & Hcoll).
         { apply list_lookup_insert_eq. by eapply lookup_lt_Some. }
         exists s'. repeat split; try done; [|intros _; apply Hcoll; by left].
         intros _. right. split; [apply elem_of_cons; by left|done].
      -- destruct (Hst i s) as (s' & Hs' & Hx & Hy & Hrad & Hcoll).
         { by rewrite list_lookup_insert_ne. }
         exists s'. repeat split; try done.
         ++ intros [?|[Hin ?]]%Hcoll; [by left|right]. split; [|done].
            apply elem_of_cons. by right.
         ++ intros [?|[Hin ?]]; apply Hcoll; [by left|right]. split; [|done].
            apply elem_of_cons in Hin as [?|?]; done.
    * destruct (IH store acc) as [Hlen Hst]. split; [done|].
      intros i s Hi. destruct (Hst i s Hi) as (s' & Hs' & Hx & Hy & Hrad & Hcoll).
      exists s'. repeat split; try done.
      -- intros [?|[Hin ?]]%Hcoll; [by left|right]. split; [|done].
         apply elem_of_cons. by right.
      -- intros [?|[Hin Hcol]]; apply Hcoll; [by left|].
         apply elem_of_cons in Hin as [->|?]; [|by right].
         assert (s = star) as -> by congruence. rewrite Hcol in Hc.
         left. rewrite andb_true_r in Hc. by apply negb_false_iff.
  + destruct (IH store acc) as [Hlen Hst]. split; [done|].
    intros i s Hi. destruct (Hst i s Hi) as (s' & Hs' & Hx & Hy & Hrad & Hcoll).
    exists s'. repeat split; try done.
    * intros [?|[Hin ?]]%Hcoll; [by left|right]. split; [|done].
      apply elem_of_cons. by right.
    * intros [?|[Hin Hcol]]; apply Hcoll; [by left|right].
      apply elem_of_cons in Hin as [->|?]; [congruence|done].
Qed.

(** What the star loop reports: each newly collected star once. *)
Lemma collectStars_acc marble (stars : list nat) :
forall (store : list Star) (acc : list nat),
  NoDup acc ->
  (forall i, i ∈ acc -> exists s, store !! i = Some s /\ collected s = true) ->
  NoDup (snd (collectStars marble store stars acc)) /\
  forall i, i ∈ snd (collectStars marble store stars acc) <->
    i ∈ acc \/
    (i ∈ stars /\ exists s, store !! i = Some s /\ collected s = false /\
                   checkCollision marble s = true).
Proof.
induction stars as [|r rest IH]; intros store acc Hnd Hacc; cbn [collectStars].
- split; [done|]. intros i. split; [by left|]. intros [?|[Hin _]]; [done|].
  by apply elem_of_nil in Hin.
- destruct (store !! r) as [star|] eqn:Hr.
  + destruct (negb (collected star) && checkCollision marble star) eqn:Hc.
    * apply andb_true_iff in Hc as [Hnc Hcol]. apply negb_true_iff in Hnc.
      assert (r ∉ acc) as Hnotin.
      { intros (s & Hs & Hcs)%Hacc. congruence. }
      assert (r < length store)%nat as Hlt by (by eapply lookup_lt_Some).
      destruct (IH (<[r:=mark_collected star]> store) (acc ++ [r])) as [Hnd' Hin'].
      { apply NoDup_app. split; [done|]. split; [|apply NoDup_singleton].
        intros i Hi ->%list_elem_of_singleton. done. }
      { intros i [Hi| ->%list_elem_of_singleton]%elem_of_app.
        - destruct (Hacc i Hi) as (s & Hs & Hcs). exists s. split; [|done].
          rewrite list_lookup_insert_ne; [done|]. intros ->. done.
        - exists (mark_collected star). split; [|done]. by apply list_lookup_insert_eq. }
      split; [done|]. intros i. rewrite Hin'. split.
      -- intros [[?| ->%list_elem_of_singleton]%elem_of_app|(Hi & s & Hs & Hcs & Hcl)].
         ++ by left.
         ++ right. split; [apply elem_of_cons; by left|]. by exists star.
         ++ right. split; [apply elem_of_cons; by right|].
            destruct (decide (i = r)) as [->|Hne].
            ** rewrite list_lookup_insert_eq in Hs by done.
               injection Hs as <-. done.
            ** rewrite list_lookup_insert_ne in Hs by done. by exists s.
      -- intros [?|(Hi & s & Hs & Hcs & Hcl)].
         ++ left. apply elem_of_app. by left.
         ++ destruct (decide (i = r)) as [->|Hne].
            ** left. apply elem_of_app. right. by apply list_elem_of_singleton.
            ** right. apply elem_of_cons in Hi as [?|Hi]; [done|]. split; [done|].
               exists s. by rewrite list_lookup_insert_ne.
    * destruct (IH store acc Hnd Hacc) as [Hnd' Hin']. split; [done|].
      intros i. rewrite Hin'. split.
      -- intros [?|(Hi & Hs)]; [by left|right]. split; [|done]. apply elem_of_cons. by right.
      -- intros [?|(Hi & s & Hs & Hcs & Hcl)]; [by left|right].
         apply elem_of_cons in Hi as [->|Hi]; [|split; [done|by exists s]].
         assert (s = star) as -> by congruence.
         by rewrite Hcs, Hcl in Hc.
  + destruct (IH store acc Hnd Hacc) as [Hnd' Hin']. split; [done|].
    intros i. rewrite Hin'. split.
    * intros [?|(Hi & Hs)]; [by left|right]. split; [|done]. apply elem_of_cons. by right.
    * intros [?|(Hi & s & Hs & Hcs & Hcl)]; [by left|right].
      apply elem_of_cons in Hi as [->|Hi]; [congruence|]. split; [done|by exists s].
Qed.

End Steps.

(* ===================================================================== *)
(** * Failures of the evaluators are absorbed                              *)
(* ===================================================================== *)




Section Absorbed.

Variable H : MathHost.
Variable this : PhysicsEngine.




Lemma calculateSecondDerivative_absorbs f x h :
let step := stepOf this h in
f (x - step) = None \/ f x = None \/ f (x + step) = None \/
  (exists y0 y1 y2, f (x - step) = Some y0 /\ f x = Some y1 /\ f (x + step) = Some y2 /\
     (JS.isFinite y0 = false \/ JS.isFinite y1 = false \/ JS.isFinite y2 = false)) ->
calculateSecondDerivative this f x h = Ret 0.
Proof.
cbv zeta. unfold calculateSecondDerivative.
intros [->|[Hp|[Hp|(y0 & y1 & y2 & -> & -> & -> & Hy)]]]; cbn [call bind try_catch]; [done| | |].
- rewrite Hp. destruct (f (x - stepOf this h)); reflexivity.
- rewrite Hp. destruct (f (x - stepOf this h)), (f x); reflexivity.
- by destruct Hy as [-> | [-> | ->]]; cbn [negb orb]; rewrite ?orb_true_r.
Qed.






End Absorbed.

(* ===================================================================== *)
(** * The reference host meets the assumption on [atan2]                   *)
(* ===================================================================== *)

Lemma refHost_atan2_in_range : atan2_in_range RefHost.host.
Proof.
intros y x. cbn [Math_atan2 RefHost.host]. unfold RefHost.atan2.
destruct (is_nan (RefHost.atan2_raw y x)) eqn:Hnan; [by left|]. right.
destruct ((- JS.Math_PI <=? RefHost.atan2_raw y x) && (RefHost.atan2_raw y x <=? JS.Math_PI))
  eqn:Hin; [by apply andb_true_iff in Hin|].
by destruct (RefHost.atan2_raw y x <? 0).
Qed.

(* ===================================================================== *)
(** * Properties of every update step                                      *)
(* ===================================================================== *)

(** A step returns when the capacity of the trail is not negative and the
    budget covers the searches and the trail loop, one turn for each entry of
    the trail: these are the hypotheses on [fuel] and [maxTrailLength] of the
    statements about a step.  On a negative capacity no step returns
    ([update_never_returns]). *)

(** C10. After construction, after [reset] and after every update step the
    flag [onPath] is true exactly when [currentEquation] is not null. *)
Theorem attachment_flag_and_curve_agree (H : MathHost) (this : PhysicsEngine) (fuel : nat)
  (marble : Marble) (dt : float) (equations : list Equation)
  (store : list Star) (stars : list nat) (x y : float) (config : MarbleConfig.t) :
atan2_in_range H -> (enoughFuel <= fuel)%nat ->
(length (trail marble) + 2 <= fuel)%nat -> (maxTrailLength marble <? 0) = false ->
attachment_consistent (Marble_new x y config) /\
attachment_consistent (Marble_reset marble x y) /\
exists marble' store' result,
  update H this fuel marble dt equations store stars = Ret (marble', store', result) /\
  attachment_consistent marble'.
Proof.
intros Hhost Hfuel Htrail Hcap. unfold attachment_consistent at 1 2. cbn [onPath currentEquation Marble_new Marble_reset].
split; [split; [done|by intros [? ?]]|]. split; [split; [done|by intros [? ?]]|].
destruct (update_returns H this Hhost fuel Hfuel marble dt equations store stars
            Htrail Hcap)
  as (pathInfo & _ & Hup).
pose proof (finishUpdate_consistent H this marble (dt * timeScale this) pathInfo store stars)
  as Hc.
destruct (finishUpdate H this marble (dt * timeScale this) pathInfo store stars)
  as [[marble' store'] result]. by exists marble', store', result.
Qed.

Lemma attachment_flag_and_curve_agree_witness :
attachment_consistent (Marble_new 0 2 MarbleConfig.empty) /\
attachment_consistent (Marble_reset restingMarble 0 2) /\
exists marble' store' result,
  update RefHost.host PhysicsEngine_default enoughFuel restingMarble 1
    [parseConstantY 2] [exampleStar] [0%nat] = Ret (marble', store', result) /\
  attachment_consistent marble'.
Proof.
apply (attachment_flag_and_curve_agree RefHost.host PhysicsEngine_default enoughFuel
         restingMarble 1 [parseConstantY 2] [exampleStar] [0%nat] 0 2 MarbleConfig.empty
         refHost_atan2_in_range (le_n enoughFuel));
  [vm_compute; lia|reflexivity].
Defined.

(** C6. In an update step the [collected] flag of a star only goes from false
    to true: it is true afterwards exactly when it was true before or the star
    is listed and collides with the moved marble; nothing else of a star
    changes, and each newly collected star is reported once. *)
Theorem collected_only_rises (H : MathHost) (this : PhysicsEngine) (fuel : nat)
  (marble : Marble) (dt : float) (equations : list Equation)
  (store : list Star) (stars : list nat) :
atan2_in_range H -> (enoughFuel <= fuel)%nat ->
(length (trail marble) + 2 <= fuel)%nat -> (maxTrailLength marble <? 0) = false ->
exists pathInfo marble' store' result,
  findNearestPath H this fuel marble equations = Ret pathInfo /\
  update H this fuel marble dt equations store stars = Ret (marble', store', result) /\
  let moved := afterMove H this marble (dt * timeScale this) pathInfo in
  length store' = length store /\
  (forall (i : nat) (s : Star), store !! i = Some s ->
     exists s', store' !! i = Some s' /\
       star_x s' = star_x s /\ star_y s' = star_y s /\ star_radius s' = star_radius s /\
       (collected s = true -> collected s' = true) /\
       (collected s' = true <->
          collected s = true \/ (i ∈ stars /\ checkCollision moved s = true))) /\
  NoDup (starsCollected result) /\
  (forall i : nat, i ∈ starsCollected result <->
     i ∈ stars /\ exists s, store !! i = Some s /\ collected s = false /\
                    checkCollision moved s = true).
Proof.
intros Hhost Hfuel Htrail Hcap.
destruct (update_returns H this Hhost fuel Hfuel marble dt equations store stars
            Htrail Hcap)
  as (pathInfo & Hpath & Hup).
pose proof (finishUpdate_store H this marble (dt * timeScale this) pathInfo store stars) as Hs.
pose proof (finishUpdate_starsCollected H this marble (dt * timeScale this) pathInfo store stars)
  as Hr.
destruct (finishUpdate H this marble (dt * timeScale this) pathInfo store stars)
  as [[marble' store'] result]. cbn [fst snd] in Hs, Hr.
exists pathInfo, marble', store', result. split; [done|]. split; [done|]. cbv zeta.
set (moved := afterMove H this marble (dt * timeScale this) pathInfo) in *.
destruct (collectStars_store moved stars store []) as [Hlen Hst].
destruct (collectStars_acc moved stars store []) as [Hnd Hin];
  [apply NoDup_nil_2|by intros i ?%elem_of_nil|].
rewrite Hs, Hr. split; [done|]. split; [|split; [done|]].
- intros i s Hi. destruct (Hst i s Hi) as (s' & Hs' & Hx & Hy & Hrad & Hcoll).
  exists s'. repeat split; try done; [|apply Hcoll|apply Hcoll].
  intros Hc. apply Hcoll. by left.
- intros i. rewrite Hin. split; [|by right].
  intros [?%elem_of_nil|?]; done.
Qed.

Lemma collected_only_rises_witness :
exists pathInfo marble' store' result,
  findNearestPath RefHost.host PhysicsEngine_default enoughFuel restingMarble
    [parseConstantY 2] = Ret pathInfo /\
  update RefHost.host PhysicsEngine_default enoughFuel restingMarble 1
    [parseConstantY 2] [exampleStar] [0%nat; 0%nat] = Ret (marble', store', result) /\
  let moved := afterMove RefHost.host PhysicsEngine_default restingMarble
                 (1 * timeScale PhysicsEngine_default) pathInfo in
  length store' = length [exampleStar] /\
  (forall (i : nat) (s : Star), [exampleStar] !! i = Some s ->
     exists s', store' !! i = Some s' /\
       star_x s' = star_x s /\ star_y s' = star_y s /\ star_radius s' = star_radius s /\
       (collected s = true -> collected s' = true) /\
       (collected s' = true <->
          collected s = true \/ (i ∈ [0%nat; 0%nat] /\ checkCollision moved s = true))) /\
  NoDup (starsCollected result) /\
  (forall i : nat, i ∈ starsCollected result <->
     i ∈ [0%nat; 0%nat] /\ exists s, [exampleStar] !! i = Some s /\ collected s = false /\
                    checkCollision moved s = true).
Proof.
apply (collected_only_rises RefHost.host PhysicsEngine_default enoughFuel restingMarble 1
         [parseConstantY 2] [exampleStar] [0%nat; 0%nat]
         refHost_atan2_in_range (le_n enoughFuel));
  [vm_compute; lia|reflexivity].
Defined.

(** C4 (as the code has it).  When the velocity at the end of the step has a
    magnitude below [minVelocity], it is replaced: by its own direction scaled
    to [2 * minVelocity] when its magnitude is positive, and otherwise by the
    fixed nudge [(0.01, 0.01 * gravity)]; a velocity of larger magnitude is
    kept. *)
Theorem velocity_clamp (H : MathHost) (this : PhysicsEngine) (fuel : nat)
  (marble : Marble) (dt : float) (equations : list Equation)
  (store : list Star) (stars : list nat) :
atan2_in_range H -> (enoughFuel <= fuel)%nat ->
(length (trail marble) + 2 <= fuel)%nat -> (maxTrailLength marble <? 0) = false ->
exists pathInfo marble' store' result,
  findNearestPath H this fuel marble equations = Ret pathInfo /\
  update H this fuel marble dt equations store stars = Ret (marble', store', result) /\
  let before := velocity (afterMove H this marble (dt * timeScale this) pathInfo) in
  velocity marble' =
    if Vector2D.magnitude before <? minVelocity this then
      if 0 <? Vector2D.magnitude before
      then Vector2D.mul (Vector2D.normalize before) (minVelocity this * 2)
      else Vector2D.mk 0.01 (gravity this * 0.01)
    else before.
Proof.
intros Hhost Hfuel Htrail Hcap.
destruct (update_returns H this Hhost fuel Hfuel marble dt equations store stars
            Htrail Hcap)
  as (pathInfo & Hpath & Hup).
pose proof (finishUpdate_velocity H this marble (dt * timeScale this) pathInfo store stars)
  as Hv.
destruct (finishUpdate H this marble (dt * timeScale this) pathInfo store stars)
  as [[marble' store'] result]. by exists pathInfo, marble', store', result.
Qed.

Lemma velocity_clamp_witness :
exists pathInfo marble' store' result,
  findNearestPath RefHost.host PhysicsEngine_default enoughFuel restingMarble
    [parseConstantY 2] = Ret pathInfo /\
  update RefHost.host PhysicsEngine_default enoughFuel restingMarble 1
    [parseConstantY 2] [] [] = Ret (marble', store', result) /\
  let before := velocity (afterMove RefHost.host PhysicsEngine_default restingMarble
                            (1 * timeScale PhysicsEngine_default) pathInfo) in
  velocity marble' =
    if Vector2D.magnitude before <? minVelocity PhysicsEngine_default then
      if 0 <? Vector2D.magnitude before
      then Vector2D.mul (Vector2D.normalize before) (minVelocity PhysicsEngine_default * 2)
      else Vector2D.mk 0.01 (gravity PhysicsEngine_default * 0.01)
    else before.
Proof.
apply (velocity_clamp RefHost.host PhysicsEngine_default enoughFuel restingMarble 1
         [parseConstantY 2] [] [] refHost_atan2_in_range (le_n enoughFuel));
  [vm_compute; lia|reflexivity].
Defined.

(** C4 as stated fails: a marble at rest on the line [y = 2] ends the step
    with zero velocity, and the clamp gives it the velocity
    [(0.01, 0.01 * gravity)], which has a sideways component: it does not
    point straight down. *)
Lemma velocity_clamp_not_straight_down :
exists pathInfo marble' store' result,
  findNearestPath RefHost.host PhysicsEngine_default enoughFuel restingMarble
    [parseConstantY 2] = Ret pathInfo /\
  update RefHost.host PhysicsEngine_default enoughFuel restingMarble 1
    [parseConstantY 2] [] [] = Ret (marble', store', result) /\
  velocity (afterMove RefHost.host PhysicsEngine_default restingMarble
              (1 * timeScale PhysicsEngine_default) pathInfo) = Vector2D.mk 0 0 /\
  velocity marble' = Vector2D.mk 0.01 (gravity PhysicsEngine_default * 0.01) /\
  (Vector2D.x (velocity marble') =? 0) = false.
Proof.
eexists _, _, _, _.
split; [vm_compute; reflexivity|]. split; [vm_compute; reflexivity|].
by vm_compute.
Qed.

(** C3 as stated fails: with [dt = 0] a free marble just above the line
    [y = 0] is attached to it and pulled toward it. *)
Lemma update_zero_dt_attaches :
exists marble' store' result,
  update RefHost.host PhysicsEngine_default enoughFuel nearMarble 0
    [parseConstantY 0] [] [] = Ret (marble', store', result) /\
  onPath nearMarble = false /\ onPath marble' = true /\
  Vector2D.y (position nearMarble) = 0.05 /\
  Vector2D.y (position marble') = 0.05 + (0 - 0.05) * 0.4 /\
  (Vector2D.y (position marble') =? Vector2D.y (position nearMarble)) = false.
Proof.
eexists _, _, _.
split; [vm_compute; reflexivity|]. by vm_compute.
Qed.

(* ===================================================================== *)
(** * A step of zero duration                                              *)
(* ===================================================================== *)

Section ZeroStep.

Variable H : MathHost.
Variable this : PhysicsEngine.

Lemma updatePathState_free marble scaledDt pathInfo :
freeFallBranch this marble pathInfo = true ->
fst (fst (updatePathState H this marble scaledDt pathInfo)) =
  updateInAir this (set_path marble false None) scaledDt.
Proof.
unfold freeFallBranch, updatePathState. destruct pathInfo as [info|]; [|done].
destruct (distance info <? snapDistance this); [|done].
by destruct (shouldAttachToPath marble info).
Qed.

(** In free fall with a zero time step and finite data the velocity stays
    finite. *)
Lemma updateInAir_zero_finite marble z :
is_zero_sf (Prim2SF z) = true ->
JS.isFinite (gravity this) = true ->
finiteVec (velocity marble) = true ->
finiteVec (freeFallDrag this marble z) = true ->
finiteVec (velocity (updateInAir this marble z)) = true.
Proof.
unfold finiteVec, freeFallDrag. rewrite !isFinite_finF.
intros Hz Hg [Hvx Hvy]%andb_true_iff. cbv zeta. cbn [Vector2D.mul Vector2D.x Vector2D.y].
intros [Hdx Hdy]%andb_true_iff.
destruct (add_zero_r (Vector2D.y (velocity marble)) (gravity this * z) Hvy
            (mul_zero_r _ _ Hg Hz)) as [Hy1 _].
unfold updateInAir. cbn [velocity set_velocity].
destruct (0 <? _); cbn [velocity set_velocity Vector2D.add Vector2D.mul Vector2D.x Vector2D.y].
- destruct (add_zero_r _ _ Hvx (mul_zero_r _ _ Hdx Hz)) as [-> _].
  by destruct (add_zero_r _ _ Hy1 (mul_zero_r _ _ Hdy Hz)) as [-> _].
- by rewrite Hvx, Hy1.
Qed.

(** Integrating a finite velocity over a zero time step keeps the position. *)
Lemma integratePosition_zero marble z :
is_zero_sf (Prim2SF z) = true ->
finiteVec (position marble) = true -> finiteVec (velocity marble) = true ->
(Vector2D.x (position (integratePosition marble z)) =? Vector2D.x (position marble)) = true /\
(Vector2D.y (position (integratePosition marble z)) =? Vector2D.y (position marble)) = true.
Proof.
unfold finiteVec. rewrite !isFinite_finF.
intros Hz [Hpx Hpy]%andb_true_iff [Hvx Hvy]%andb_true_iff.
cbn [integratePosition position set_position Vector2D.add Vector2D.mul Vector2D.x Vector2D.y].
split.
- by destruct (add_zero_r _ _ Hpx (mul_zero_r _ _ Hvx Hz)).
- by destruct (add_zero_r _ _ Hpy (mul_zero_r _ _ Hvy Hz)).
Qed.

Lemma updateInAir_position marble dt :
position (updateInAir this marble dt) = position marble.
Proof. unfold updateInAir. by destruct (0 <? _). Qed.

Lemma clampMinVelocity_position marble :
position (clampMinVelocity this marble) = position marble.
Proof. unfold clampMinVelocity. destruct (_ <? minVelocity this); [destruct (0 <? _)|]; done. Qed.

End ZeroStep.

(** C3 (as the code has it).  With [dt = 0] and finite data, a step that runs
    the free-fall dynamics (no curve within [snapDistance], or the attach test
    fails) keeps the position and leaves the marble unattached: a free marble
    stays free where it is, and a marble that was attached is released.  (The
    step returns because the capacity of the trail is not negative.)  On the
    other branch the marble is snapped toward the closest point whatever the
    time step: [updateOnPath] moves it by the fraction [snapStrength] of the
    way. *)
Theorem update_zero_dt_free_fall (H : MathHost) (this : PhysicsEngine) (fuel : nat)
  (marble : Marble) (equations : list Equation) (store : list Star) (stars : list nat)
  (pathInfo : option PathInfo) :
(length (trail marble) + 2 <= fuel)%nat -> (maxTrailLength marble <? 0) = false ->
JS.isFinite (timeScale this) = true ->
JS.isFinite (gravity this) = true ->
finiteVec (position marble) = true ->
finiteVec (velocity marble) = true ->
finiteVec (freeFallDrag this marble (0 * timeScale this)) = true ->
findNearestPath H this fuel marble equations = Ret pathInfo ->
freeFallBranch this marble pathInfo = true ->
(exists marble' store' result,
   update H this fuel marble 0 equations store stars = Ret (marble', store', result) /\
   (Vector2D.x (position marble') =? Vector2D.x (position marble)) = true /\
   (Vector2D.y (position marble') =? Vector2D.y (position marble)) = true /\
   onPath marble' = false /\ currentEquation marble' = None) /\
(forall (bound : Marble) (info : PathInfo) (scaledDt : float),
   position (updateOnPath this bound info scaledDt) =
     Vector2D.lerp (position bound)
       (Vector2D.mk (Vector2D.x (closestPoint info)) (Vector2D.y (closestPoint info)))
       (snapStrength this)).
Proof.
intros Htrail Hcap Hts Hg Hpos Hvel Hdrag Hpath Hfree.
split.
2:{ intros bound info scaledDt. unfold updateOnPath.
    destruct (_ && _); cbn [fst snd]; by destruct (0.01 <? _). }
pose proof (update_finish H this fuel marble 0 equations store stars pathInfo Hpath Htrail Hcap)
  as Hup.
pose proof (finishUpdate_marble H this marble (0 * timeScale this) pathInfo store stars)
  as Hm.
destruct (finishUpdate H this marble (0 * timeScale this) pathInfo store stars)
  as [[marble' store'] result]. cbn [fst] in Hm.
exists marble', store', result. split; [done|]. subst marble'.
assert (is_zero_sf (Prim2SF (0 * timeScale this)) = true) as Hz.
{ apply mul_zero_l; [by rewrite <- isFinite_finF|done]. }
unfold afterMove. rewrite (updatePathState_free H this _ _ _ Hfree).
set (air := updateInAir this (set_path marble false None) (0 * timeScale this)).
assert (finiteVec (velocity air) = true) as Hvair
  by exact (updateInAir_zero_finite this (set_path marble false None) _ Hz Hg Hvel Hdrag).
assert (position air = position marble) as Hpair
  by exact (updateInAir_position this (set_path marble false None) _).
destruct (integratePosition_zero air (0 * timeScale this) Hz) as [Hx Hy];
  [by rewrite Hpair|done|].
rewrite clampMinVelocity_position.
destruct (clampMinVelocity_path this (trailUpdated (integratePosition air (0 * timeScale this))))
  as [-> ->].
cbn [trailUpdated set_trail position onPath currentEquation] in *.
rewrite Hpair in Hx, Hy. split; [done|]. split; [done|].
cbn [integratePosition set_position onPath currentEquation]. unfold air.
by destruct (updateInAir_path this (set_path marble false None) (0 * timeScale this))
  as [-> ->].
Qed.

(** An attached marble whose curve [y = 2] is out of reach: at [(0, 0.05)]
    the line is 1.95 away, beyond [snapDistance]. *)
Lemma update_zero_dt_free_fall_witness :
(exists marble' store' result,
   update RefHost.host PhysicsEngine_default enoughFuel
     (set_path nearMarble true (Some lineY2)) 0 [lineY2] [] []
     = Ret (marble', store', result) /\
   (Vector2D.x (position marble') =? Vector2D.x (position nearMarble)) = true /\
   (Vector2D.y (position marble') =? Vector2D.y (position nearMarble)) = true /\
   onPath marble' = false /\ currentEquation marble' = None) /\
(forall (bound : Marble) (info : PathInfo) (scaledDt : float),
   position (updateOnPath PhysicsEngine_default bound info scaledDt) =
     Vector2D.lerp (position bound)
       (Vector2D.mk (Vector2D.x (closestPoint info)) (Vector2D.y (closestPoint info)))
       (snapStrength PhysicsEngine_default)).
Proof.
eapply (update_zero_dt_free_fall RefHost.host PhysicsEngine_default enoughFuel
          (set_path nearMarble true (Some lineY2)) [lineY2] [] []);
  [vm_compute; lia|reflexivity|reflexivity|reflexivity|reflexivity|reflexivity|reflexivity
  |vm_compute; reflexivity|vm_compute; reflexivity].
Defined.

(* ===================================================================== *)
(** * Constant lines                                                       *)
(* ===================================================================== *)

Section ConstantLines.

Variable H : MathHost.
Variable this : PhysicsEngine.

Hypothesis Hstep : (0 <? 2 * derivativeStep this) = true.
Hypothesis Hstep2 : (0 <? derivativeStep this * derivativeStep this) = true.
Hypothesis Hpow : Math_pow H 1 1.5 = 1.

Lemma constant_derivative c x :
JS.isFinite c = true -> calculateDerivative this (fun _ => Some c) x None = Ret 0.
Proof.
intros Hc. unfold calculateDerivative. cbn [call bind try_catch stepOf]. rewrite Hc.
cbn [negb orb]. rewrite isFinite_finF in Hc.
by rewrite float_sub_diag, float_zero_div.
Qed.

Lemma constant_secondDerivative c x :
JS.isFinite c = true -> JS.isFinite (2 * c) = true ->
calculateSecondDerivative this (fun _ => Some c) x None = Ret 0.
Proof.
intros Hc H2. unfold calculateSecondDerivative. cbn [call bind try_catch stepOf]. rewrite Hc.
cbn [negb orb]. rewrite isFinite_finF in Hc, H2.
by rewrite float_second_difference, float_zero_div.
Qed.

(** The analysis of [y = c]: the closest point is on the line at the abscissa
    the golden-section search returns; the tangent is [(1, 0)], the curvature
    0. *)
Lemma analyzeExplicitY_constant fuel pos eq c :
(51 <= fuel)%nat -> JS.isFinite c = true -> JS.isFinite (2 * c) = true ->
exists st,
  goldenSearch fuel (distanceAtX pos (fun _ => Some c))
    (Vector2D.x pos - 3) (Vector2D.x pos + 3) = Ret st /\
  let closest := Vector2D.mk ((g_a st + g_b st) / 2) c in
  analyzeExplicitY H this fuel pos eq (fun _ => Some c) =
    Ret (Some (mkPathInfo eq closest
                 (Vector2D.distanceTo pos (Vector2D.fromObject closest))
                 (Vector2D.mk 1 0) (Vector2D.mk (-0) 1) 0)).
Proof.
intros Hfuel Hc H2.
destruct (goldenSearch_returns (distanceAtX pos (fun _ => Some c))
            (Vector2D.x pos - 3) (Vector2D.x pos + 3) fuel) as (st & Hst & _);
  [apply distanceAtX_returns|done|].
exists st. split; [done|]. unfold analyzeExplicitY, findClosestXOnCurve. rewrite Hst.
cbn [bind call try_catch]. rewrite Hc. cbn [negb].
rewrite constant_derivative, constant_secondDerivative by done. cbn [bind try_catch].
change (1 + 0 * 0) with 1. rewrite Hpow. done.
Qed.

(** The analysis of [x = c]. *)
Lemma analyzeExplicitX_constant fuel pos eq c :
(51 <= fuel)%nat -> JS.isFinite c = true -> JS.isFinite (2 * c) = true ->
exists st,
  goldenSearch fuel (distanceAtY pos (fun _ => Some c))
    (Vector2D.y pos - 3) (Vector2D.y pos + 3) = Ret st /\
  let closest := Vector2D.mk c ((g_a st + g_b st) / 2) in
  analyzeExplicitX H this fuel pos eq (fun _ => Some c) =
    Ret (Some (mkPathInfo eq closest
                 (Vector2D.distanceTo pos (Vector2D.fromObject closest))
                 (Vector2D.mk 0 1) (Vector2D.mk (-1) 0) 0)).
Proof.
intros Hfuel Hc H2.
destruct (goldenSearch_returns (distanceAtY pos (fun _ => Some c))
            (Vector2D.y pos - 3) (Vector2D.y pos + 3) fuel) as (st & Hst & _);
  [apply distanceAtY_returns|done|].
exists st. split; [done|]. unfold analyzeExplicitX, findClosestYOnCurve. rewrite Hst.
cbn [bind call try_catch]. rewrite Hc. cbn [negb].
unfold calculateDerivativeX, calculateSecondDerivativeX.
rewrite constant_derivative, constant_secondDerivative by done. cbn [bind try_catch].
change (1 + 0 * 0) with 1. rewrite Hpow. done.
Qed.

End ConstantLines.

(** The analysis of the line [y = 2] from [(0, 2)], whatever the state of the
    marble there. *)
Lemma lineY2_analysis (H : MathHost) (g : float) (fuel : nat) (marble : Marble) :
Math_pow H 1 1.5 = 1 -> (51 <= fuel)%nat -> position marble = Vector2D.mk 0 2 ->
findNearestPath H (PhysicsEngine_withGravity g) fuel marble [lineY2] = Ret (Some lineY2_info).
Proof.
intros Hpow Hfuel Hpos.
destruct (analyzeExplicitY_constant H (PhysicsEngine_withGravity g) eq_refl eq_refl Hpow
            fuel (Vector2D.mk 0 2) (constant_y (fun _ => Some 2)) 2 Hfuel eq_refl eq_refl)
  as (st & Hst & Hinfo).
assert ((g_a st + g_b st) / 2 = lineY2_abscissa) as Hcx.
{ destruct (goldenSearch_returns (distanceAtX (Vector2D.mk 0 2) (fun _ => Some 2))
              (0 - 3) (0 + 3) 51) as (st' & Hst' & _);
    [apply distanceAtX_returns|done|].
  pose proof (loop_fuel_mono _ 51 fuel _ _ Hfuel Hst') as Hmono.
  unfold goldenSearch in Hst. cbn [Vector2D.x] in Hst.
  assert (st = st') as -> by congruence.
  vm_compute in Hst'. injection Hst' as <-. reflexivity. }
cbv zeta in Hinfo. rewrite Hcx in Hinfo.
unfold findNearestPath, nearestLoop, lineY2, parseConstantY. cbn [is_inequality].
unfold analyzePathAtPoint. rewrite Hpos, Hinfo. cbn [bind].
by vm_compute.
Qed.

Lemma lineY2_no_detach (H : MathHost) (g : float) (marble : Marble) :
Math_atan2 H 0 1 = 0 ->
shouldDetachFromPath H (PhysicsEngine_withGravity g) marble lineY2_info = false.
Proof.
intros Hatan. unfold shouldDetachFromPath.
cbn [tangent curvature lineY2_info Vector2D.x Vector2D.y].
change (abs 0) with 0. change (abs 1) with 1. rewrite Hatan. reflexivity.
Qed.

(** One step of a marble at rest at [(0, 2)] on the line [y = 2], with an
    engine of default parameters and any gravity: it is bound to the line
    afterwards, whether it was bound before or not. *)
Lemma lineY2_step (H : MathHost) (g : float) (fuel : nat) (b : bool) (e : option Equation)
  (store : list Star) (stars : list nat) :
Math_pow H 1 1.5 = 1 -> Math_atan2 H 0 1 = 0 -> (51 <= fuel)%nat ->
findNearestPath H (PhysicsEngine_withGravity g) fuel (set_path restingMarble b e) [lineY2]
  = Ret (Some lineY2_info) /\
exists marble' store' result,
  update H (PhysicsEngine_withGravity g) fuel (set_path restingMarble b e) 1 [lineY2]
    store stars = Ret (marble', store', result) /\
  onPath marble' = true /\ currentEquation marble' = Some lineY2.
Proof.
intros Hpow Hatan Hfuel.
pose proof (lineY2_analysis H g fuel (set_path restingMarble b e) Hpow Hfuel eq_refl)
  as Hpath.
split; [done|].
rewrite (update_finish H (PhysicsEngine_withGravity g) fuel (set_path restingMarble b e) 1
           [lineY2] store stars (Some lineY2_info) Hpath);
  [|cbn [trail set_path restingMarble Marble_new length]; lia|reflexivity].
pose proof (finishUpdate_marble H (PhysicsEngine_withGravity g) (set_path restingMarble b e)
              (1 * timeScale (PhysicsEngine_withGravity g)) (Some lineY2_info) store stars)
  as Hm.
destruct (finishUpdate H (PhysicsEngine_withGravity g) (set_path restingMarble b e)
            (1 * timeScale (PhysicsEngine_withGravity g)) (Some lineY2_info) store stars)
  as [[marble' store'] result]. cbn [fst] in Hm.
exists marble', store', result. split; [done|]. subst marble'.
destruct (clampMinVelocity_path (PhysicsEngine_withGravity g)
            (trailUpdated (afterMove H (PhysicsEngine_withGravity g)
                             (set_path restingMarble b e)
                             (1 * timeScale (PhysicsEngine_withGravity g))
                             (Some lineY2_info))))
  as [-> ->].
cbn [trailUpdated set_trail afterMove integratePosition set_position onPath currentEquation].
unfold updatePathState.
change (distance lineY2_info <? snapDistance (PhysicsEngine_withGravity g)) with true.
change (shouldAttachToPath (set_path restingMarble b e) lineY2_info) with true.
cbv iota. rewrite lineY2_no_detach by done. cbn [fst].
by destruct (updateOnPath_path (PhysicsEngine_withGravity g)
               (set_path (set_path restingMarble b e) true (Some (equation lineY2_info)))
               lineY2_info (1 * timeScale (PhysicsEngine_withGravity g))) as [-> ->].
Qed.

(** On the reference host the marble stays bound over a hundred steps. *)
Lemma lineY2_stays_bound :
onPathTrace RefHost.host PhysicsEngine_default enoughFuel 100 restingMarble [lineY2]
  = repeat true 100.
Proof. vm_compute. reflexivity. Qed.

(** C5 (as the code has it).  A constant line is analysed like any explicit
    curve: the closest point has the constant of the line as its fixed
    coordinate and, as its free coordinate, the midpoint of the interval that
    the golden-section search around the marble ends with; the tangent is the
    direction of the line, [(1, 0)] for [y = c] and [(0, 1)] for [x = c], and
    the curvature is 0.  In particular a marble at rest at [(0, 2)] on the line
    [y = 2], with an engine of default parameters and any gravity [g], is
    bound to the line after a step, whether it was bound before or not, and
    the tangent reported there is [(1, 0)]. *)
Theorem constant_lines (H : MathHost) (this : PhysicsEngine) (fuel : nat)
  (marble : Marble) (c g : float) (b : bool) (e : option Equation)
  (store : list Star) (stars : list nat) :
(51 <= fuel)%nat ->
JS.isFinite c = true -> JS.isFinite (2 * c) = true ->
(0 <? 2 * derivativeStep this) = true ->
(0 <? derivativeStep this * derivativeStep this) = true ->
Math_pow H 1 1.5 = 1 -> Math_atan2 H 0 1 = 0 ->
(exists st,
   goldenSearch fuel (distanceAtX (position marble) (fun _ => Some c))
     (Vector2D.x (position marble) - 3) (Vector2D.x (position marble) + 3) = Ret st /\
   let closest := Vector2D.mk ((g_a st + g_b st) / 2) c in
   analyzePathAtPoint H this fuel marble (parseConstantY c) =
     Ret (Some (mkPathInfo (parseConstantY c) closest
                  (Vector2D.distanceTo (position marble) (Vector2D.fromObject closest))
                  (Vector2D.mk 1 0) (Vector2D.mk (-0) 1) 0))) /\
(exists st,
   goldenSearch fuel (distanceAtY (position marble) (fun _ => Some c))
     (Vector2D.y (position marble) - 3) (Vector2D.y (position marble) + 3) = Ret st /\
   let closest := Vector2D.mk c ((g_a st + g_b st) / 2) in
   analyzePathAtPoint H this fuel marble (parseConstantX c) =
     Ret (Some (mkPathInfo (parseConstantX c) closest
                  (Vector2D.distanceTo (position marble) (Vector2D.fromObject closest))
                  (Vector2D.mk 0 1) (Vector2D.mk (-1) 0) 0))) /\
findNearestPath H (PhysicsEngine_withGravity g) fuel (set_path restingMarble b e) [lineY2]
  = Ret (Some lineY2_info) /\
tangent lineY2_info = Vector2D.mk 1 0 /\
exists marble' store' result,
  update H (PhysicsEngine_withGravity g) fuel (set_path restingMarble b e) 1 [lineY2]
    store stars = Ret (marble', store', result) /\
  onPath marble' = true /\ currentEquation marble' = Some lineY2.
Proof.
intros Hfuel Hc H2 Hstep Hstep2 Hpow Hatan.
split; [|split].
- apply (analyzeExplicitY_constant H this Hstep Hstep2 Hpow fuel (position marble)
           (parseConstantY c) c Hfuel Hc H2).
- apply (analyzeExplicitX_constant H this Hstep Hstep2 Hpow fuel (position marble)
           (parseConstantX c) c Hfuel Hc H2).
- destruct (lineY2_step H g fuel b e store stars Hpow Hatan Hfuel) as [Hpath Hup].
  split; [done|]. split; [done|]. exact Hup.
Qed.

(** The analysis of [y = 2] and [x = 2] from [(0, 0.05)], and the marble at
    rest on [y = 2] under the gravity [-1.5]. *)
Lemma constant_lines_witness :
(exists st,
   goldenSearch enoughFuel (distanceAtX (position nearMarble) (fun _ => Some 2))
     (Vector2D.x (position nearMarble) - 3) (Vector2D.x (position nearMarble) + 3)
     = Ret st /\
   let closest := Vector2D.mk ((g_a st + g_b st) / 2) 2 in
   analyzePathAtPoint RefHost.host PhysicsEngine_default enoughFuel nearMarble
     (parseConstantY 2) =
     Ret (Some (mkPathInfo (parseConstantY 2) closest
                  (Vector2D.distanceTo (position nearMarble) (Vector2D.fromObject closest))
                  (Vector2D.mk 1 0) (Vector2D.mk (-0) 1) 0))) /\
(exists st,
   goldenSearch enoughFuel (distanceAtY (position nearMarble) (fun _ => Some 2))
     (Vector2D.y (position nearMarble) - 3) (Vector2D.y (position nearMarble) + 3)
     = Ret st /\
   let closest := Vector2D.mk 2 ((g_a st + g_b st) / 2) in
   analyzePathAtPoint RefHost.host PhysicsEngine_default enoughFuel nearMarble
     (parseConstantX 2) =
     Ret (Some (mkPathInfo (parseConstantX 2) closest
                  (Vector2D.distanceTo (position nearMarble) (Vector2D.fromObject closest))
                  (Vector2D.mk 0 1) (Vector2D.mk (-1) 0) 0))) /\
findNearestPath RefHost.host (PhysicsEngine_withGravity (-1.5)) enoughFuel
  (set_path restingMarble true (Some lineY2)) [lineY2] = Ret (Some lineY2_info) /\
tangent lineY2_info = Vector2D.mk 1 0 /\
exists marble' store' result,
  update RefHost.host (PhysicsEngine_withGravity (-1.5)) enoughFuel
    (set_path restingMarble true (Some lineY2)) 1 [lineY2] [] []
    = Ret (marble', store', result) /\
  onPath marble' = true /\ currentEquation marble' = Some lineY2.
Proof.
apply (constant_lines RefHost.host PhysicsEngine_default enoughFuel nearMarble 2 (-1.5) true
         (Some lineY2) [] []); [unfold enoughFuel; lia|reflexivity..].
Defined.

(** C5 as stated fails: for the marble at [(0, 2)], which lies on the line
    [y = 2] and is its own perpendicular projection, the analysis reports a
    closest point whose abscissa is not 0, at a distance that is not 0. *)
Lemma constant_line_not_projection :
findNearestPath RefHost.host PhysicsEngine_default enoughFuel restingMarble [lineY2]
  = Ret (Some lineY2_info) /\
position restingMarble = Vector2D.mk 0 2 /\
closestPoint lineY2_info = Vector2D.mk lineY2_abscissa 2 /\
(lineY2_abscissa =? 0) = false /\
(distance lineY2_info =? 0) = false.
Proof. repeat split; by vm_compute. Qed.

(* ===================================================================== *)
(** * Binary64 arithmetic: the order of the comparisons                    *)
(* ===================================================================== *)

Section Order.
#[local] Open Scope Z_scope.

Lemma mantissa_lt_53 s m e :
valid_binary (S754_finite s m e) = true -> Zpos m < 2 ^ 53.
Proof.
intros (_ & Hd & _)%valid_finite.
pose proof (digits2_pos_bounds m) as [_ Hhi].
eapply Z.lt_le_trans; [exact Hhi|]. apply Z.pow_le_mono_r; lia.
Qed.

Lemma canonical_lt_strict s1 m1 e1 s2 m2 e2 :
valid_binary (S754_finite s1 m1 e1) = true ->
valid_binary (S754_finite s2 m2 e2) = true ->
e1 < e2 -> Zpos m1 * 2 ^ (e1 + 1074) < Zpos m2 * 2 ^ (e2 + 1074).
Proof.
intros Hv1 Hv2 Hlt.
pose proof (mantissa_lt_53 _ _ _ Hv1) as Hm1.
pose proof Hv1 as (He1 & _ & _)%valid_finite.
pose proof Hv2 as (He2 & _ & Hd2)%valid_finite.
pose proof (digits2_pos_bounds m2) as [Hlo _].
rewrite Hd2 in Hlo by lia. change (53 - 1) with 52 in Hlo.
pose proof (pow2_pos (e1 + 1074) ltac:(lia)) as Hw1.
pose proof (pow2_pos (e2 + 1074) ltac:(lia)) as Hw2.
assert (2 ^ 53 * 2 ^ (e1 + 1074) <= 2 ^ 52 * 2 ^ (e2 + 1074)) as Hmid.
{ rewrite <- !Z.pow_add_r by lia. apply Z.pow_le_mono_r; lia. }
assert (Zpos m1 * 2 ^ (e1 + 1074) < 2 ^ 53 * 2 ^ (e1 + 1074)) as H1
  by (apply Z.mul_lt_mono_pos_r; lia).
assert (2 ^ 52 * 2 ^ (e2 + 1074) <= Zpos m2 * 2 ^ (e2 + 1074)) as H2
  by (apply Z.mul_le_mono_nonneg_r; lia).
lia.
Qed.

Lemma Zv_finite_bounds s m e :
valid_binary (S754_finite s m e) = true ->
0 < Zpos m * 2 ^ (e + 1074) < 2 ^ 2100.
Proof.
intros Hv. pose proof (mantissa_lt_53 _ _ _ Hv) as Hm.
pose proof Hv as (He & _ & _)%valid_finite.
pose proof (pow2_pos (e + 1074) ltac:(lia)) as Hw.
split; [lia|].
assert (2 ^ (e + 1074) <= 2 ^ 2045) as Hp by (apply Z.pow_le_mono_r; lia).
assert (Zpos m * 2 ^ (e + 1074) < 2 ^ 53 * 2 ^ (e + 1074)) as H1
  by (apply Z.mul_lt_mono_pos_r; lia).
assert (2 ^ 53 * 2 ^ (e + 1074) <= 2 ^ 53 * 2 ^ 2045) as H2
  by (apply Z.mul_le_mono_nonneg_l; lia).
change (2 ^ 2100) with (2 ^ 53 * 2 ^ 2045 * 2 ^ 2).
pose proof (pow2_pos 2045 ltac:(lia)). nia.
Qed.

(** The comparison of two numbers is the comparison of their ranks. *)
Lemma SFcompare_ord x y :
valid_binary x = true -> valid_binary y = true ->
x <> S754_nan -> y <> S754_nan ->
SFcompare x y = Some (SFord x ?= SFord y).
Proof.
intros Hvx Hvy Hnx Hny.
pose proof (pow2_pos 2100 ltac:(lia)) as HB.
assert (forall c (a b : Z), (c = Eq /\ a = b) \/ (c = Lt /\ a < b) \/ (c = Gt /\ b < a) ->
          Some c = Some (a ?= b)) as Hcmp.
{ intros c a b [[-> ->]|[[-> Hlt]|[-> Hgt]]]; f_equal; symmetry;
    [apply Z.compare_refl|by apply Z.compare_lt_iff|by apply Z.compare_gt_iff]. }
destruct x as [sx|sx| |sx mx ex], y as [sy|sy| |sy my ey]; try done;
  try (pose proof (Zv_finite_bounds _ _ _ Hvx) as Hbx);
  try (pose proof (Zv_finite_bounds _ _ _ Hvy) as Hby);
  cbn [SFcompare SFord Zv cond_Zopp];
  try (solve [ (try destruct sx); (try destruct sy); cbn [cond_Zopp]; apply Hcmp;
               first [ left; split; [reflexivity|lia]
                     | right; left; split; [reflexivity|lia]
                     | right; right; split; [reflexivity|lia] ] ]).
- pose proof Hvx as (Hex & _)%valid_finite.
  pose proof Hvy as (Hey & _)%valid_finite.
  pose proof (pow2_pos (ey + 1074) ltac:(lia)) as Hwy.
  change (Pos.compare_cont Eq mx my) with (Pos.compare mx my).
  destruct sx, sy; cbn [cond_Zopp]; f_equal; symmetry.
  + destruct (Z.compare_spec ex ey) as [->|Hlt|Hgt].
    * destruct (Pos.compare_spec mx my) as [->|Hm|Hm]; cbn [CompOpp].
      -- apply Z.compare_eq_iff. lia.
      -- apply Z.compare_gt_iff.
         assert (Zpos mx * 2 ^ (ey + 1074) < Zpos my * 2 ^ (ey + 1074));
           [apply Z.mul_lt_mono_pos_r; lia|lia].
      -- apply Z.compare_lt_iff.
         assert (Zpos my * 2 ^ (ey + 1074) < Zpos mx * 2 ^ (ey + 1074));
           [apply Z.mul_lt_mono_pos_r; lia|lia].
    * apply Z.compare_gt_iff. pose proof (canonical_lt_strict _ _ _ _ _ _ Hvx Hvy Hlt). lia.
    * apply Z.compare_lt_iff. pose proof (canonical_lt_strict _ _ _ _ _ _ Hvy Hvx Hgt). lia.
  + apply Z.compare_lt_iff. lia.
  + apply Z.compare_gt_iff. lia.
  + destruct (Z.compare_spec ex ey) as [->|Hlt|Hgt].
    * destruct (Pos.compare_spec mx my) as [->|Hm|Hm].
      -- apply Z.compare_eq_iff. lia.
      -- apply Z.compare_lt_iff. apply Z.mul_lt_mono_pos_r; lia.
      -- apply Z.compare_gt_iff. apply Z.mul_lt_mono_pos_r; lia.
    * apply Z.compare_lt_iff. apply (canonical_lt_strict false _ _ false); done.
    * apply Z.compare_gt_iff. apply (canonical_lt_strict false _ _ false); done.
Qed.

End Order.

Lemma is_nan_false x : is_nan x = false -> Prim2SF x <> S754_nan.
Proof.
unfold is_nan. rewrite FloatAxioms.eqb_spec. intros Hn%negb_false_iff E.
rewrite E in Hn. done.
Qed.


(** The comparisons of two numbers, by their ranks. *)
Lemma ltb_ord x y :
(x <? y) = negb (is_nan x) && negb (is_nan y) && (ord x <? ord y)%Z.
Proof.
rewrite ltb_spec. unfold SFltb, ord.
destruct (is_nan x) eqn:Hx.
{ apply is_nan_spec in Hx. by rewrite Hx. }
destruct (is_nan y) eqn:Hy.
{ apply is_nan_spec in Hy. rewrite Hy. by destruct (Prim2SF x). }
rewrite SFcompare_ord by auto using Prim2SF_valid, is_nan_false.
cbn [negb andb]. unfold Z.ltb. by destruct (_ ?= _)%Z.
Qed.

Lemma leb_ord x y :
(x <=? y) = negb (is_nan x) && negb (is_nan y) && (ord x <=? ord y)%Z.
Proof.
rewrite leb_spec. unfold SFleb, ord.
destruct (is_nan x) eqn:Hx.
{ apply is_nan_spec in Hx. by rewrite Hx. }
destruct (is_nan y) eqn:Hy.
{ apply is_nan_spec in Hy. rewrite Hy. by destruct (Prim2SF x). }
rewrite SFcompare_ord by auto using Prim2SF_valid, is_nan_false.
cbn [negb andb]. unfold Z.leb. by destruct (_ ?= _)%Z.
Qed.

Lemma eqb_ord x y :
(x =? y) = negb (is_nan x) && negb (is_nan y) && (ord x =? ord y)%Z.
Proof.
rewrite FloatAxioms.eqb_spec. unfold SFeqb, ord.
destruct (is_nan x) eqn:Hx.
{ apply is_nan_spec in Hx. by rewrite Hx. }
destruct (is_nan y) eqn:Hy.
{ apply is_nan_spec in Hy. rewrite Hy. by destruct (Prim2SF x). }
rewrite SFcompare_ord by auto using Prim2SF_valid, is_nan_false.
cbn [negb andb]. rewrite Z.eqb_compare. by destruct (_ ?= _)%Z.
Qed.

(** Comparisons as statements about ranks. *)
Lemma ltb_true x y :
(x <? y) = true <-> is_nan x = false /\ is_nan y = false /\ (ord x < ord y)%Z.
Proof.
rewrite ltb_ord, !andb_true_iff, !negb_true_iff, Z.ltb_lt. tauto.
Qed.

Lemma leb_true x y :
(x <=? y) = true <-> is_nan x = false /\ is_nan y = false /\ (ord x <= ord y)%Z.
Proof.
rewrite leb_ord, !andb_true_iff, !negb_true_iff, Z.leb_le. tauto.
Qed.

Lemma ltb_false x y :
(x <? y) = false <-> is_nan x = true \/ is_nan y = true \/ (ord y <= ord x)%Z.
Proof.
rewrite ltb_ord, !andb_false_iff, !negb_false_iff, Z.ltb_ge. tauto.
Qed.

Lemma leb_false x y :
(x <=? y) = false <-> is_nan x = true \/ is_nan y = true \/ (ord y < ord x)%Z.
Proof.
rewrite leb_ord, !andb_false_iff, !negb_false_iff, Z.leb_gt. tauto.
Qed.

(** Decide a goal about comparisons from hypotheses about comparisons. *)
Ltac float_order :=
repeat match goal with
| H : (_ <? _) = true |- _ => apply ltb_true in H; destruct H as (? & ? & ?)
| H : (_ <=? _) = true |- _ => apply leb_true in H; destruct H as (? & ? & ?)
| H : (_ <? _) = false |- _ => apply ltb_false in H
| H : (_ <=? _) = false |- _ => apply leb_false in H
end;
repeat match goal with
| |- (_ <? _) = true => apply ltb_true
| |- (_ <=? _) = true => apply leb_true
| |- (_ <? _) = false => apply ltb_false
| |- (_ <=? _) = false => apply leb_false
end;
intuition (try congruence; try lia).

(* ===================================================================== *)
(** * World bounds                                                         *)
(* ===================================================================== *)

Section Boundary.

Variable this : PhysicsEngine.

Lemma applyBoundaryBounce_position marble bounds :
let px := Vector2D.x (position marble) in
let py := Vector2D.y (position marble) in
position (applyBoundaryBounce this marble bounds) =
  Vector2D.mk
    (if px <? minX bounds then minX bounds
     else if maxX bounds <? px then maxX bounds else px)
    (if py <? minY bounds then minY bounds
     else if maxY bounds <? py then maxY bounds else py).
Proof.
cbv zeta. unfold applyBoundaryBounce. destruct marble as [[px py] v r o c t cap a].
cbn [position Vector2D.x Vector2D.y].
destruct (px <? minX bounds); [|destruct (maxX bounds <? px)];
  cbn [set_x set_y set_position set_velocity position velocity Vector2D.x Vector2D.y];
  (destruct (py <? minY bounds); [|destruct (maxY bounds <? py)]); reflexivity.
Qed.

End Boundary.

(** X1.  After [applyBoundaryBounce] the marble is within the bounds, whenever
    the bounds are ordered ([minX <= maxX], [minY <= maxY]) and the position
    has no NaN coordinate; an infinite coordinate is brought back to the
    wall. *)
Theorem applyBoundaryBounce_within (this : PhysicsEngine) (marble : Marble) (bounds : Bounds) :
(minX bounds <=? maxX bounds) = true -> (minY bounds <=? maxY bounds) = true ->
is_nan (Vector2D.x (position marble)) = false ->
is_nan (Vector2D.y (position marble)) = false ->
checkBounds (applyBoundaryBounce this marble bounds) bounds = true.
Proof.
intros Hx Hy Hnx Hny. unfold checkBounds. cbv zeta.
rewrite applyBoundaryBounce_position. cbn [Vector2D.x Vector2D.y].
set (px := Vector2D.x (position marble)) in *.
set (py := Vector2D.y (position marble)) in *.
assert (forall lo hi p, (lo <=? hi) = true -> is_nan p = false ->
          let q := if p <? lo then lo else if hi <? p then hi else p in
          (lo <=? q) = true /\ (q <=? hi) = true) as Hclamp.
{ intros lo hi p Hle Hp. cbv zeta.
  destruct (p <? lo) eqn:H1; [|destruct (hi <? p) eqn:H2]; split; float_order. }
destruct (Hclamp _ _ px Hx Hnx) as [-> ->].
by destruct (Hclamp _ _ py Hy Hny) as [-> ->].
Qed.

Lemma applyBoundaryBounce_within_witness :
checkBounds
  (applyBoundaryBounce PhysicsEngine_default (Marble_new 13 (-20) MarbleConfig.empty)
     {| minX := -12; maxX := 12; minY := -15; maxY := 12 |})
  {| minX := -12; maxX := 12; minY := -15; maxY := 12 |} = true.
Proof.
apply (applyBoundaryBounce_within PhysicsEngine_default (Marble_new 13 (-20) MarbleConfig.empty)
         {| minX := -12; maxX := 12; minY := -15; maxY := 12 |}); reflexivity.
Defined.

(** X2.  [applyBoundaryBounce] leaves a marble that is within the bounds as it
    is: position and velocity are only touched beyond a wall. *)
Theorem applyBoundaryBounce_inside (this : PhysicsEngine) (marble : Marble) (bounds : Bounds) :
checkBounds marble bounds = true ->
applyBoundaryBounce this marble bounds = marble.
Proof.
unfold checkBounds. cbv zeta.
intros [[[H1 H2]%andb_true_iff H3]%andb_true_iff H4]%andb_true_iff.
unfold applyBoundaryBounce.
assert ((Vector2D.x (position marble) <? minX bounds) = false) as -> by float_order.
assert ((maxX bounds <? Vector2D.x (position marble)) = false) as -> by float_order.
assert ((Vector2D.y (position marble) <? minY bounds) = false) as -> by float_order.
assert ((maxY bounds <? Vector2D.y (position marble)) = false) as -> by float_order.
reflexivity.
Qed.

Lemma applyBoundaryBounce_inside_witness :
applyBoundaryBounce PhysicsEngine_default (Marble_new 3 4 MarbleConfig.empty)
  {| minX := -12; maxX := 12; minY := -15; maxY := 12 |} =
Marble_new 3 4 MarbleConfig.empty.
Proof.
apply (applyBoundaryBounce_inside PhysicsEngine_default (Marble_new 3 4 MarbleConfig.empty)
         {| minX := -12; maxX := 12; minY := -15; maxY := 12 |}); reflexivity.
Defined.

(* ===================================================================== *)
(** * Signs of products                                                    *)
(* ===================================================================== *)

Lemma sided_mul sx sy x y :
sided sx x = true -> sided sy y = true -> sided (xorb sx sy) (SF64mul x y) = true.
Proof.
destruct x as [sx'|sx'| |sx' mx ex], y as [sy'|sy'| |sy' my ey]; try done;
  unfold SF64mul; cbn [sided SFmul]; try (intros ->%eqb_prop); try (intros ->%eqb_prop);
  try apply eqb_reflx.
pose proof (binary_round_aux_sign (xorb sx' sy') (Zpos (mx * my)) (ex + ey) loc_Exact) as Hs.
destruct (binary_round_aux _ _ _ _ _ _) as [s|s| |s m e]; try done; subst s; apply eqb_reflx.
Qed.

Lemma sided_abs x : sided false (Prim2SF (abs x)) = true.
Proof. rewrite abs_spec. by destruct (Prim2SF x). Qed.

Lemma sided_opp s x : sided s (Prim2SF x) = true -> sided (negb s) (Prim2SF (- x)) = true.
Proof. rewrite opp_spec. destruct (Prim2SF x) as [| | |]; try done; by destruct s, s0. Qed.

Lemma sided_nonneg b : (0 <=? b) = true -> sided false (Prim2SF b) = true.
Proof.
rewrite leb_spec. change (Prim2SF 0) with (S754_zero false).
by destruct (Prim2SF b) as [|[]| |[] m e].
Qed.

Lemma sided_false_ltb x : sided false (Prim2SF x) = true -> (x <? 0) = false.
Proof.
rewrite ltb_spec. change (Prim2SF 0) with (S754_zero false).
by destruct (Prim2SF x) as [|[]| |[] m e].
Qed.

Lemma sided_true_ltb x : sided true (Prim2SF x) = true -> (0 <? x) = false.
Proof.
rewrite ltb_spec. change (Prim2SF 0) with (S754_zero false).
by destruct (Prim2SF x) as [|[]| |[] m e].
Qed.

Lemma bounce_back v c : (0 <=? c) = true -> (abs v * c <? 0) = false.
Proof.
intros Hc. apply sided_false_ltb. rewrite mul_spec.
apply (sided_mul false false); [apply sided_abs|by apply sided_nonneg].
Qed.

Lemma bounce_forth v c : (0 <=? c) = true -> (0 <? - abs v * c) = false.
Proof.
intros Hc. apply sided_true_ltb. rewrite mul_spec.
apply (sided_mul true false); [apply (sided_opp false), sided_abs|by apply sided_nonneg].
Qed.

Lemma applyBoundaryBounce_velocity this marble bounds :
let px := Vector2D.x (position marble) in
let py := Vector2D.y (position marble) in
let vx := Vector2D.x (velocity marble) in
let vy := Vector2D.y (velocity marble) in
velocity (applyBoundaryBounce this marble bounds) =
  Vector2D.mk
    (if px <? minX bounds then abs vx * bounceCoefficient this
     else if maxX bounds <? px then - abs vx * bounceCoefficient this else vx)
    (if py <? minY bounds then abs vy * bounceCoefficient this
     else if maxY bounds <? py then - abs vy * bounceCoefficient this else vy).
Proof.
cbv zeta. unfold applyBoundaryBounce. destruct marble as [[px py] [vx vy] r o c t cap a].
cbn [position velocity Vector2D.x Vector2D.y].
destruct (px <? minX bounds); [|destruct (maxX bounds <? px)];
  cbn [set_x set_y set_position set_velocity position velocity Vector2D.x Vector2D.y];
  (destruct (py <? minY bounds); [|destruct (maxY bounds <? py)]); reflexivity.
Qed.

(** X3.  With a bounce coefficient that is not negative, the velocity that
    [applyBoundaryBounce] gives a marble beyond a wall never points further
    out: its component is not negative after the lower walls and not positive
    after the upper ones (it can be zero or NaN). *)
Theorem applyBoundaryBounce_inward (this : PhysicsEngine) (marble : Marble) (bounds : Bounds) :
(0 <=? bounceCoefficient this) = true ->
let bounced := applyBoundaryBounce this marble bounds in
((Vector2D.x (position marble) <? minX bounds) = true ->
   (Vector2D.x (velocity bounced) <? 0) = false) /\
((Vector2D.x (position marble) <? minX bounds) = false ->
 (maxX bounds <? Vector2D.x (position marble)) = true ->
   (0 <? Vector2D.x (velocity bounced)) = false) /\
((Vector2D.y (position marble) <? minY bounds) = true ->
   (Vector2D.y (velocity bounced) <? 0) = false) /\
((Vector2D.y (position marble) <? minY bounds) = false ->
 (maxY bounds <? Vector2D.y (position marble)) = true ->
   (0 <? Vector2D.y (velocity bounced)) = false).
Proof.
intros Hc. cbv zeta. rewrite applyBoundaryBounce_velocity. cbn [Vector2D.x Vector2D.y].
repeat split.
- intros ->. by apply bounce_back.
- intros -> ->. by apply bounce_forth.
- intros ->. by apply bounce_back.
- intros -> ->. by apply bounce_forth.
Qed.

Lemma applyBoundaryBounce_inward_witness :
let this := PhysicsEngine_default in
let marble := Marble_new 13 (-20) MarbleConfig.empty in
let bounds := {| minX := -12; maxX := 12; minY := -15; maxY := 12 |} in
let bounced := applyBoundaryBounce this marble bounds in
((Vector2D.x (position marble) <? minX bounds) = true ->
   (Vector2D.x (velocity bounced) <? 0) = false) /\
((Vector2D.x (position marble) <? minX bounds) = false ->
 (maxX bounds <? Vector2D.x (position marble)) = true ->
   (0 <? Vector2D.x (velocity bounced)) = false) /\
((Vector2D.y (position marble) <? minY bounds) = true ->
   (Vector2D.y (velocity bounced) <? 0) = false) /\
((Vector2D.y (position marble) <? minY bounds) = false ->
 (maxY bounds <? Vector2D.y (position marble)) = true ->
   (0 <? Vector2D.y (velocity bounced)) = false).
Proof.
apply (applyBoundaryBounce_inward PhysicsEngine_default (Marble_new 13 (-20) MarbleConfig.empty)
         {| minX := -12; maxX := 12; minY := -15; maxY := 12 |}); reflexivity.
Defined.

(* ===================================================================== *)
(** * The trail and the untouched fields                                   *)
(* ===================================================================== *)

Lemma clone_id v : Vector2D.clone v = v.
Proof. by destruct v. Qed.

(** ** The number of a length *)

(** The number of a length is [+0] for 0, and otherwise a positive finite
    number within a relative error of [2^-51] (it is exact below [2^53]). *)
Lemma ofLength_value (n : nat) :
(Z.of_nat n < 2 ^ 63)%Z ->
is_nan (JS.ofLength n) = false /\
(Z.of_nat n * 2 ^ 1074 * (2 ^ 51 - 1) <= ord (JS.ofLength n) * 2 ^ 51)%Z /\
(ord (JS.ofLength n) * 2 ^ 51 <= Z.of_nat n * 2 ^ 1074 * (2 ^ 51 + 1))%Z.
Proof.
intros Hn. unfold ord, is_nan. rewrite FloatAxioms.eqb_spec.
unfold JS.ofLength. rewrite FloatAxioms.of_uint63_spec, Uint63.of_Z_spec.
rewrite Z.mod_small by (change Uint63Axioms.wB with (2 ^ 63)%Z; lia).
destruct (Z.of_nat n) as [|m|m] eqn:Hz; [by cbn| |lia].
cbn [binary_normalize].
destruct (binary_round_bounds false m 0) as (m' & e' & -> & He' & Hlo & Hhi); [lia| |].
{ change (0 + 1074)%Z with 1074%Z.
  assert (2 ^ 63 * 2 ^ 1074 <= 2 ^ 2045 - 1)%Z by (by vm_compute).
  pose proof (pow2_pos 1074 ltac:(lia)). nia. }
change (0 + 1074)%Z with 1074%Z in Hlo, Hhi.
split; [|split].
- cbn [SFeqb SFcompare]. rewrite Z.compare_refl, Pos.compare_cont_refl. done.
- cbn [SFord Zv cond_Zopp]. lia.
- cbn [SFord Zv cond_Zopp]. lia.
Qed.

(** Lengths compare as the natural numbers they are. *)
Lemma ofLength_lt (c n : nat) :
(Z.of_nat c < 2 ^ 50)%Z -> (Z.of_nat n < 2 ^ 63)%Z ->
(JS.ofLength c <? JS.ofLength n) = (c <? n)%nat.
Proof.
intros Hc Hn.
destruct (ofLength_value c) as (Hnc & Hcl & Hch); [lia|].
destruct (ofLength_value n) as (Hnn & Hnl & Hnh); [lia|].
rewrite ltb_ord, Hnc, Hnn. cbn [negb andb].
pose proof (pow2_pos 1074 ltac:(lia)) as HU.
set (U := (2 ^ 1074)%Z) in *. set (oc := ord (JS.ofLength c)) in *.
set (on := ord (JS.ofLength n)) in *.
destruct (Nat.ltb_spec c n) as [Hlt|Hge].
- apply Z.ltb_lt.
  assert (Z.of_nat c * U * (2 ^ 51 + 1) < Z.of_nat n * U * (2 ^ 51 - 1))%Z; [|lia].
  assert (Z.of_nat c * (2 ^ 51 + 1) < Z.of_nat n * (2 ^ 51 - 1))%Z by lia.
  nia.
- apply Z.ltb_ge.
  destruct (decide (n = c)) as [->|Hne]; [subst oc on; lia|].
  assert (Z.of_nat n * U * (2 ^ 51 + 1) < Z.of_nat c * U * (2 ^ 51 - 1))%Z; [|lia].
  assert (Z.of_nat n * (2 ^ 51 + 1) < Z.of_nat c * (2 ^ 51 - 1))%Z by lia.
  nia.
Qed.

(** A negative number is below every length. *)
Lemma ofLength_above_negative cap (n : nat) :
(cap <? 0) = true -> (cap <? JS.ofLength n) = true.
Proof.
intros (Hnc & _ & Hord)%ltb_true. change (ord 0) with 0%Z in Hord.
apply ltb_true. split; [done|].
unfold JS.ofLength, ord, is_nan. rewrite FloatAxioms.eqb_spec, FloatAxioms.of_uint63_spec.
pose proof (Uint63.to_Z_bounded (Uint63.of_Z (Z.of_nat n))) as [Hlo Hhi].
destruct (Uint63Axioms.to_Z _) as [|m|m] eqn:Hz;
  [split; [done|cbn; unfold ord in Hord; lia]| |lia].
cbn [binary_normalize].
destruct (binary_round_bounds false m 0) as (m' & e' & -> & He' & Hlo' & Hhi'); [lia| |].
{ change (0 + 1074)%Z with 1074%Z. change Uint63Axioms.wB with (2 ^ 63)%Z in Hhi.
  assert (2 ^ 63 * 2 ^ 1074 <= 2 ^ 2045 - 1)%Z by (by vm_compute).
  pose proof (pow2_pos 1074 ltac:(lia)). nia. }
split.
- cbn [SFeqb SFcompare]. rewrite Z.compare_refl, Pos.compare_cont_refl. done.
- cbn [SFord Zv cond_Zopp]. pose proof (pow2_pos (e' + 1074) ltac:(lia)).
  unfold ord in Hord. nia.
Qed.

(** ** What the trail loop leaves *)

Lemma trimmed_end cap l : exists k, trimmed cap l = drop k l.
Proof.
induction l as [|p rest [k IH]]; [by exists 0%nat|]. cbn [trimmed].
destruct (cap <? _); [exists (S k)|exists 0%nat]; done.
Qed.

(** The test of the loop fails on what it leaves. *)
Lemma trimmed_fits cap l :
(cap <? 0) = false -> (cap <? JS.ofLength (length (trimmed cap l))) = false.
Proof.
intros Hcap. induction l as [|p rest IH]; [done|]. cbn [trimmed].
by destruct (cap <? JS.ofLength (length (p :: rest))) eqn:Ht.
Qed.

(** With room for one entry the newest entry stays. *)
Lemma trimmed_last cap l :
(cap <? 1) = false -> l <> [] -> last (trimmed cap l) = last l.
Proof.
intros Hcap. induction l as [|p [|q rest] IH]; intros Hne; [done| |].
- cbn [trimmed length]. change (JS.ofLength 1) with 1. by rewrite Hcap.
- change (trimmed cap (p :: q :: rest))
    with (if cap <? JS.ofLength (length (p :: q :: rest))
          then trimmed cap (q :: rest) else p :: q :: rest).
  destruct (cap <? JS.ofLength (length (p :: q :: rest))); [|done].
  rewrite IH by done. reflexivity.
Qed.

(** A capacity that is not a number never shortens the trail. *)
Lemma trimmed_nan cap l : is_nan cap = true -> trimmed cap l = l.
Proof.
intros Hnan. destruct l as [|p rest]; [done|]. cbn [trimmed].
replace (cap <? _) with false; [done|]. symmetry. apply ltb_false. by left.
Qed.

(** A capacity that is a natural number keeps that many of the newest
    entries. *)
Lemma trimmed_natural (c : nat) l :
(Z.of_nat c < 2 ^ 50)%Z -> (Z.of_nat (length l) < 2 ^ 63)%Z ->
trimmed (JS.ofLength c) l = drop (length l - c) l.
Proof.
intros Hc. induction l as [|p rest IH]; intros Hl; [done|]. cbn [trimmed].
rewrite ofLength_lt by done.
destruct (Nat.ltb_spec c (length (p :: rest))) as [Hlt|Hge].
- rewrite IH by (cbn [length] in Hl; lia). cbn [length] in *.
  replace (S (length rest) - c)%nat with (S (length rest - c)) by lia. done.
- replace (length (p :: rest) - c)%nat with 0%nat by lia. done.
Qed.

Lemma trailUpdated_trail marble :
trail (trailUpdated marble) =
  trimmed (maxTrailLength marble) (trail marble ++ [position marble]).
Proof. unfold trailUpdated. cbn [trail set_trail]. by rewrite clone_id. Qed.

(** ** The trail loop on a negative capacity *)

(** The test of the loop holds on every trail, the empty one included, so
    the loop uses up every budget. *)
Lemma shiftWhileLonger_runs_on cap :
(cap <? 0) = true -> forall fuel l, shiftWhileLonger fuel cap l = Timeout.
Proof.
intros Hcap. unfold shiftWhileLonger. induction fuel as [|fuel IH]; intros l; [done|].
cbn [loop]. unfold shiftBody. rewrite ofLength_above_negative by done. cbn [bind].
apply IH.
Qed.

Lemma update_runs_on (H : MathHost) (this : PhysicsEngine) (fuel : nat) (marble : Marble)
  (dt : float) (equations : list Equation) (store : list Star) (stars : list nat)
  (pathInfo : option PathInfo) :
findNearestPath H this fuel marble equations = Ret pathInfo ->
(maxTrailLength marble <? 0) = true ->
update H this fuel marble dt equations store stars = Timeout.
Proof.
intros Hp Hcap. unfold update. rewrite Hp. cbn [bind].
pose proof (afterMove_frame H this marble (dt * timeScale this) pathInfo)
  as [(_ & Hc & _) _].
unfold afterMove in Hc.
destruct (updatePathState H this marble (dt * timeScale this) pathInfo)
  as [[marble1 attached] detached]. cbn [fst] in Hc.
destruct (collectStars (integratePosition marble1 (dt * timeScale this)) store stars [])
  as [store' collected].
unfold updateTrail. rewrite shiftWhileLonger_runs_on; [done|]. by rewrite Hc.
Qed.

(** X4.  [updateTrail] with a capacity that is a natural number [c]: it
    appends the current position and keeps the newest [c] entries, so that
    the trail becomes the end of the old trail followed by the position, of
    length [min (length + 1) c]; nothing else of the marble changes. *)
Theorem updateTrail_keeps_newest (fuel : nat) (marble : Marble) (c : nat) :
maxTrailLength marble = JS.ofLength c -> (Z.of_nat c < 2 ^ 50)%Z ->
(Z.of_nat (length (trail marble)) < 2 ^ 32)%Z ->
(length (trail marble) + 2 <= fuel)%nat ->
exists marble',
  updateTrail fuel marble = Ret marble' /\
  trail marble' =
    drop (S (length (trail marble)) - c) (trail marble ++ [position marble]) /\
  length (trail marble') = Nat.min (S (length (trail marble))) c /\
  marble' = set_trail marble (trail marble').
Proof.
intros Hcap Hc Hlen Hfuel.
assert ((maxTrailLength marble <? 0) = false) as Hpos.
{ rewrite Hcap. change 0 with (JS.ofLength 0). rewrite ofLength_lt; [done|lia|lia]. }
exists (trailUpdated marble). split; [by apply updateTrail_ends|].
assert (trail (trailUpdated marble) =
        drop (S (length (trail marble)) - c) (trail marble ++ [position marble])) as Ht.
{ rewrite trailUpdated_trail, Hcap, trimmed_natural; [|done|rewrite length_app; cbn [length]; lia].
  rewrite length_app. cbn [length].
  by replace (length (trail marble) + 1)%nat with (S (length (trail marble))) by lia. }
split; [done|]. split; [|done].
rewrite Ht, length_drop, length_app. cbn [length]. lia.
Qed.

Lemma updateTrail_keeps_newest_witness :
exists marble',
  updateTrail 8 (set_trail (Marble_new 3 0 {| MarbleConfig.vx := None; MarbleConfig.vy := None;
                                             MarbleConfig.radius := None;
                                             MarbleConfig.maxTrailLength := Some 2 |})
                   [Vector2D.mk 1 0; Vector2D.mk 2 0]) = Ret marble' /\
  trail marble' = drop (S 2 - 2) ([Vector2D.mk 1 0; Vector2D.mk 2 0] ++ [Vector2D.mk 3 0]) /\
  length (trail marble') = Nat.min (S 2) 2 /\
  marble' = set_trail (set_trail (Marble_new 3 0 {| MarbleConfig.vx := None;
                                                    MarbleConfig.vy := None;
                                                    MarbleConfig.radius := None;
                                                    MarbleConfig.maxTrailLength := Some 2 |})
                         [Vector2D.mk 1 0; Vector2D.mk 2 0]) (trail marble').
Proof.
apply (updateTrail_keeps_newest 8
         (set_trail (Marble_new 3 0 {| MarbleConfig.vx := None; MarbleConfig.vy := None;
                                       MarbleConfig.radius := None;
                                       MarbleConfig.maxTrailLength := Some 2 |})
            [Vector2D.mk 1 0; Vector2D.mk 2 0]) 2);
  [reflexivity|reflexivity|reflexivity|cbn; lia].
Defined.

Section Frame.

Variable H : MathHost.
Variable this : PhysicsEngine.

Lemma finishUpdate_frame marble scaledDt pathInfo store stars :
let marble' := fst (fst (finishUpdate H this marble scaledDt pathInfo store stars)) in
sameBody marble marble' /\
position marble' = position (afterMove H this marble scaledDt pathInfo) /\
trail marble' = trimmed (maxTrailLength marble) (trail marble ++ [position marble']).
Proof.
cbv zeta. rewrite finishUpdate_marble.
destruct (afterMove_frame H this marble scaledDt pathInfo) as [(Hr & Hc & Ha) Ht].
destruct (clampMinVelocity_frame this (trailUpdated (afterMove H this marble scaledDt pathInfo)))
  as [(Hr' & Hc' & Ha') Ht'].
rewrite clampMinVelocity_position. cbn [trailUpdated set_trail position].
split; [|split; [done|]].
- unfold sameBody. rewrite Hr', Hc', Ha'. done.
- rewrite Ht', trailUpdated_trail, Ht, Hc. done.
Qed.

End Frame.

(** X5.  An update step never changes the marble's radius, its trail capacity
    or its [active] flag. *)
Theorem update_keeps_body (H : MathHost) (this : PhysicsEngine) (fuel : nat)
  (marble : Marble) (dt : float) (equations : list Equation)
  (store : list Star) (stars : list nat) :
atan2_in_range H -> (enoughFuel <= fuel)%nat ->
(length (trail marble) + 2 <= fuel)%nat -> (maxTrailLength marble <? 0) = false ->
exists marble' store' result,
  update H this fuel marble dt equations store stars = Ret (marble', store', result) /\
  radius marble' = radius marble /\
  maxTrailLength marble' = maxTrailLength marble /\
  active marble' = active marble.
Proof.
intros Hhost Hfuel Htrail Hcap.
destruct (update_returns H this Hhost fuel Hfuel marble dt equations store stars
            Htrail Hcap)
  as (pathInfo & _ & Hup).
pose proof (finishUpdate_frame H this marble (dt * timeScale this) pathInfo store stars)
  as [Hb _].
destruct (finishUpdate H this marble (dt * timeScale this) pathInfo store stars)
  as [[marble' store'] result]. by exists marble', store', result.
Qed.

Lemma update_keeps_body_witness :
exists marble' store' result,
  update RefHost.host PhysicsEngine_default enoughFuel nearMarble 1
    [parseConstantY 0] [exampleStar] [0%nat] = Ret (marble', store', result) /\
  radius marble' = radius nearMarble /\
  maxTrailLength marble' = maxTrailLength nearMarble /\
  active marble' = active nearMarble.
Proof.
apply (update_keeps_body RefHost.host PhysicsEngine_default enoughFuel nearMarble 1
         [parseConstantY 0] [exampleStar] [0%nat] refHost_atan2_in_range (le_n enoughFuel));
  [vm_compute; lia|reflexivity].
Defined.

(** X6.  After an update step the trail is an end of the old trail followed
    by the new position, and the test of the trail loop,
    [length > maxTrailLength], fails on it.  Its last entry is the marble's
    position unless [maxTrailLength] is below 1.  A capacity that is a natural
    number [c] leaves the newest [c] entries, hence at most [c]; a capacity
    that is not a number drops nothing.  (The step returns because the
    capacity is not negative.) *)
Theorem update_trail (H : MathHost) (this : PhysicsEngine) (fuel : nat)
  (marble : Marble) (dt : float) (equations : list Equation)
  (store : list Star) (stars : list nat) :
atan2_in_range H -> (enoughFuel <= fuel)%nat ->
(length (trail marble) + 2 <= fuel)%nat -> (maxTrailLength marble <? 0) = false ->
exists marble' store' result,
  update H this fuel marble dt equations store stars = Ret (marble', store', result) /\
  (exists k, trail marble' = drop k (trail marble ++ [position marble'])) /\
  (maxTrailLength marble <? JS.ofLength (length (trail marble'))) = false /\
  ((maxTrailLength marble <? 1) = false -> last (trail marble') = Some (position marble')) /\
  (is_nan (maxTrailLength marble) = true ->
     trail marble' = trail marble ++ [position marble']) /\
  (forall c : nat,
     maxTrailLength marble = JS.ofLength c -> (Z.of_nat c < 2 ^ 50)%Z ->
     (Z.of_nat (length (trail marble)) < 2 ^ 32)%Z ->
     trail marble' =
       drop (S (length (trail marble)) - c) (trail marble ++ [position marble']) /\
     (length (trail marble') <= c)%nat).
Proof.
intros Hhost Hfuel Htrail Hcap.
destruct (update_returns H this Hhost fuel Hfuel marble dt equations store stars Htrail Hcap)
  as (pathInfo & _ & Hup).
pose proof (finishUpdate_frame H this marble (dt * timeScale this) pathInfo store stars)
  as (_ & _ & Ht).
destruct (finishUpdate H this marble (dt * timeScale this) pathInfo store stars)
  as [[marble' store'] result]. cbn [fst] in Ht.
exists marble', store', result. split; [done|]. rewrite Ht.
split; [apply trimmed_end|]. split; [by apply trimmed_fits|]. split; [|split].
- intros H1. rewrite trimmed_last; [|done|by destruct (trail marble)].
  by rewrite last_snoc.
- apply trimmed_nan.
- intros c Hc Hc50 Hlen.
  assert (trimmed (maxTrailLength marble) (trail marble ++ [position marble']) =
          drop (S (length (trail marble)) - c) (trail marble ++ [position marble'])) as Hd.
  { rewrite Hc, trimmed_natural; [|done|rewrite length_app; cbn [length]; lia].
    rewrite length_app. cbn [length].
    by replace (length (trail marble) + 1)%nat with (S (length (trail marble))) by lia. }
  split; [done|]. rewrite Hd, length_drop, length_app. cbn [length]. lia.
Qed.

Lemma update_trail_witness :
exists marble' store' result,
  update RefHost.host PhysicsEngine_default enoughFuel nearMarble 1
    [parseConstantY 0] [exampleStar] [0%nat] = Ret (marble', store', result) /\
  (exists k, trail marble' = drop k (trail nearMarble ++ [position marble'])) /\
  (maxTrailLength nearMarble <? JS.ofLength (length (trail marble'))) = false /\
  ((maxTrailLength nearMarble <? 1) = false ->
     last (trail marble') = Some (position marble')) /\
  (is_nan (maxTrailLength nearMarble) = true ->
     trail marble' = trail nearMarble ++ [position marble']) /\
  (forall c : nat,
     maxTrailLength nearMarble = JS.ofLength c -> (Z.of_nat c < 2 ^ 50)%Z ->
     (Z.of_nat (length (trail nearMarble)) < 2 ^ 32)%Z ->
     trail marble' =
       drop (S (length (trail nearMarble)) - c) (trail nearMarble ++ [position marble']) /\
     (length (trail marble') <= c)%nat).
Proof.
apply (update_trail RefHost.host PhysicsEngine_default enoughFuel nearMarble 1
         [parseConstantY 0] [exampleStar] [0%nat] refHost_atan2_in_range (le_n enoughFuel));
  [vm_compute; lia|reflexivity].
Defined.

(** X7.  The legacy entry point [marble.update] runs one engine step with
    [dt = 1] and then records the position once more, shortening the trail by
    at most one entry and touching nothing but the trail.  The test
    [length > maxTrailLength] fails on the trail it leaves, so that a capacity
    that is a natural number [c] leaves at most [c] entries; unless
    [maxTrailLength] is below 2 the last two entries are both the new
    position.  (The step returns because the capacity is not negative.) *)
Theorem Marble_update_trail (H : MathHost) (physics : PhysicsEngine) (fuel : nat)
  (marble : Marble) (stars : option (list nat)) (equations : list Equation)
  (store : list Star) :
atan2_in_range H -> (enoughFuel <= fuel)%nat ->
(length (trail marble) + 2 <= fuel)%nat -> (maxTrailLength marble <? 0) = false ->
exists marble1 store1 result marble',
  update H physics fuel marble 1 equations store (JS.nullish stars []) =
    Ret (marble1, store1, result) /\
  Marble_update H physics fuel marble stars equations store = Ret (marble', store1) /\
  marble' = set_trail marble1 (trail marble') /\
  (maxTrailLength marble <? JS.ofLength (length (trail marble'))) = false /\
  ((maxTrailLength marble <? 2) = false ->
     exists older, trail marble' = older ++ [position marble1; position marble1]) /\
  (forall c : nat,
     maxTrailLength marble = JS.ofLength c -> (Z.of_nat c < 2 ^ 50)%Z ->
     (Z.of_nat (length (trail marble)) < 2 ^ 32)%Z ->
     (length (trail marble') <= c)%nat).
Proof.
intros Hhost Hfuel Htrail Hcap.
destruct (update_returns H physics Hhost fuel Hfuel marble 1 equations store
            (JS.nullish stars []) Htrail Hcap) as (pathInfo & _ & Hup).
pose proof (finishUpdate_frame H physics marble (1 * timeScale physics) pathInfo store
              (JS.nullish stars [])) as ((_ & Hc & _) & _ & Ht).
unfold Marble_update. rewrite Hup.
destruct (finishUpdate H physics marble (1 * timeScale physics) pathInfo store
            (JS.nullish stars [])) as [[marble1 store1] result]. cbn [fst] in Hc, Ht.
cbn [bind].
replace (Vector2D.mk (Vector2D.x (position marble1)) (Vector2D.y (position marble1)))
  with (position marble1) by (by destruct (position marble1)).
set (p1 := position marble1) in *. set (cap := maxTrailLength marble) in *.
cbn [set_trail trail maxTrailLength]. rewrite Hc.
set (kept := if cap <? JS.ofLength (length (trail marble1 ++ [p1]))
             then tail (trail marble1 ++ [p1]) else trail marble1 ++ [p1]).
assert (length (trail marble1 ++ [p1]) = S (length (trail marble1))) as Hlenp.
{ rewrite length_app. cbn [length]. lia. }
assert ((cap <? JS.ofLength (length kept)) = false) as Hfits.
{ subst kept. destruct (cap <? JS.ofLength (length (trail marble1 ++ [p1]))) eqn:Htest; [|done].
  replace (length (tail (trail marble1 ++ [p1]))) with (length (trail marble1))
    by (destruct (trail marble1 ++ [p1]); cbn [tail length] in *; lia).
  rewrite Ht. by apply trimmed_fits. }
exists marble1, store1, result, (set_trail marble1 kept).
split; [done|]. split.
{ subst kept. by destruct (cap <? JS.ofLength (length (trail marble1 ++ [p1]))). }
cbn [set_trail trail]. split; [done|]. split; [done|]. split.
- intros H2.
  assert ((cap <? 1) = false) as H1.
  { apply ltb_false in H2. apply ltb_false. destruct H2 as [?|[?|Hord]]; [by left|done|].
    right. right. assert (ord 1 <= ord 2)%Z by (apply Z.leb_le; by vm_compute). lia. }
  assert (exists older, trail marble1 = older ++ [p1]) as [older Holder].
  { assert (last (trail marble1) = Some p1) as Hlast.
    { rewrite Ht, trimmed_last; [|done|by destruct (trail marble)]. by rewrite last_snoc. }
    by apply last_Some in Hlast. }
  subst kept. rewrite Holder, <- app_assoc. cbn [app].
  destruct (cap <? JS.ofLength (length (older ++ [p1; p1]))) eqn:Htest; [|by exists older].
  destruct older as [|p older]; [|by exists older].
  cbn [app length] in Htest. change (JS.ofLength 2) with 2 in Htest. congruence.
- intros c Hcc Hc50 Hlen. rewrite Hcc, ofLength_lt in Hfits.
  + apply Nat.ltb_ge in Hfits. done.
  + done.
  + assert (length kept <= S (length (trail marble1)))%nat as Hk.
    { subst kept. destruct (cap <? JS.ofLength (length (trail marble1 ++ [p1]))); [|lia].
      destruct (trail marble1 ++ [p1]); cbn [tail length] in *; lia. }
    assert (length (trail marble1) <= S (length (trail marble)))%nat as Hk1.
    { rewrite Ht. destruct (trimmed_end cap (trail marble ++ [p1])) as [k ->].
      rewrite length_drop, length_app. cbn [length]. lia. }
    lia.
Qed.

Lemma Marble_update_trail_witness :
exists marble1 store1 result marble',
  update RefHost.host PhysicsEngine_default enoughFuel nearMarble 1 [parseConstantY 0]
    [exampleStar] (JS.nullish (Some [0%nat]) []) = Ret (marble1, store1, result) /\
  Marble_update RefHost.host PhysicsEngine_default enoughFuel nearMarble (Some [0%nat])
    [parseConstantY 0] [exampleStar] = Ret (marble', store1) /\
  marble' = set_trail marble1 (trail marble') /\
  (maxTrailLength nearMarble <? JS.ofLength (length (trail marble'))) = false /\
  ((maxTrailLength nearMarble <? 2) = false ->
     exists older, trail marble' = older ++ [position marble1; position marble1]) /\
  (forall c : nat,
     maxTrailLength nearMarble = JS.ofLength c -> (Z.of_nat c < 2 ^ 50)%Z ->
     (Z.of_nat (length (trail nearMarble)) < 2 ^ 32)%Z ->
     (length (trail marble') <= c)%nat).
Proof.
apply (Marble_update_trail RefHost.host PhysicsEngine_default enoughFuel nearMarble
         (Some [0%nat]) [parseConstantY 0] [exampleStar]
         refHost_atan2_in_range (le_n enoughFuel)); [vm_compute; lia|reflexivity].
Defined.

(* ===================================================================== *)
(** * Totality and termination                                             *)
(* ===================================================================== *)

(** On a negative capacity [update] returns nothing, whatever the budget. *)
Lemma update_never_returns (H : MathHost) (this : PhysicsEngine) (fuel : nat)
  (marble : Marble) (dt : float) (equations : list Equation) (store : list Star)
  (stars : list nat) r :
(maxTrailLength marble <? 0) = true ->
update H this fuel marble dt equations store stars <> Ret r.
Proof.
intros Hcap.
destruct (findNearestPath H this fuel marble equations) as [pathInfo| |] eqn:Hp.
- by rewrite (update_runs_on H this fuel marble dt equations store stars pathInfo Hp Hcap).
- unfold update. by rewrite Hp.
- unfold update. by rewrite Hp.
Qed.

(** ** A value that is not a number *)






(** ** The gradient descent and the evaluator *)






(** C9 (as the code has it).  Every closest-point search ends within a fixed
    number of turns: the golden-section loop after at most 50 turns, and when
    it ends either the interval is within the tolerance 0.001 or 50 turns were
    made; the gradient descent after at most 20 steps; the parametric scan
    after its 126 sample points; the polar scan within the budget.  Hence
    [update] returns, unless the capacity of the trail is negative: then the
    trail loop uses up every budget. *)
Theorem searches_terminate (H : MathHost) (this : PhysicsEngine) (fuel : nat)
  (marble : Marble) (dt : float) (equations : list Equation)
  (store : list Star) (stars : list nat)
  (pos : Vector2D) (f fx fy : float -> option float) (f2 : float -> float -> option float)
  (lo hi : float) :
atan2_in_range H -> (enoughFuel <= fuel)%nat -> (length (trail marble) + 2 <= fuel)%nat ->
(forall n, (51 <= n)%nat ->
   (exists st, goldenSearch n (distanceAtX pos f) lo hi = Ret st /\
      (iterations st <= 50)%nat /\
      ((tolerance <? abs (g_b st - g_a st)) = false \/ iterations st = 50%nat)) /\
   (exists st, goldenSearch n (distanceAtY pos f) lo hi = Ret st /\
      (iterations st <= 50)%nat /\
      ((tolerance <? abs (g_b st - g_a st)) = false \/ iterations st = 50%nat))) /\
(forall n, (21 <= n)%nat -> returns (findClosestPointImplicit this n pos f2)) /\
(scanTurns 127 0 (2 * JS.Math_PI) = Some 126%nat /\
 forall n, (127 <= n)%nat ->
   returns (loop n (parametricBody pos fx fy) (0, infinity, 0))) /\
(let marbleTheta := Math_atan2 H (Vector2D.y pos) (Vector2D.x pos) in
 (exists k, (k < enoughFuel)%nat /\
    scanTurns enoughFuel (marbleTheta - JS.Math_PI) (marbleTheta + JS.Math_PI) = Some k) /\
 forall n, (enoughFuel <= n)%nat ->
   returns (loop n (polarBody H pos f marbleTheta)
              (marbleTheta - JS.Math_PI, infinity, marbleTheta))) /\
returns (findNearestPath H this fuel marble equations) /\
(if maxTrailLength marble <? 0
 then update H this fuel marble dt equations store stars = Timeout
 else returns (update H this fuel marble dt equations store stars)).
Proof.
intros Hhost Hfuel Htrail. repeat split.
- apply goldenSearch_returns; [apply distanceAtX_returns|done].
- apply goldenSearch_returns; [apply distanceAtY_returns|done].
- intros n Hn. by apply findClosestPointImplicit_returns.
- intros n Hn. eapply parametricScan_returns; [exact parametricScan_turns|lia].
- apply (polarScan_turns H Hhost).
- intros n Hn.
  destruct (polarScan_turns H Hhost (Vector2D.y pos) (Vector2D.x pos)) as (k & Hk & Hturns).
  eapply polarScan_returns; [exact Hturns|lia].
- by apply findNearestPath_returns.
- destruct (maxTrailLength marble <? 0) eqn:Hcap.
  + destruct (findNearestPath_returns H this Hhost fuel Hfuel marble equations)
      as [pathInfo Hp].
    by apply (update_runs_on H this fuel marble dt equations store stars pathInfo).
  + destruct (update_returns H this Hhost fuel Hfuel marble dt equations store stars
                Htrail Hcap) as (pathInfo & _ & ->). by eexists.
Qed.

Lemma searches_terminate_witness :
(forall n, (51 <= n)%nat ->
   (exists st, goldenSearch n (distanceAtX (position restingMarble) (fun _ => Some 2))
                 (-3) 3 = Ret st /\
      (iterations st <= 50)%nat /\
      ((tolerance <? abs (g_b st - g_a st)) = false \/ iterations st = 50%nat)) /\
   (exists st, goldenSearch n (distanceAtY (position restingMarble) (fun _ => Some 2))
                 (-3) 3 = Ret st /\
      (iterations st <= 50)%nat /\
      ((tolerance <? abs (g_b st - g_a st)) = false \/ iterations st = 50%nat))) /\
(forall n, (21 <= n)%nat ->
   returns (findClosestPointImplicit PhysicsEngine_default n (position restingMarble)
              (fun x y => Some (x * x + y * y - 4)))) /\
(scanTurns 127 0 (2 * JS.Math_PI) = Some 126%nat /\
 forall n, (127 <= n)%nat ->
   returns (loop n (parametricBody (position restingMarble)
                      (fun t => Some t) (fun t => Some (t * t))) (0, infinity, 0))) /\
(let marbleTheta :=
   Math_atan2 RefHost.host (Vector2D.y (position restingMarble))
     (Vector2D.x (position restingMarble)) in
 (exists k, (k < enoughFuel)%nat /\
    scanTurns enoughFuel (marbleTheta - JS.Math_PI) (marbleTheta + JS.Math_PI) = Some k) /\
 forall n, (enoughFuel <= n)%nat ->
   returns (loop n (polarBody RefHost.host (position restingMarble) (fun _ => Some 2)
                      marbleTheta)
              (marbleTheta - JS.Math_PI, infinity, marbleTheta))) /\
returns (findNearestPath RefHost.host PhysicsEngine_default enoughFuel restingMarble
           [polar (fun _ => Some 2)]) /\
returns (update RefHost.host PhysicsEngine_default enoughFuel restingMarble 1
           [polar (fun _ => Some 2)] [exampleStar] [0%nat]).
Proof.
apply (searches_terminate RefHost.host PhysicsEngine_default enoughFuel restingMarble 1
         [polar (fun _ => Some 2)] [exampleStar] [0%nat] (position restingMarble)
         (fun _ => Some 2) (fun t => Some t) (fun t => Some (t * t))
         (fun x y => Some (x * x + y * y - 4)) (-3) 3
         refHost_atan2_in_range (le_n enoughFuel)).
vm_compute. lia.
Defined.

(** C9 as stated fails: not every update step returns.  For a marble whose
    trail capacity is [-1] the searches end, on a line and on a polar curve,
    and yet the step returns with no budget: the test of the trail loop,
    [length > -1], holds on every trail. *)
Lemma trail_loop_never_ends :
maxTrailLength stuckMarble = -1 /\
(forall fuel, (enoughFuel <= fuel)%nat ->
   returns (findNearestPath RefHost.host PhysicsEngine_default fuel stuckMarble
              [lineY2; polar (fun _ => Some 2)])) /\
(forall fuel r,
   update RefHost.host PhysicsEngine_default fuel stuckMarble 1
     [lineY2; polar (fun _ => Some 2)] [] [] <> Ret r).
Proof.
split; [done|]. split.
- intros fuel Hfuel.
  apply (findNearestPath_returns RefHost.host PhysicsEngine_default
           refHost_atan2_in_range fuel Hfuel).
- intros fuel r. by apply update_never_returns.
Qed.

(* ===================================================================== *)
(** * The nearest path                                                     *)
(* ===================================================================== *)

(** Case analysis on the calls and tests of a hypothesis about a completion. *)
Ltac run_hyp Hyp :=
repeat match type of Hyp with
| context [call ?r] => destruct r; cbn [call bind try_catch] in Hyp
| context [bind ?c _] => destruct c eqn:?; cbn [bind try_catch] in Hyp
| context [if ?c then _ else _] => destruct c; cbn [bind try_catch] in Hyp
| context [let '(_, _) := ?p in _] => destruct p; cbn [bind try_catch] in Hyp
end; try done.

Section Nearest.

Variable H : MathHost.
Variable this : PhysicsEngine.
Variable fuel : nat.

Lemma analyzeExplicitY_equation pos eq f i :
analyzeExplicitY H this fuel pos eq f = Ret (Some i) -> equation i = eq.
Proof.
unfold analyzeExplicitY. intros Hyp. run_hyp Hyp.
all: injection Hyp as <-; done.
Qed.

Lemma analyzeExplicitX_equation pos eq f i :
analyzeExplicitX H this fuel pos eq f = Ret (Some i) -> equation i = eq.
Proof.
unfold analyzeExplicitX. intros Hyp. run_hyp Hyp.
all: injection Hyp as <-; done.
Qed.

Lemma analyzeImplicit_equation pos eq f i :
analyzeImplicit H this fuel pos eq f = Ret (Some i) -> equation i = eq.
Proof.
unfold analyzeImplicit. intros Hyp. run_hyp Hyp.
all: injection Hyp as <-; done.
Qed.

Lemma analyzePolar_equation pos eq f i :
analyzePolar H fuel pos eq f = Ret (Some i) -> equation i = eq.
Proof.
unfold analyzePolar. intros Hyp. run_hyp Hyp.
all: injection Hyp as <-; done.
Qed.

Lemma analyzeParametric_equation pos eq fx fy i :
analyzeParametric fuel pos eq fx fy = Ret (Some i) -> equation i = eq.
Proof.
unfold analyzeParametric. intros Hyp. run_hyp Hyp.
all: injection Hyp as <-; done.
Qed.

Lemma analyzePathAtPoint_equation marble eq i :
analyzePathAtPoint H this fuel marble eq = Ret (Some i) -> equation i = eq.
Proof.
destruct eq; cbn [analyzePathAtPoint];
  eauto using analyzeExplicitY_equation, analyzeExplicitX_equation, analyzeImplicit_equation,
    analyzePolar_equation, analyzeParametric_equation; done.
Qed.

Lemma candidate_snoc marble seen eq i :
candidate H this fuel marble (seen ++ [eq]) i <->
  candidate H this fuel marble seen i \/
  (is_inequality eq = false /\ analyzePathAtPoint H this fuel marble eq = Ret (Some i)).
Proof.
unfold candidate. split.
- intros (e & [Hin| ->%list_elem_of_singleton]%elem_of_app & Hne & Han).
  + left. by exists e.
  + by right.
- intros [(e & Hin & Hne & Han)|[Hne Han]].
  + exists e. split; [|done]. apply elem_of_app. by left.
  + exists eq. split; [|done]. apply elem_of_app. right. by apply list_elem_of_singleton.
Qed.

(** What the loop of [findNearestPath] keeps: the nearest candidate so far,
    with its distance, smaller than which no candidate seen so far is. *)
Lemma nearestLoop_spec marble equations :
forall seen nearest md r,
  match nearest with
  | Some b => candidate H this fuel marble seen b /\ md = distance b /\
              (distance b <? infinity) = true
  | None => md = infinity
  end ->
  (forall i, candidate H this fuel marble seen i -> (distance i <? md) = false) ->
  nearestLoop H this fuel marble equations nearest md = Ret r ->
  match r with
  | Some b =>
      candidate H this fuel marble (seen ++ equations) b /\
      (distance b <? infinity) = true /\
      forall i, candidate H this fuel marble (seen ++ equations) i ->
        (distance i <? distance b) = false
  | None =>
      forall i, candidate H this fuel marble (seen ++ equations) i ->
        (distance i <? infinity) = false
  end.
Proof.
induction equations as [|eq rest IH]; intros seen nearest md r Hbest Hmin; cbn [nearestLoop].
- intros [= <-]. rewrite app_nil_r. destruct nearest as [b|].
  + destruct Hbest as (Hc & -> & Hfin). done.
  + by subst md.
- rewrite cons_middle, app_assoc.
  destruct (is_inequality eq) eqn:Hineq.
  { apply IH; [|intros i [Hi|[Hne _]]%candidate_snoc; [by apply Hmin|congruence]].
    destruct nearest as [b|]; [|done]. destruct Hbest as (Hc & Hmd & Hfin).
    split; [|done]. apply candidate_snoc. by left. }
  destruct (analyzePathAtPoint H this fuel marble eq) as [[info|]| |] eqn:Han;
    cbn [bind]; try done.
  + destruct (distance info <? md) eqn:Hlt.
    * apply IH.
      -- split; [apply candidate_snoc; by right|]. split; [done|].
         destruct nearest as [b|]; [|by subst md].
         destruct Hbest as (_ & -> & Hfin). clear Hmin IH. float_order.
      -- intros i [Hi|[_ Hi]]%candidate_snoc.
         ++ specialize (Hmin i Hi). clear IH Hbest. float_order.
         ++ assert (i = info) as -> by congruence. clear IH Hbest Hmin. float_order.
    * apply IH.
      -- destruct nearest as [b|]; [|done]. destruct Hbest as (Hc & Hmd & Hfin).
         split; [|done]. apply candidate_snoc. by left.
      -- intros i [Hi|[_ Hi]]%candidate_snoc; [by apply Hmin|].
         assert (i = info) as -> by congruence. done.
  + apply IH.
    * destruct nearest as [b|]; [|done]. destruct Hbest as (Hc & Hmd & Hfin).
      split; [|done]. apply candidate_snoc. by left.
    * intros i [Hi|[_ Hi]]%candidate_snoc; [by apply Hmin|congruence].
Qed.

Lemma findNearestPath_spec marble equations r :
findNearestPath H this fuel marble equations = Ret r ->
match r with
| Some b =>
    candidate H this fuel marble equations b /\
    (distance b <? infinity) = true /\
    forall i, candidate H this fuel marble equations i -> (distance i <? distance b) = false
| None =>
    forall i, candidate H this fuel marble equations i -> (distance i <? infinity) = false
end.
Proof.
intros Hr. apply (nearestLoop_spec marble equations [] None infinity r); [done| |done].
intros i (e & Hin & _). by apply elem_of_nil in Hin.
Qed.

Lemma candidate_equation marble equations i :
candidate H this fuel marble equations i ->
equation i ∈ equations /\ is_inequality (equation i) = false.
Proof.
intros (e & Hin & Hne & Han). apply analyzePathAtPoint_equation in Han. by subst e.
Qed.

(** The curve the marble is bound to after STEP 2 is the curve of the path
    info. *)
Lemma updatePathState_equation marble scaledDt pathInfo e :
currentEquation (fst (fst (updatePathState H this marble scaledDt pathInfo))) = Some e ->
exists info, pathInfo = Some info /\ e = equation info.
Proof.
assert (forall d : bool,
          currentEquation (fst (fst (updateInAir this (set_path marble false None) scaledDt,
                                     false, d))) = Some e -> 
          exists info, pathInfo = Some info /\ e = equation info) as Hfree.
{ intros d. cbn [fst].
  destruct (updateInAir_path this (set_path marble false None) scaledDt) as [_ ->]. done. }
unfold updatePathState. destruct pathInfo as [info|]; [|apply Hfree].
destruct (distance info <? snapDistance this); [|apply Hfree].
destruct (shouldAttachToPath marble info); [|apply Hfree].
destruct (shouldDetachFromPath H this _ info); cbn [fst]; [done|].
destruct (updateOnPath_path this (set_path marble true (Some (equation info))) info scaledDt)
  as [_ ->].
cbn [currentEquation set_path]. intros [= <-]. by exists info.
Qed.

Lemma finishUpdate_equation marble scaledDt pathInfo store stars :
currentEquation (fst (fst (finishUpdate H this marble scaledDt pathInfo store stars))) =
currentEquation (fst (fst (updatePathState H this marble scaledDt pathInfo))).
Proof.
rewrite finishUpdate_marble.
destruct (clampMinVelocity_path this (trailUpdated (afterMove H this marble scaledDt pathInfo)))
  as [_ ->].
done.
Qed.

End Nearest.

(** X8.  [findNearestPath] reports the nearest of the curves it can analyse:
    its result is the path info of a listed curve that is not an inequality,
    at a distance below infinity, and no such curve has a path info at a
    smaller distance; it reports nothing exactly when no listed curve has a
    path info at a distance below infinity. *)
Theorem findNearestPath_nearest (H : MathHost) (this : PhysicsEngine) (fuel : nat)
  (marble : Marble) (equations : list Equation) :
atan2_in_range H -> (enoughFuel <= fuel)%nat ->
exists r, findNearestPath H this fuel marble equations = Ret r /\
  match r with
  | Some best =>
      candidate H this fuel marble equations best /\
      equation best ∈ equations /\ is_inequality (equation best) = false /\
      (distance best <? infinity) = true /\
      forall info, candidate H this fuel marble equations info ->
        (distance info <? distance best) = false
  | None =>
      forall info, candidate H this fuel marble equations info ->
        (distance info <? infinity) = false
  end.
Proof.
intros Hhost Hfuel.
destruct (findNearestPath_returns H this Hhost fuel Hfuel marble equations) as [r Hr].
exists r. split; [done|].
pose proof (findNearestPath_spec H this fuel marble equations r Hr) as Hs.
destruct r as [best|]; [|done]. destruct Hs as (Hc & Hfin & Hmin).
destruct (candidate_equation H this fuel marble equations best Hc). done.
Qed.

Lemma findNearestPath_nearest_witness :
exists r, findNearestPath RefHost.host PhysicsEngine_default enoughFuel nearMarble
            [parseConstantY 2; parseConstantY 0] = Ret r /\
  match r with
  | Some best =>
      candidate RefHost.host PhysicsEngine_default enoughFuel nearMarble
        [parseConstantY 2; parseConstantY 0] best /\
      equation best ∈ [parseConstantY 2; parseConstantY 0] /\
      is_inequality (equation best) = false /\
      (distance best <? infinity) = true /\
      forall info, candidate RefHost.host PhysicsEngine_default enoughFuel nearMarble
                     [parseConstantY 2; parseConstantY 0] info ->
        (distance info <? distance best) = false
  | None =>
      forall info, candidate RefHost.host PhysicsEngine_default enoughFuel nearMarble
                     [parseConstantY 2; parseConstantY 0] info ->
        (distance info <? infinity) = false
  end.
Proof.
exact (findNearestPath_nearest RefHost.host PhysicsEngine_default enoughFuel nearMarble
         [parseConstantY 2; parseConstantY 0] refHost_atan2_in_range (le_n enoughFuel)).
Defined.

(** X9.  An update step binds the marble to listed curves only: the curve in
    [currentEquation] afterwards is one of the given equations and is not an
    inequality; with no curve but inequalities the marble stays unbound. *)
Theorem update_binds_listed_curve (H : MathHost) (this : PhysicsEngine) (fuel : nat)
  (marble : Marble) (dt : float) (equations : list Equation)
  (store : list Star) (stars : list nat) :
atan2_in_range H -> (enoughFuel <= fuel)%nat ->
(length (trail marble) + 2 <= fuel)%nat -> (maxTrailLength marble <? 0) = false ->
exists marble' store' result,
  update H this fuel marble dt equations store stars = Ret (marble', store', result) /\
  (forall e, currentEquation marble' = Some e ->
     e ∈ equations /\ is_inequality e = false) /\
  (forallb is_inequality equations = true ->
     onPath marble' = false /\ currentEquation marble' = None).
Proof.
intros Hhost Hfuel Htrail Hcap.
destruct (update_returns H this Hhost fuel Hfuel marble dt equations store stars
            Htrail Hcap)
  as (pathInfo & Hpath & Hup).
pose proof (finishUpdate_equation H this marble (dt * timeScale this) pathInfo store stars)
  as Heq.
pose proof (finishUpdate_consistent H this marble (dt * timeScale this) pathInfo store stars)
  as Hcons.
destruct (finishUpdate H this marble (dt * timeScale this) pathInfo store stars)
  as [[marble' store'] result]. cbn [fst] in Heq, Hcons.
exists marble', store', result. split; [done|].
assert (forall e, currentEquation marble' = Some e ->
          e ∈ equations /\ is_inequality e = false) as Hbound.
{ intros e He. rewrite Heq in He.
  apply updatePathState_equation in He as (info & -> & ->).
  apply findNearestPath_spec in Hpath as (Hc & _).
  by apply (candidate_equation H this fuel marble). }
split; [done|]. intros Hall.
assert (currentEquation marble' = None) as Hnone.
{ destruct (currentEquation marble') as [e|] eqn:He; [|done].
  destruct (Hbound e eq_refl) as [Hin Hne].
  rewrite forallb_forall in Hall. apply list_elem_of_In in Hin.
  rewrite (Hall e Hin) in Hne. done. }
split; [|done]. unfold attachment_consistent in Hcons. rewrite Hnone in Hcons.
destruct (onPath marble'); [|done]. destruct Hcons as [Hc _].
by destruct (Hc eq_refl).
Qed.

Lemma update_binds_listed_curve_witness :
exists marble' store' result,
  update RefHost.host PhysicsEngine_default enoughFuel nearMarble 1
    [parseConstantY 0] [exampleStar] [0%nat] = Ret (marble', store', result) /\
  (forall e, currentEquation marble' = Some e ->
     e ∈ [parseConstantY 0] /\ is_inequality e = false) /\
  (forallb is_inequality [parseConstantY 0] = true ->
     onPath marble' = false /\ currentEquation marble' = None).
Proof.
apply (update_binds_listed_curve RefHost.host PhysicsEngine_default enoughFuel nearMarble 1
         [parseConstantY 0] [exampleStar] [0%nat] refHost_atan2_in_range (le_n enoughFuel));
  [vm_compute; lia|reflexivity].
Defined.

(* ===================================================================== *)
(** * The result object and the score                                      *)
(* ===================================================================== *)

Section Flags.

Variable H : MathHost.
Variable this : PhysicsEngine.

Lemma updatePathState_flags marble scaledDt pathInfo :
let r := updatePathState H this marble scaledDt pathInfo in
(snd (fst r) = true -> onPath marble = false) /\
(snd r = true -> onPath (fst (fst r)) = false) /\
(onPath (fst (fst r)) = true -> snd (fst r) = negb (onPath marble) /\ snd r = false).
Proof.
cbv zeta.
assert (forall d : bool,
          let r := (updateInAir this (set_path marble false None) scaledDt, false, d) in
          (snd (fst r) = true -> onPath marble = false) /\
          (snd r = true -> onPath (fst (fst r)) = false) /\
          (onPath (fst (fst r)) = true -> snd (fst r) = negb (onPath marble) /\ snd r = false))
  as Hfree.
{ intros d. cbv zeta. cbn [fst snd].
  destruct (updateInAir_path this (set_path marble false None) scaledDt) as [-> _].
  cbn [onPath set_path]. done. }
unfold updatePathState. destruct pathInfo as [info|]; [|apply Hfree].
destruct (distance info <? snapDistance this); [|apply Hfree].
destruct (shouldAttachToPath marble info); [|apply Hfree].
destruct (shouldDetachFromPath H this _ info); cbn [fst snd onPath set_path].
- split; [by intros ->%negb_true_iff|]. done.
- destruct (updateOnPath_path this (set_path marble true (Some (equation info))) info scaledDt)
    as [-> _].
  cbn [onPath set_path]. split; [by intros ->%negb_true_iff|]. done.
Qed.

Lemma finishUpdate_flags marble scaledDt pathInfo store stars :
let r := finishUpdate H this marble scaledDt pathInfo store stars in
let s := updatePathState H this marble scaledDt pathInfo in
outOfBounds (snd r) = false /\
attached (snd r) = snd (fst s) /\
detached (snd r) = snd s /\
onPath (fst (fst r)) = onPath (fst (fst s)).
Proof.
cbv zeta.
unfold finishUpdate.
destruct (updatePathState H this marble scaledDt pathInfo) as [[marble1 a] d].
destruct (collectStars _ store stars []) as [store' acc]. cbn [fst snd].
destruct (clampMinVelocity_path this (trailUpdated (integratePosition marble1 scaledDt)))
  as [-> _].
done.
Qed.

Lemma collectedCount_insert (store : list Star) : forall r star,
store !! r = Some star -> collected star = false ->
collectedCount (<[r := mark_collected star]> store) = S (collectedCount store).
Proof.
induction store as [|s rest IH]; intros r star Hr Hc; [done|].
destruct r as [|r]; cbn in Hr |- *.
- injection Hr as ->. by rewrite Hc.
- rewrite <- Nat.add_succ_r. f_equal. exact (IH r star Hr Hc).
Qed.

Lemma collectStars_count marble (stars : list nat) :
forall (store : list Star) (acc : list nat),
  (collectedCount (fst (collectStars marble store stars acc)) + length acc =
   collectedCount store + length (snd (collectStars marble store stars acc)))%nat.
Proof.
induction stars as [|r rest IH]; intros store acc; cbn [collectStars]; [done|].
destruct (store !! r) as [star|] eqn:Hr; [|apply IH].
destruct (negb (collected star) && checkCollision marble star) eqn:Hc; [|apply IH].
apply andb_true_iff in Hc as [Hnc%negb_true_iff _].
pose proof (IH (<[r:=mark_collected star]> store) (acc ++ [r])) as Hi.
rewrite (collectedCount_insert store r star Hr Hnc), length_app in Hi. cbn [length] in Hi.
lia.
Qed.

End Flags.

(** X10.  The result object of an update step: [outOfBounds] is never set;
    [attached] is only set for a marble that was not on a path; [detached] is
    only set when the marble ends off the path; and a marble that ends on a
    path is reported as attached exactly when it was not on one before, and
    never as detached. *)
Theorem update_result_flags (H : MathHost) (this : PhysicsEngine) (fuel : nat)
  (marble : Marble) (dt : float) (equations : list Equation)
  (store : list Star) (stars : list nat) :
atan2_in_range H -> (enoughFuel <= fuel)%nat ->
(length (trail marble) + 2 <= fuel)%nat -> (maxTrailLength marble <? 0) = false ->
exists marble' store' result,
  update H this fuel marble dt equations store stars = Ret (marble', store', result) /\
  outOfBounds result = false /\
  (attached result = true -> onPath marble = false) /\
  (detached result = true -> onPath marble' = false) /\
  (onPath marble' = true ->
     attached result = negb (onPath marble) /\ detached result = false).
Proof.
intros Hhost Hfuel Htrail Hcap.
destruct (update_returns H this Hhost fuel Hfuel marble dt equations store stars
            Htrail Hcap)
  as (pathInfo & _ & Hup).
pose proof (finishUpdate_flags H this marble (dt * timeScale this) pathInfo store stars)
  as (Ho & Ha & Hd & Hp).
pose proof (updatePathState_flags H this marble (dt * timeScale this) pathInfo)
  as (H1 & H2 & H3).
destruct (finishUpdate H this marble (dt * timeScale this) pathInfo store stars)
  as [[marble' store'] result]. cbn [fst snd] in Ho, Ha, Hd, Hp.
exists marble', store', result. rewrite Ha, Hd, Hp. done.
Qed.

Lemma update_result_flags_witness :
exists marble' store' result,
  update RefHost.host PhysicsEngine_default enoughFuel nearMarble 1
    [parseConstantY 0] [exampleStar] [0%nat] = Ret (marble', store', result) /\
  outOfBounds result = false /\
  (attached result = true -> onPath nearMarble = false) /\
  (detached result = true -> onPath marble' = false) /\
  (onPath marble' = true ->
     attached result = negb (onPath nearMarble) /\ detached result = false).
Proof.
apply (update_result_flags RefHost.host PhysicsEngine_default enoughFuel nearMarble 1
         [parseConstantY 0] [exampleStar] [0%nat] refHost_atan2_in_range (le_n enoughFuel));
  [vm_compute; lia|reflexivity].
Defined.

(** X11.  The score adds up: an update step raises the number of collected
    stars of the store by exactly the number of stars it reports in
    [starsCollected], also when one star is listed several times. *)
Theorem update_collected_count (H : MathHost) (this : PhysicsEngine) (fuel : nat)
  (marble : Marble) (dt : float) (equations : list Equation)
  (store : list Star) (stars : list nat) :
atan2_in_range H -> (enoughFuel <= fuel)%nat ->
(length (trail marble) + 2 <= fuel)%nat -> (maxTrailLength marble <? 0) = false ->
exists marble' store' result,
  update H this fuel marble dt equations store stars = Ret (marble', store', result) /\
  collectedCount store' = (collectedCount store + length (starsCollected result))%nat.
Proof.
intros Hhost Hfuel Htrail Hcap.
destruct (update_returns H this Hhost fuel Hfuel marble dt equations store stars
            Htrail Hcap)
  as (pathInfo & _ & Hup).
pose proof (finishUpdate_store H this marble (dt * timeScale this) pathInfo store stars) as Hs.
pose proof (finishUpdate_starsCollected H this marble (dt * timeScale this) pathInfo store stars)
  as Hr.
destruct (finishUpdate H this marble (dt * timeScale this) pathInfo store stars)
  as [[marble' store'] result]. cbn [fst snd] in Hs, Hr.
exists marble', store', result. split; [done|]. rewrite Hs, Hr.
pose proof (collectStars_count (afterMove H this marble (dt * timeScale this) pathInfo)
              stars store []) as Hc.
cbn [length] in Hc. lia.
Qed.

Lemma update_collected_count_witness :
exists marble' store' result,
  update RefHost.host PhysicsEngine_default enoughFuel restingMarble 1
    [parseConstantY 2] [exampleStar] [0%nat; 0%nat] = Ret (marble', store', result) /\
  collectedCount store' =
    (collectedCount [exampleStar] + length (starsCollected result))%nat.
Proof.
apply (update_collected_count RefHost.host PhysicsEngine_default enoughFuel restingMarble 1
         [parseConstantY 2] [exampleStar] [0%nat; 0%nat]
         refHost_atan2_in_range (le_n enoughFuel));
  [vm_compute; lia|reflexivity].
Defined.

(* ===================================================================== *)
(** * Binary64 arithmetic: opposites and symmetric operations             *)
(* ===================================================================== *)

Lemma binary_round_aux_opp s m e l :
binary_round_aux prec emax (negb s) m e l = SFopp (binary_round_aux prec emax s m e l).
Proof.
unfold binary_round_aux.
destruct (shr_fexp prec emax m e l) as [mrs e'].
destruct (shr_fexp prec emax _ e' loc_Exact) as [mrs2 e2].
destruct (shr_m mrs2); [done| |done]. by destruct (e2 <=? emax - prec)%Z.
Qed.

Lemma binary_round_opp s m e :
binary_round prec emax (negb s) m e = SFopp (binary_round prec emax s m e).
Proof.
unfold binary_round. destruct (shl_align m e _) as [mz ez]. apply binary_round_aux_opp.
Qed.

Lemma binary_normalize_opp m e :
mirrored (binary_normalize prec emax m e false) (binary_normalize prec emax (- m) e false).
Proof.
destruct m as [|p|p]; cbn [binary_normalize Z.opp].
- by right.
- left. apply (binary_round_opp false).
- left. apply (binary_round_opp true).
Qed.

Lemma SFsub_swap x y : mirrored (SF64sub x y) (SF64sub y x).
Proof.
destruct x as [sx|sx| |sx mx ex], y as [sy|sy| |sy my ey]; unfold SF64sub; cbn [SFsub].
all: try (by left); try (by right).
all: try (destruct sx, sy; (by left) || (by right)).
rewrite (Z.min_comm ey ex).
set (ez := Z.min ex ey).
replace (cond_Zopp sy (Z.pos (fst (shl_align my ey ez))) -
         cond_Zopp sx (Z.pos (fst (shl_align mx ex ez))))%Z
  with (- (cond_Zopp sx (Z.pos (fst (shl_align mx ex ez))) -
           cond_Zopp sy (Z.pos (fst (shl_align my ey ez)))))%Z by lia.
apply binary_normalize_opp.
Qed.

Lemma SFmul_square_mirrored a b : mirrored a b -> SF64mul a a = SF64mul b b.
Proof.
intros [->|[Ha Hb]].
- destruct a as [s|s| |s m e]; unfold SF64mul; cbn [SFmul SFopp]; try done;
    by destruct s.
- destruct a as [s| | |], b as [s'| | |]; try done. unfold SF64mul. cbn [SFmul].
  by destruct s, s'.
Qed.

Lemma float_square_swap x y : (x - y) * (x - y) = (y - x) * (y - x).
Proof.
apply Prim2SF_inj. rewrite !mul_spec, !sub_spec. apply SFmul_square_mirrored, SFsub_swap.
Qed.

Lemma float_opp_involutive x : - - x = x.
Proof.
apply Prim2SF_inj. rewrite !opp_spec. destruct (Prim2SF x); cbn [SFopp]; by rewrite ?negb_involutive.
Qed.

Lemma float_square_opp x : (- x) * (- x) = x * x.
Proof.
apply Prim2SF_inj. rewrite !mul_spec, opp_spec. symmetry. apply SFmul_square_mirrored. by left.
Qed.

Lemma SFadd_comm x y : SF64add x y = SF64add y x.
Proof.
destruct x as [sx|sx| |sx mx ex], y as [sy|sy| |sy my ey]; unfold SF64add; cbn [SFadd];
  try done; try (by destruct sx, sy).
by rewrite (Z.min_comm ey ex), Z.add_comm.
Qed.

Lemma float_add_comm x y : x + y = y + x.
Proof. apply Prim2SF_inj. by rewrite !add_spec, SFadd_comm. Qed.

Lemma SFmul_opp_r x y : SF64mul x (SFopp y) = SFopp (SF64mul x y).
Proof.
destruct x as [sx|sx| |sx mx ex], y as [sy|sy| |sy my ey]; unfold SF64mul; cbn [SFmul SFopp];
  try done; try (by destruct sx, sy).
rewrite <- binary_round_aux_opp. by destruct sx, sy.
Qed.

Lemma SFadd_opp_diag P : is_fin P = true -> SF64add (SFopp P) P = S754_zero false.
Proof.
destruct P as [[]| | |s m e]; try done. intros _.
unfold SF64add. cbn [SFadd SFopp]. rewrite Z.min_id.
replace (cond_Zopp (negb s) (Z.pos (fst (shl_align m e e))) +
         cond_Zopp s (Z.pos (fst (shl_align m e e))))%Z with 0%Z; [done|].
destruct s; cbn [negb cond_Zopp]; lia.
Qed.

(* ===================================================================== *)
(** * Vector2D                                                             *)
(* ===================================================================== *)

(** X12.  Distances are symmetric, bit for bit and for every pair of vectors,
    NaN and infinite coordinates included: [v.distanceTo(w)] is
    [w.distanceTo(v)], and likewise for [distanceToSq]. *)
Theorem distanceTo_symmetric (v w : Vector2D) :
Vector2D.distanceTo v w = Vector2D.distanceTo w v /\
Vector2D.distanceToSq v w = Vector2D.distanceToSq w v.
Proof.
unfold Vector2D.distanceTo, Vector2D.distanceToSq. cbv zeta.
by rewrite (float_square_swap (Vector2D.x v)), (float_square_swap (Vector2D.y v)).
Qed.

(** X13.  [perpendicular] is a quarter turn in binary64 arithmetic: four of
    them give the vector back, one keeps the magnitude exactly, and the turned
    vector has a zero dot product with the original whenever the product of
    the two coordinates is finite. *)
Theorem perpendicular_quarter_turn (v : Vector2D) :
quarterTurns 4 v = v /\
Vector2D.magnitude (Vector2D.perpendicular v) = Vector2D.magnitude v /\
Vector2D.magnitudeSq (Vector2D.perpendicular v) = Vector2D.magnitudeSq v /\
(JS.isFinite (Vector2D.x v * Vector2D.y v) = true ->
   Vector2D.dot v (Vector2D.perpendicular v) = 0).
Proof.
destruct v as [x y].
cbn [quarterTurns].
unfold Vector2D.perpendicular, Vector2D.magnitude, Vector2D.magnitudeSq, Vector2D.dot.
cbn [Vector2D.x Vector2D.y].
rewrite !float_opp_involutive, float_square_opp, (float_add_comm (y * y)).
repeat split. rewrite isFinite_finF. unfold finF. intros Hfin.
apply Prim2SF_inj. rewrite add_spec, !mul_spec, opp_spec, SFmul_opp_r.
rewrite (SFmul_comm (Prim2SF y)). rewrite mul_spec in Hfin. by apply SFadd_opp_diag.
Qed.

Lemma perpendicular_quarter_turn_witness :
quarterTurns 4 (Vector2D.mk 3 (-4)) = Vector2D.mk 3 (-4) /\
Vector2D.magnitude (Vector2D.perpendicular (Vector2D.mk 3 (-4))) =
  Vector2D.magnitude (Vector2D.mk 3 (-4)) /\
Vector2D.magnitudeSq (Vector2D.perpendicular (Vector2D.mk 3 (-4))) =
  Vector2D.magnitudeSq (Vector2D.mk 3 (-4)) /\
Vector2D.dot (Vector2D.mk 3 (-4)) (Vector2D.perpendicular (Vector2D.mk 3 (-4))) = 0.
Proof.
destruct (perpendicular_quarter_turn (Vector2D.mk 3 (-4))) as (H1 & H2 & H3 & H4).
split; [exact H1|]. split; [exact H2|]. split; [exact H3|]. apply H4. reflexivity.
Defined.

Lemma or_else_zero_cases a :
(JS.truthy a = true /\ JS.or_else a 0 = a /\ is_nan a = false /\ (a =? 0) = false) \/
(JS.truthy a = false /\ JS.or_else a 0 = 0 /\ (is_nan a = true \/ (a =? 0) = true)).
Proof.
unfold JS.or_else. destruct (JS.truthy a) eqn:Ht; [left|right]; (split; [done|]); (split; [done|]).
- unfold JS.truthy in Ht. apply andb_true_iff in Ht as [H0%negb_true_iff Hn%negb_true_iff]. done.
- unfold JS.truthy in Ht. apply andb_false_iff in Ht as [H0%negb_false_iff|Hn%negb_false_iff]; auto.
Qed.

Lemma eqb_sym x y : (x =? y) = (y =? x).
Proof.
rewrite !eqb_ord, (Z.eqb_sym (ord x)).
by destruct (is_nan x), (is_nan y).
Qed.

Lemma eqb_refl_not_nan x : is_nan x = false -> (x =? x) = true.
Proof. intros Hn. by rewrite eqb_ord, Hn, Z.eqb_refl. Qed.

(** X14.  [Vector2D.fromObject] reads a coordinate with [|| 0]: a NaN
    coordinate becomes 0, every other coordinate is numerically kept (a
    negative zero becomes 0), the result never holds a NaN, and reading the
    result again changes nothing. *)
Theorem fromObject_cleans (o : Vector2D) :
let c := Vector2D.fromObject o in
is_nan (Vector2D.x c) = false /\ is_nan (Vector2D.y c) = false /\
(is_nan (Vector2D.x o) = true -> Vector2D.x c = 0) /\
(is_nan (Vector2D.y o) = true -> Vector2D.y c = 0) /\
(is_nan (Vector2D.x o) = false -> (Vector2D.x c =? Vector2D.x o) = true) /\
(is_nan (Vector2D.y o) = false -> (Vector2D.y c =? Vector2D.y o) = true) /\
Vector2D.fromObject c = c.
Proof.
assert (forall a, is_nan (JS.or_else a 0) = false /\
                  (is_nan a = true -> JS.or_else a 0 = 0) /\
                  (is_nan a = false -> (JS.or_else a 0 =? a) = true) /\
                  JS.or_else (JS.or_else a 0) 0 = JS.or_else a 0) as Hc.
{ intros a. destruct (or_else_zero_cases a) as [(Ht & -> & Hn & Hz)|(Ht & -> & Hor)].
  - split; [done|]. split; [congruence|]. split; [by apply eqb_refl_not_nan|].
    unfold JS.or_else. by rewrite Ht.
  - split; [done|]. split; [done|]. split; [|done].
    intros Hn. destruct Hor as [?|Hz]; [congruence|]. by rewrite eqb_sym. }
cbv zeta. unfold Vector2D.fromObject. cbn [Vector2D.x Vector2D.y].
destruct (Hc (Vector2D.x o)) as (Hx1 & Hx2 & Hx3 & Hx4).
destruct (Hc (Vector2D.y o)) as (Hy1 & Hy2 & Hy3 & Hy4).
repeat split; try done. by rewrite Hx4, Hy4.
Qed.

(* ===================================================================== *)
(** * A marble on an implicit curve                                        *)
(* ===================================================================== *)

Lemma sub_or_else_zero a :
finF a = true -> is_zero_sf (Prim2SF (a - JS.or_else a 0)) = true.
Proof.
intros Ha. destruct (or_else_zero_cases a) as [(_ & -> & _)|(Ht & -> & _)].
- by rewrite float_sub_diag.
- rewrite sub_spec. change (Prim2SF 0) with (S754_zero false).
  destruct (falsy_spec a Ht) as [[s Hs]|Hn].
  + rewrite Hs. by destruct s.
  + unfold finF in Ha. by rewrite Hn in Ha.
Qed.

Lemma square_of_zero d : is_zero_sf (Prim2SF d) = true -> d * d = 0.
Proof.
intros Hd. apply Prim2SF_inj. rewrite mul_spec.
destruct (Prim2SF d) as [s| | |]; try done. by destruct s.
Qed.

Lemma distanceTo_fromObject_self pos :
finiteVec pos = true -> Vector2D.distanceTo pos (Vector2D.fromObject pos) = 0.
Proof.
unfold finiteVec. rewrite !isFinite_finF. intros [Hx Hy]%andb_true_iff.
unfold Vector2D.distanceTo, Vector2D.fromObject. cbv zeta. cbn [Vector2D.x Vector2D.y].
rewrite (square_of_zero _ (sub_or_else_zero _ Hx)), (square_of_zero _ (sub_or_else_zero _ Hy)).
reflexivity.
Qed.

(** X15.  A marble on an implicit curve is its own closest point: when the
    curve's function is below 0.01 in magnitude at the marble's finite
    position, the gradient descent stops at once, the analysis reports the
    position itself at distance 0, and [shouldAttachToPath] accepts that path
    for every marble. *)
Theorem analyzeImplicit_on_curve (H : MathHost) (this : PhysicsEngine) (fuel : nat)
  (pos : Vector2D) (eq : Equation) (f : float -> float -> option float) (v : float) :
(1 <= fuel)%nat -> finiteVec pos = true ->
f (Vector2D.x pos) (Vector2D.y pos) = Some v -> (abs v <? 0.01) = true ->
findClosestPointImplicit this fuel pos f = Ret pos /\
exists info, analyzeImplicit H this fuel pos eq f = Ret (Some info) /\
  equation info = eq /\ closestPoint info = pos /\ distance info = 0 /\
  forall marble, shouldAttachToPath marble info = true.
Proof.
intros Hfuel Hfin Hf Hv.
assert (findClosestPointImplicit this fuel pos f = Ret pos) as Hcp.
{ unfold findClosestPointImplicit. destruct fuel as [|n]; [lia|].
  cbn [loop implicitBody]. change (0 <? 20)%nat with true. cbv iota.
  rewrite Hf. cbn [call bind]. rewrite Hv. cbn [try_catch bind]. by destruct pos. }
split; [done|]. unfold analyzeImplicit. rewrite Hcp. cbn [bind].
destruct (calculateGradient_returns this f (Vector2D.x pos) (Vector2D.y pos) None) as [g ->].
cbn [bind].
destruct (calculateImplicitCurvature_returns H this f (Vector2D.x pos) (Vector2D.y pos))
  as [k ->].
cbn [bind]. eexists. split; [reflexivity|]. cbn [mkPathInfo equation closestPoint distance].
split; [done|]. split; [done|]. split; [by apply distanceTo_fromObject_self|].
intros marble. unfold shouldAttachToPath. cbn [distance].
rewrite (distanceTo_fromObject_self pos Hfin).
change (0 <? 0.1) with true. by rewrite orb_true_r.
Qed.

Lemma analyzeImplicit_on_curve_witness :
let circle := fun x y : float => Some (x * x + y * y - 1) in
findClosestPointImplicit PhysicsEngine_default 1 (Vector2D.mk 1 0) circle =
  Ret (Vector2D.mk 1 0) /\
exists info,
  analyzeImplicit RefHost.host PhysicsEngine_default 1 (Vector2D.mk 1 0) (implicit circle) circle
    = Ret (Some info) /\
  equation info = implicit circle /\ closestPoint info = Vector2D.mk 1 0 /\
  distance info = 0 /\
  forall marble, shouldAttachToPath marble info = true.
Proof.
apply (analyzeImplicit_on_curve RefHost.host PhysicsEngine_default 1 (Vector2D.mk 1 0)
         (implicit (fun x y : float => Some (x * x + y * y - 1)))
         (fun x y : float => Some (x * x + y * y - 1)) 0); [lia|reflexivity..].
Defined.

(* ===================================================================== *)
(** * The game loop                                                        *)
(* ===================================================================== *)

Lemma collectedCount_le (store : list Star) : (collectedCount store <= length store)%nat.
Proof.
induction store as [|s rest IH]; [done|]. cbn [collectedCount length].
destruct (collected s); lia.
Qed.

Lemma collectedCount_uncollect (store : list Star) :
collectedCount (map Game.uncollect store) = 0%nat.
Proof. induction store as [|s rest IH]; [done|]. cbn. exact IH. Qed.

Section GameLoop.

Variable H : MathHost.
Hypothesis Hhost : atan2_in_range H.
Variable fuel : nat.
Hypothesis Hfuel : (enoughFuel <= fuel)%nat.

(** An engine step returns, keeps the number of stars, and raises the number
    of collected stars by the number it reports. *)
Lemma update_score this marble dt equations store stars :
(length (trail marble) + 2 <= fuel)%nat -> (maxTrailLength marble <? 0) = false ->
exists marble' store' result,
  update H this fuel marble dt equations store stars = Ret (marble', store', result) /\
  length store' = length store /\
  collectedCount store' = (collectedCount store + length (starsCollected result))%nat.
Proof.
intros Htrail Hcap.
destruct (update_returns H this Hhost fuel Hfuel marble dt equations store stars Htrail Hcap)
  as (pathInfo & _ & Hup).
pose proof (finishUpdate_store H this marble (dt * timeScale this) pathInfo store stars) as Hs.
pose proof (finishUpdate_starsCollected H this marble (dt * timeScale this) pathInfo store stars)
  as Hr.
destruct (finishUpdate H this marble (dt * timeScale this) pathInfo store stars)
  as [[marble' store'] result]. cbn [fst snd] in Hs, Hr.
exists marble', store', result. split; [done|]. rewrite Hs, Hr.
pose proof (collectStars_count (afterMove H this marble (dt * timeScale this) pathInfo)
              stars store []) as Hc.
destruct (collectStars_store (afterMove H this marble (dt * timeScale this) pathInfo)
            stars store []) as [Hlen _].
cbn [length] in Hc. split; [done|lia].
Qed.

(** The marbles on which one step of the engine ends within the budget. *)
Lemma stepMarble_inv g0 g b i :
loopInv g0 g ->
(forall marble, Game.marbles g !! i = Some marble ->
   (length (trail marble) + 2 <= fuel)%nat /\ (maxTrailLength marble <? 0) = false) ->
exists g' b', Game.stepMarble H fuel (g, b) i = Ret (g', b') /\ loopInv g0 g' /\
  forall j, j <> i -> Game.marbles g' !! j = Game.marbles g !! j.
Proof.
intros (Hsc & Hls & Hlm & Heq & Hph & Hlv & Hrun & Hge & Hwin) Hends.
unfold Game.stepMarble. destruct (Game.marbles g !! i) as [marble|] eqn:Hm.
2:{ exists g, b. split; [done|]. split; [|done]. unfold loopInv. done. }
destruct (Hends marble eq_refl) as [Htrail Hcap].
destruct (update_score (Game.physics g) marble 1 (Game.equations g) (Game.stars g)
            (seq 0 (length (Game.stars g))) Htrail Hcap)
  as (marble' & store' & result & -> & Hlen & Hcount).
cbn [bind].
set (k := length (starsCollected result)) in *.
assert (forall j, j <> i ->
          <[i := marble']> (Game.marbles g) !! j = Game.marbles g !! j) as Hother.
{ intros j Hj. apply list_lookup_insert_ne. congruence. }
destruct (Nat.ltb_spec 0 k) as [Hk|Hk].
- cbn [Game.starsCollected Game.set_starsCollected Game.set_stars Game.set_marbles Game.stars].
  destruct (Nat.eqb_spec (Game.starsCollected g + k) (length store')) as [Hall|Hnot];
    eexists _, _; (split; [reflexivity|]); (split; [|exact Hother]); unfold loopInv;
    cbn [Game.starsCollected Game.set_starsCollected Game.set_stars Game.set_marbles Game.stars
         Game.set_gameRunning Game.marbles Game.equations Game.physics Game.level
         Game.gameRunning];
    rewrite ?length_insert; repeat split; try done; try lia.
- eexists _, _. split; [reflexivity|]. split; [|exact Hother]. unfold loopInv.
  cbn [Game.starsCollected Game.set_starsCollected Game.set_stars Game.set_marbles Game.stars
       Game.set_gameRunning Game.marbles Game.equations Game.physics Game.level
       Game.gameRunning].
  rewrite ?length_insert. repeat split; try done; try lia.
  intros Hlt Hfull. apply Hwin; [done|lia].
Qed.

Lemma forEachMarble_inv g0 indices : forall g b,
loopInv g0 g -> NoDup indices ->
(forall j marble, j ∈ indices -> Game.marbles g !! j = Some marble ->
   (length (trail marble) + 2 <= fuel)%nat /\ (maxTrailLength marble <? 0) = false) ->
exists g' b', Game.forEachMarble H fuel (g, b) indices = Ret (g', b') /\ loopInv g0 g'.
Proof.
induction indices as [|i rest IH]; intros g b Hinv Hnd Hends; cbn [Game.forEachMarble].
- by exists g, b.
- apply NoDup_cons in Hnd as [Hi Hnd].
  destruct (stepMarble_inv g0 g b i Hinv) as (g1 & b1 & -> & Hinv1 & Hother).
  { intros marble Hm. apply (Hends i); [apply elem_of_cons; by left|done]. }
  cbn [bind]. apply IH; [done|done|].
  intros j marble Hj Hm. apply (Hends j); [apply elem_of_cons; by right|].
  rewrite <- Hm. symmetry. apply Hother. by intros ->.
Qed.

Lemma update_inv g :
Game.starsCollected g = collectedCount (Game.stars g) ->
Forall (fun marble =>
          (length (trail marble) + 2 <= fuel)%nat /\ (maxTrailLength marble <? 0) = false)
  (Game.marbles g) ->
exists g', Game.update H fuel g = Ret g' /\
  Game.starsCollected g' = collectedCount (Game.stars g') /\
  length (Game.stars g') = length (Game.stars g) /\
  length (Game.marbles g') = length (Game.marbles g) /\
  Game.equations g' = Game.equations g /\
  Game.physics g' = Game.physics g /\
  Game.level g' = Game.level g /\
  (Game.gameRunning g' = true -> Game.gameRunning g = true) /\
  ((Game.starsCollected g < length (Game.stars g))%nat ->
   Game.starsCollected g' = length (Game.stars g') -> Game.gameRunning g' = false).
Proof.
intros Hsc Hends.
assert (loopInv g g) as Hinv0.
{ unfold loopInv. repeat split; try done. intros Hlt Hfull. lia. }
unfold Game.update.
destruct (forEachMarble_inv g (seq 0 (length (Game.marbles g))) g false Hinv0)
  as (g1 & b1 & -> & (Hsc1 & Hls & Hlm & Heq & Hph & Hlv & Hrun & Hge & Hwin)).
{ apply NoDup_seq. }
{ intros j marble _ Hm. rewrite Forall_forall in Hends. apply Hends.
  by eapply list_elem_of_lookup_2. }
cbn [bind].
destruct (negb b1 && (0 <? length (Game.marbles g1))%nat).
- cbn [Game.starsCollected Game.set_gameRunning Game.stars].
  destruct (Nat.ltb_spec (Game.starsCollected g1) (length (Game.stars g1))) as [Hlt|Hnlt];
    eexists; (split; [reflexivity|]);
    cbn [Game.starsCollected Game.set_starsCollected Game.set_stars Game.set_marbles Game.stars
         Game.set_gameRunning Game.marbles Game.equations Game.physics Game.level
         Game.gameRunning];
    rewrite ?collectedCount_uncollect, ?length_map; repeat split; done.
- exists g1. repeat split; done.
Qed.

End GameLoop.

(** X16.  The game's score is the number of collected stars: when
    [starsCollected] counts the collected stars of [stars] before
    [game.update()], it does so afterwards, whatever the marbles collect and
    also when the stars are reset because every marble left the bounds; the
    step keeps the equations, the level, the number of stars and the number of
    marbles, and never sets [gameRunning].  (The step returns because no
    marble has a negative trail capacity.) *)
Theorem Game_update_score (H : MathHost) (fuel : nat) (g : Game.t) :
atan2_in_range H -> (enoughFuel <= fuel)%nat ->
Forall (fun marble =>
          (length (trail marble) + 2 <= fuel)%nat /\ (maxTrailLength marble <? 0) = false)
  (Game.marbles g) ->
Game.starsCollected g = collectedCount (Game.stars g) ->
exists g', Game.update H fuel g = Ret g' /\
  Game.starsCollected g' = collectedCount (Game.stars g') /\
  length (Game.stars g') = length (Game.stars g) /\
  length (Game.marbles g') = length (Game.marbles g) /\
  Game.equations g' = Game.equations g /\
  Game.level g' = Game.level g /\
  (Game.gameRunning g' = true -> Game.gameRunning g = true).
Proof.
intros Hhost Hfuel Hends Hsc.
destruct (update_inv H Hhost fuel Hfuel g Hsc Hends)
  as (g' & Hup & H1 & H2 & H3 & H4 & H5 & H6 & H7 & H8).
by exists g'.
Qed.

Lemma Game_update_score_witness :
exists g', Game.update RefHost.host enoughFuel exampleGame = Ret g' /\
  Game.starsCollected g' = collectedCount (Game.stars g') /\
  length (Game.stars g') = length (Game.stars exampleGame) /\
  length (Game.marbles g') = length (Game.marbles exampleGame) /\
  Game.equations g' = Game.equations exampleGame /\
  Game.level g' = Game.level exampleGame /\
  (Game.gameRunning g' = true -> Game.gameRunning exampleGame = true).
Proof.
apply (Game_update_score RefHost.host enoughFuel exampleGame refHost_atan2_in_range
         (le_n enoughFuel)); [|reflexivity].
constructor; [split; [vm_compute; lia|reflexivity]|constructor].
Defined.

(** X17.  Collecting the last star stops the game: when fewer stars than there
    are were collected before [game.update()] and all of them are afterwards,
    [gameRunning] is false afterwards.  (The step returns because no marble
    has a negative trail capacity.) *)
Theorem Game_update_win (H : MathHost) (fuel : nat) (g : Game.t) :
atan2_in_range H -> (enoughFuel <= fuel)%nat ->
Forall (fun marble =>
          (length (trail marble) + 2 <= fuel)%nat /\ (maxTrailLength marble <? 0) = false)
  (Game.marbles g) ->
Game.starsCollected g = collectedCount (Game.stars g) ->
(Game.starsCollected g < length (Game.stars g))%nat ->
exists g', Game.update H fuel g = Ret g' /\
  (Game.starsCollected g' = length (Game.stars g') -> Game.gameRunning g' = false).
Proof.
intros Hhost Hfuel Hends Hsc Hlt.
destruct (update_inv H Hhost fuel Hfuel g Hsc Hends)
  as (g' & Hup & H1 & H2 & H3 & H4 & H5 & H6 & H7 & H8).
exists g'. split; [done|]. by apply H8.
Qed.

Lemma Game_update_win_witness :
exists g', Game.update RefHost.host enoughFuel exampleGame = Ret g' /\
  (Game.starsCollected g' = length (Game.stars g') -> Game.gameRunning g' = false).
Proof.
apply (Game_update_win RefHost.host enoughFuel exampleGame refHost_atan2_in_range
         (le_n enoughFuel)); [|reflexivity|cbn; lia].
constructor; [split; [vm_compute; lia|reflexivity]|constructor].
Defined.

(* ===================================================================== *)
(** * Binary64 arithmetic: equal numbers, least and greatest               *)
(* ===================================================================== *)

Lemma SFcompare_Eq x y :
SFcompare x y = Some Eq -> x = y \/ (is_zero_sf x = true /\ is_zero_sf y = true).
Proof.
destruct x as [sx|sx| |sx mx ex], y as [sy|sy| |sy my ey]; cbn [SFcompare]; try done;
  try (by destruct sx); try (by destruct sy); try (by right).
- destruct sx, sy; try done; by left.
- change (Pos.compare_cont Eq mx my) with (Pos.compare mx my).
  destruct sx, sy; try done; destruct (Z.compare_spec ex ey) as [->|?|?]; try done;
    destruct (Pos.compare_spec mx my) as [->|?|?]; try done; by left.
Qed.

Lemma eqb_eq_or_zero x y :
(x =? y) = true -> x = y \/ ((x =? 0) = true /\ (y =? 0) = true).
Proof.
rewrite !FloatAxioms.eqb_spec. unfold SFeqb. change (Prim2SF 0) with (S754_zero false).
destruct (SFcompare (Prim2SF x) (Prim2SF y)) as [[]|] eqn:Hc; try done. intros _.
destruct (SFcompare_Eq _ _ Hc) as [He|[Hx Hy]].
- left. by apply Prim2SF_inj.
- right. destruct (Prim2SF x), (Prim2SF y); done.
Qed.

Lemma ord_bounds x : (- 2 ^ 2100 <= ord x <= 2 ^ 2100)%Z.
Proof.
unfold ord. pose proof (Prim2SF_valid x) as Hv.
pose proof (pow2_pos 2100 ltac:(lia)) as HB.
destruct (Prim2SF x) as [s|[]| |s m e]; cbn [SFord Zv]; try lia.
pose proof (Zv_finite_bounds _ _ _ Hv). destruct s; cbn [cond_Zopp]; lia.
Qed.

Lemma ord_infinity : ord infinity = (2 ^ 2100)%Z /\ ord neg_infinity = (- 2 ^ 2100)%Z.
Proof. done. Qed.

Lemma eqb_zero_ord x : (x =? 0) = true -> ord x = 0%Z.
Proof.
rewrite eqb_ord. intros [[_ _]%andb_true_iff H0%Z.eqb_eq]%andb_true_iff. exact H0.
Qed.

Lemma is_neg_zero_ord x : is_neg_zero x = true -> is_nan x = false /\ ord x = 0%Z.
Proof.
unfold is_neg_zero. intros [Hz _]%andb_true_iff. split; [|by apply eqb_zero_ord].
rewrite eqb_ord in Hz. by destruct (is_nan x).
Qed.

Lemma is_pos_zero_ord x : is_pos_zero x = true -> is_nan x = false /\ ord x = 0%Z.
Proof.
unfold is_pos_zero. intros [Hz _]%andb_true_iff. split; [|by apply eqb_zero_ord].
rewrite eqb_ord in Hz. by destruct (is_nan x).
Qed.

(** One turn of [Math.min] or [Math.max] on numbers that are not NaN picks
    one of the two, the lower (the greater) in rank. *)
Lemma min_step_ord lowest number :
is_nan lowest = false -> is_nan number = false ->
(min_step lowest number = lowest \/ min_step lowest number = number) /\
ord (min_step lowest number) = Z.min (ord lowest) (ord number).
Proof.
intros Hl Hn. unfold min_step.
destruct (is_neg_zero number && is_pos_zero lowest) eqn:Hz.
- apply andb_true_iff in Hz as [[_ H1]%is_neg_zero_ord [_ H2]%is_pos_zero_ord].
  split; [by right|lia].
- destruct (number <? lowest) eqn:Hlt.
  + split; [by right|]. apply ltb_true in Hlt. lia.
  + split; [by left|]. apply ltb_false in Hlt. destruct Hlt as [?|[?|?]]; [congruence..|lia].
Qed.

Lemma max_step_ord highest number :
is_nan highest = false -> is_nan number = false ->
(max_step highest number = highest \/ max_step highest number = number) /\
ord (max_step highest number) = Z.max (ord highest) (ord number).
Proof.
intros Hl Hn. unfold max_step.
destruct (is_pos_zero number && is_neg_zero highest) eqn:Hz.
- apply andb_true_iff in Hz as [[_ H1]%is_pos_zero_ord [_ H2]%is_neg_zero_ord].
  split; [by right|lia].
- destruct (highest <? number) eqn:Hlt.
  + split; [by right|]. apply ltb_true in Hlt. lia.
  + split; [by left|]. apply ltb_false in Hlt. destruct Hlt as [?|[?|?]]; [congruence..|lia].
Qed.

Lemma fold_min_ord (l : list float) : forall acc,
is_nan acc = false -> (forall v, v ∈ l -> is_nan v = false) ->
let r := fold_left min_step l acc in
is_nan r = false /\ (ord r <= ord acc)%Z /\ (forall v, v ∈ l -> (ord r <= ord v)%Z) /\
(ord r = ord acc \/ exists v, v ∈ l /\ ord r = ord v).
Proof.
induction l as [|a l IH]; intros acc Hacc Hl; cbn [fold_left].
- repeat split; first [done | lia | by intros v ?%elem_of_nil | by left].
- assert (is_nan a = false) as Ha by (apply Hl, elem_of_cons; by left).
  destruct (min_step_ord acc a Hacc Ha) as [Hpick Hord].
  assert (is_nan (min_step acc a) = false) as Hn by (destruct Hpick as [-> | ->]; done).
  destruct (IH (min_step acc a) Hn) as (Hr & Hle & Hall & Hex).
  { intros v Hv. apply Hl, elem_of_cons. by right. }
  cbv zeta. split; [done|]. split; [lia|]. split.
  + intros v [->|Hv]%elem_of_cons; [lia|by apply Hall].
  + destruct Hex as [He|(v & Hv & He)].
    * rewrite He, Hord. destruct (Z.min_spec (ord acc) (ord a)) as [[_ ->]|[_ ->]]; [by left|].
      right. exists a. split; [|done]. apply elem_of_cons. by left.
    * right. exists v. split; [|done]. apply elem_of_cons. by right.
Qed.

Lemma fold_max_ord (l : list float) : forall acc,
is_nan acc = false -> (forall v, v ∈ l -> is_nan v = false) ->
let r := fold_left max_step l acc in
is_nan r = false /\ (ord acc <= ord r)%Z /\ (forall v, v ∈ l -> (ord v <= ord r)%Z) /\
(ord r = ord acc \/ exists v, v ∈ l /\ ord r = ord v).
Proof.
induction l as [|a l IH]; intros acc Hacc Hl; cbn [fold_left].
- repeat split; first [done | lia | by intros v ?%elem_of_nil | by left].
- assert (is_nan a = false) as Ha by (apply Hl, elem_of_cons; by left).
  destruct (max_step_ord acc a Hacc Ha) as [Hpick Hord].
  assert (is_nan (max_step acc a) = false) as Hn by (destruct Hpick as [-> | ->]; done).
  destruct (IH (max_step acc a) Hn) as (Hr & Hle & Hall & Hex).
  { intros v Hv. apply Hl, elem_of_cons. by right. }
  cbv zeta. split; [done|]. split; [lia|]. split.
  + intros v [->|Hv]%elem_of_cons; [lia|by apply Hall].
  + destruct Hex as [He|(v & Hv & He)].
    * rewrite He, Hord. destruct (Z.max_spec (ord acc) (ord a)) as [[_ ->]|[_ ->]].
      -- right. exists a. split; [|done]. apply elem_of_cons. by left.
      -- by left.
    * right. exists v. split; [|done]. apply elem_of_cons. by right.
Qed.

Lemma existsb_is_nan_false (l : list float) :
(forall v, v ∈ l -> is_nan v = false) -> existsb is_nan l = false.
Proof.
induction l as [|a l IH]; intros Hl; [done|]. cbn [existsb].
rewrite (Hl a) by (apply elem_of_cons; by left). apply IH.
intros v Hv. apply Hl, elem_of_cons. by right.
Qed.

(** The least of some numbers is at most [t] exactly when one of them is. *)
Lemma Math_min_le (l : list float) t :
l <> [] -> (forall v, v ∈ l -> is_nan v = false) ->
(Math_min l <=? t) = true <-> exists v, v ∈ l /\ (v <=? t) = true.
Proof.
intros Hne Hl. unfold Math_min. rewrite (existsb_is_nan_false l Hl).
destruct (fold_min_ord l infinity eq_refl Hl) as (Hr & Hle & Hall & Hex).
destruct ord_infinity as [Hinf _]. rewrite Hinf in *.
set (r := fold_left min_step l infinity) in *. rewrite leb_true. split.
- intros (_ & Ht & Hrt).
  destruct Hex as [He|(v & Hv & He)].
  + destruct l as [|a l]; [done|]. exists a.
    assert (a ∈ a :: l) as Ha by (apply elem_of_cons; by left).
    split; [done|]. apply leb_true. split; [by apply Hl|]. split; [done|].
    pose proof (ord_bounds a). lia.
  + exists v. split; [done|]. apply leb_true. split; [by apply Hl|]. split; [done|]. lia.
- intros (v & Hv & (_ & Ht & Hvt)%leb_true). split; [done|]. split; [done|].
  specialize (Hall v Hv). lia.
Qed.

Lemma Math_max_ge (l : list float) t :
l <> [] -> (forall v, v ∈ l -> is_nan v = false) ->
(t <=? Math_max l) = true <-> exists v, v ∈ l /\ (t <=? v) = true.
Proof.
intros Hne Hl. unfold Math_max. rewrite (existsb_is_nan_false l Hl).
destruct (fold_max_ord l neg_infinity eq_refl Hl) as (Hr & Hle & Hall & Hex).
destruct ord_infinity as [_ Hinf]. rewrite Hinf in *.
set (r := fold_left max_step l neg_infinity) in *. rewrite leb_true. split.
- intros (Ht & _ & Hrt).
  destruct Hex as [He|(v & Hv & He)].
  + destruct l as [|a l]; [done|]. exists a.
    assert (a ∈ a :: l) as Ha by (apply elem_of_cons; by left).
    split; [done|]. apply leb_true. split; [done|]. split; [by apply Hl|].
    pose proof (ord_bounds a). lia.
  + exists v. split; [done|]. apply leb_true. split; [done|]. split; [by apply Hl|]. lia.
- intros (v & Hv & (Ht & _ & Hvt)%leb_true). split; [done|]. split; [done|].
  specialize (Hall v Hv). lia.
Qed.

(** X18.  The cell test of the implicit-curve plotter ignores corner values
    that are not finite, and reports a crossing exactly when at least two
    corner values are finite, one of them is at most [tolerance] and one of
    them is at least [-tolerance]. *)
Theorem hasZeroCrossing_spec (f11 f12 f21 f22 tolerance : float) :
let finite := List.filter (fun v => negb (is_nan v) && JS.isFinite v) [f11; f12; f21; f22] in
hasZeroCrossing f11 f12 f21 f22 tolerance = true <->
  (2 <= length finite)%nat /\
  (exists v, v ∈ finite /\ (v <=? tolerance) = true) /\
  (exists w, w ∈ finite /\ (- tolerance <=? w) = true).
Proof.
cbv zeta. unfold hasZeroCrossing. cbv zeta.
set (finite := List.filter _ _).
assert (forall v, v ∈ finite -> is_nan v = false) as Hfin.
{ intros v Hv%list_elem_of_In. apply filter_In in Hv as [_ [Hn _]%andb_true_iff].
  by apply negb_true_iff. }
destruct (Nat.ltb_spec (length finite) 2) as [Hlt|Hge].
- split; [done|]. intros [? _]. lia.
- assert (finite <> []) as Hne by (intros E; rewrite E in Hge; cbn in Hge; lia).
  rewrite andb_true_iff, (Math_min_le finite tolerance Hne Hfin),
    (Math_max_ge finite (- tolerance) Hne Hfin). tauto.
Qed.

(* ===================================================================== *)
(** * The start position                                                   *)
(* ===================================================================== *)

Lemma ord_start_constants :
(ord (-10) < ord (-8))%Z /\ (ord (-8) < ord 10)%Z /\
(ord (-10) < ord 8)%Z /\ (ord 8 < ord 10)%Z.
Proof. repeat split; apply Z.ltb_lt; vm_compute; reflexivity. Qed.

(** [Math.max(-10, Math.min(10, x))] for a number that is not NaN. *)
Lemma clamp_ten x :
is_nan x = false ->
let r := Math_max [-10; Math_min [10; x]] in
(-10 <=? r) = true /\ (r <=? 10) = true /\
((-10 <=? x) = true -> (x <=? 10) = true -> (x =? 0) = false -> r = x).
Proof.
intros Hx. cbv zeta.
assert (Math_min [10; x] = if x <? 10 then x else 10) as Hmin.
{ unfold Math_min. cbn [existsb fold_left]. rewrite Hx.
  change (is_nan 10 || (false || false)) with false. cbv iota.
  change (min_step infinity 10) with 10. unfold min_step.
  change (is_pos_zero 10) with false. by rewrite andb_false_r. }
rewrite Hmin. set (m := if x <? 10 then x else 10).
assert (is_nan m = false) as Hm by (unfold m; by destruct (x <? 10)).
assert (Math_max [-10; m] = if -10 <? m then m else -10) as Hmax.
{ unfold Math_max. cbn [existsb fold_left]. rewrite Hm.
  change (is_nan (-10) || (false || false)) with false. cbv iota.
  change (max_step neg_infinity (-10)) with (-10). unfold max_step.
  change (is_neg_zero (-10)) with false. by rewrite andb_false_r. }
rewrite Hmax. destruct ord_start_constants as (H1 & H2 & H3 & H4).
assert (is_nan 10 = false) as Hn10 by done.
assert (is_nan (-10) = false) as Hnm10 by done.
unfold m. destruct (x <? 10) eqn:Hlt.
- destruct (-10 <? x) eqn:Hgt.
  + split; [float_order|]. split; [float_order|]. done.
  + split; [float_order|]. split; [float_order|]. intros Hlo Hhi Hnz.
    assert ((-10 =? x) = true) as He.
    { rewrite eqb_ord, Hx. cbn [negb andb]. change (is_nan (-10)) with false. cbn [negb andb].
      apply Z.eqb_eq. float_order. }
    destruct (eqb_eq_or_zero _ _ He) as [?|[_ ?]]; [done|congruence].
- change (-10 <? 10) with true. cbv iota.
  split; [float_order|]. split; [float_order|]. intros Hlo Hhi Hnz.
  assert ((10 =? x) = true) as He.
  { rewrite eqb_ord, Hx. cbn [negb andb]. change (is_nan 10) with false. cbn [negb andb].
    apply Z.eqb_eq. float_order. }
  destruct (eqb_eq_or_zero _ _ He) as [?|[_ ?]]; [done|congruence].
Qed.

(** X19.  The start position that the page hands to the game is always within
    [[-10, 10]] in both coordinates (never NaN): a field that is missing,
    unreadable or holds 0 gives the default, [-8] for x and [8] for y, and a
    number other than 0 within [[-10, 10]] is taken as it is. *)
Theorem getStartPosition_range (startX startY : float) :
let p := getStartPosition startX startY in
(-10 <=? Vector2D.x p) = true /\ (Vector2D.x p <=? 10) = true /\
(-10 <=? Vector2D.y p) = true /\ (Vector2D.y p <=? 10) = true /\
(JS.truthy startX = false -> Vector2D.x p = -8) /\
(JS.truthy startY = false -> Vector2D.y p = 8) /\
(JS.truthy startX = true -> (-10 <=? startX) = true -> (startX <=? 10) = true ->
   Vector2D.x p = startX) /\
(JS.truthy startY = true -> (-10 <=? startY) = true -> (startY <=? 10) = true ->
   Vector2D.y p = startY).
Proof.
assert (forall s d, is_nan d = false -> (d =? 0) = false ->
          (-10 <=? d) = true -> (d <=? 10) = true ->
          let r := Math_max [-10; Math_min [10; JS.or_else s d]] in
          (-10 <=? r) = true /\ (r <=? 10) = true /\
          (JS.truthy s = false -> r = d) /\
          (JS.truthy s = true -> (-10 <=? s) = true -> (s <=? 10) = true -> r = s)) as Hc.
{ intros s d Hd Hdz Hdlo Hdhi. cbv zeta. unfold JS.or_else.
  destruct (JS.truthy s) eqn:Ht.
  - unfold JS.truthy in Ht. apply andb_true_iff in Ht as [Hz%negb_true_iff Hn%negb_true_iff].
    destruct (clamp_ten s Hn) as (Hlo & Hhi & Hkeep).
    split; [done|]. split; [done|]. split; [done|]. intros _ H1 H2. by apply Hkeep.
  - destruct (clamp_ten d Hd) as (Hlo & Hhi & Hkeep).
    split; [done|]. split; [done|]. split; [|done]. intros _. by apply Hkeep. }
cbv zeta. unfold getStartPosition. cbv zeta. cbn [Vector2D.x Vector2D.y].
destruct (Hc startX (-8)) as (Hx1 & Hx2 & Hx3 & Hx4); [done..|].
destruct (Hc startY 8) as (Hy1 & Hy2 & Hy3 & Hy4); [done..|].
repeat split; done.
Qed.

(* ===================================================================== *)
(** * World to screen                                                      *)
(* ===================================================================== *)

Lemma div_zero_l z d :
is_zero_sf (Prim2SF z) = true -> JS.truthy d = true -> is_zero_sf (Prim2SF (z / d)) = true.
Proof.
intros Hz Hd. rewrite div_spec.
unfold JS.truthy in Hd. apply andb_true_iff in Hd as [Hnz%negb_true_iff Hn%negb_true_iff].
apply is_nan_false in Hn.
rewrite FloatAxioms.eqb_spec in Hnz. change (Prim2SF 0) with (S754_zero false) in Hnz.
destruct (Prim2SF z) as [sz| | |]; try done.
destruct (Prim2SF d) as [sd|sd| |sd md ed]; try done.
Qed.

(** X20.  [mapToScreen] sends the lower end of the world range to the lower
    end of the screen range: for finite [min] and [screenMin], a finite screen
    extent and a world extent [max - min] that is neither 0 nor NaN, the image
    of [min] is numerically [screenMin]. *)
Theorem mapToScreen_min (min max screenMin screenMax : float) :
JS.isFinite min = true -> JS.isFinite screenMin = true ->
JS.isFinite (screenMax - screenMin) = true -> JS.truthy (max - min) = true ->
(mapToScreen min min max screenMin screenMax =? screenMin) = true.
Proof.
rewrite !isFinite_finF. intros Hmin Hs Hext Hw. unfold mapToScreen.
rewrite (float_sub_diag min Hmin).
assert (is_zero_sf (Prim2SF (0 * (screenMax - screenMin))) = true) as Hz
  by (by apply mul_zero_l).
pose proof (div_zero_l _ _ Hz Hw) as Hq.
by destruct (add_zero_r screenMin _ Hs Hq).
Qed.

Lemma mapToScreen_min_witness :
(mapToScreen (-10) (-10) 10 0 600 =? 0) = true.
Proof.
apply (mapToScreen_min (-10) 10 0 600); reflexivity.
Defined.

(* ===================================================================== *)
(** * Piecewise conditions                                                 *)
(* ===================================================================== *)

(** X21.  The two conditions that [parseConditions] builds for a double
    inequality [a op1 x op2 b] accept exactly the numbers [x] with [a op1 x]
    and [x op2 b], for each of the signs [<], [<=], [>], [>=] that its pattern
    admits: the left sign is turned over correctly. *)
Theorem doubleConditions_spec (a b x : float) (leftOp rightOp : string) :
leftOp ∈ ["<"; "<="; ">"; ">="]%string -> rightOp ∈ ["<"; "<="; ">"; ">="]%string ->
checkConditions x (doubleConditions a leftOp rightOp b) =
  compares leftOp a x && compares rightOp x b.
Proof.
intros Hl Hr.
repeat (apply elem_of_cons in Hl as [->|Hl]); [| | | |by apply elem_of_nil in Hl];
  (repeat (apply elem_of_cons in Hr as [->|Hr]); [| | | |by apply elem_of_nil in Hr]);
  cbn; by rewrite andb_true_r.
Qed.

Lemma doubleConditions_spec_witness :
checkConditions 1 (doubleConditions 0 "<" "<=" 5) = compares "<" 0 1 && compares "<=" 1 5.
Proof.
apply (doubleConditions_spec 0 5 1 "<" "<="); repeat constructor.
Defined.

(* ===================================================================== *)
(** * The colors of the parser                                             *)
(* ===================================================================== *)

Lemma nextColors_spec n : forall i,
(i < 6)%nat ->
snd (nextColors n i) = ((i + n) mod 6)%nat /\
length (fst (nextColors n i)) = n /\
forall k, (k < n)%nat -> fst (nextColors n i) !! k = Some (colors !! ((i + k) mod 6)%nat).
Proof.
induction n as [|n IH]; intros i Hi.
- cbn [nextColors fst snd]. rewrite Nat.add_0_r, (Nat.mod_small i 6 Hi).
  split; [done|]. split; [done|]. intros k Hk. lia.
- cbn [nextColors getNextColor]. change (length colors) with 6%nat.
  assert ((i + 1) mod 6 < 6)%nat as Hi' by (apply Nat.mod_upper_bound; lia).
  destruct (IH ((i + 1) mod 6)%nat Hi') as (Hs & Hlen & Hk).
  destruct (nextColors n ((i + 1) mod 6)) as [rest j]. cbn [fst snd] in *.
  split; [|split].
  + rewrite Hs, Nat.Div0.add_mod_idemp_l. f_equal. lia.
  + cbn [length]. by rewrite Hlen.
  + intros [|k] Hlt.
    * rewrite Nat.add_0_r, (Nat.mod_small i 6 Hi). reflexivity.
    * transitivity (rest !! k); [reflexivity|]. rewrite (Hk k) by lia.
      rewrite Nat.Div0.add_mod_idemp_l. do 3 f_equal. lia.
Qed.

(** X22.  The parser hands out its six colors in turn: from a color index
    below 6, the [k]-th of [n] calls in a row of [getNextColor] returns the
    color at position [(index + k) mod 6], never [undefined], and the index
    ends at [(index + n) mod 6], so that six calls bring it back. *)
Theorem getNextColor_round_robin (n i : nat) :
(i < 6)%nat ->
snd (nextColors n i) = ((i + n) mod 6)%nat /\
snd (nextColors 6 i) = i /\
length (fst (nextColors n i)) = n /\
forall k, (k < n)%nat ->
  exists color, colors !! ((i + k) mod 6)%nat = Some color /\
    fst (nextColors n i) !! k = Some (Some color).
Proof.
intros Hi. destruct (nextColors_spec n i Hi) as (Hs & Hlen & Hk).
destruct (nextColors_spec 6 i Hi) as (Hs6 & _).
split; [done|]. split; [|split; [done|]].
- rewrite Hs6. rewrite <- (Nat.mul_1_l 6) at 1. rewrite Nat.Div0.mod_add.
  by apply Nat.mod_small.
- intros k Hlt.
  assert ((i + k) mod 6 < length colors)%nat as Hb by (apply Nat.mod_upper_bound; cbn; lia).
  apply lookup_lt_is_Some in Hb as [color Hc]. exists color. split; [done|].
  by rewrite (Hk k Hlt), Hc.
Qed.

Lemma getNextColor_round_robin_witness :
snd (nextColors 8 4) = ((4 + 8) mod 6)%nat /\
snd (nextColors 6 4) = 4%nat /\
length (fst (nextColors 8 4)) = 8%nat /\
forall k, (k < 8)%nat ->
  exists color, colors !! ((4 + k) mod 6)%nat = Some color /\
    fst (nextColors 8 4) !! k = Some (Some color).
Proof.
apply (getNextColor_round_robin 8 4). lia.
Defined.

(* ===================================================================== *)
(** * The scans of the polar and parametric curves                         *)
(* ===================================================================== *)

Lemma scanSamples_turns n : forall t hi k,
scanTurns n t hi = Some k -> length (scanSamples n t hi) = k.
Proof.
induction n as [|n IH]; intros t hi k; cbn [scanTurns scanSamples]; [done|].
destruct (t <=? hi); [|by intros [= <-]].
destruct (scanTurns n (t + 0.05) hi) as [k'|] eqn:Hk; [|done].
cbn [option_map length]. intros [= <-]. by rewrite (IH _ _ _ Hk).
Qed.

Lemma scanSamples_mono n : forall n' t hi k,
scanTurns n t hi = Some k -> (n <= n')%nat -> scanSamples n' t hi = scanSamples n t hi.
Proof.
induction n as [|n IH]; intros n' t hi k; cbn [scanTurns]; [done|].
intros Hk Hle. destruct n' as [|n']; [lia|]. cbn [scanSamples].
destruct (t <=? hi); [|done].
destruct (scanTurns n (t + 0.05) hi) as [k'|] eqn:Hk'; [|done].
f_equal. apply (IH n' _ _ k' Hk'). lia.
Qed.

(** One more sample keeps the summary of a scan. *)
Lemma nearestSample_step point pos seen md ct t :
nearestSample point pos seen md ct ->
let '(md', ct') :=
  match point t with
  | Some p => if Vector2D.distanceTo pos p <? md then (Vector2D.distanceTo pos p, t)
              else (md, ct)
  | None => (md, ct)
  end in
nearestSample point pos (seen ++ [t]) md' ct'.
Proof.
intros [Hfound Hmin].
destruct (point t) as [p|] eqn:Hp.
- destruct (Vector2D.distanceTo pos p <? md) eqn:Hlt.
  + split.
    * right. exists p. split; [apply elem_of_app; right; by apply list_elem_of_singleton|done].
    * intros t' p' [Hin| ->%list_elem_of_singleton]%elem_of_app Hp'.
      -- specialize (Hmin t' p' Hin Hp'). clear Hfound. float_order.
      -- assert (p' = p) as -> by congruence. clear Hfound Hmin. float_order.
  + split.
    * destruct Hfound as [?|(q & Hin & Hq & Hmd)]; [by left|right].
      exists q. split; [apply elem_of_app; by left|done].
    * intros t' p' [Hin| ->%list_elem_of_singleton]%elem_of_app Hp'; [by apply (Hmin t' p')|].
      assert (p' = p) as -> by congruence. done.
- split.
  + destruct Hfound as [?|(q & Hin & Hq & Hmd)]; [by left|right].
    exists q. split; [apply elem_of_app; by left|done].
  + intros t' p' [Hin| ->%list_elem_of_singleton]%elem_of_app Hp'; [by apply (Hmin t' p')|congruence].
Qed.

Lemma parametricBody_step pos fx fy t md ct :
(t <=? 2 * JS.Math_PI) = true ->
parametricBody pos fx fy (t, md, ct) =
  Ret (inl (t + 0.05,
            fst (match parametricPoint fx fy t with
                 | Some p => if Vector2D.distanceTo pos p <? md
                             then (Vector2D.distanceTo pos p, t) else (md, ct)
                 | None => (md, ct)
                 end),
            snd (match parametricPoint fx fy t with
                 | Some p => if Vector2D.distanceTo pos p <? md
                             then (Vector2D.distanceTo pos p, t) else (md, ct)
                 | None => (md, ct)
                 end))).
Proof.
intros Hle. unfold parametricBody, parametricPoint. rewrite Hle.
destruct (fx t) as [x|]; cbn [call bind try_catch]; [|done].
destruct (fy t) as [y|]; cbn [call bind try_catch]; [|done].
destruct (JS.isFinite x), (JS.isFinite y); cbn [negb orb andb bind try_catch]; try done.
by destruct (_ <? md).
Qed.

Lemma parametricScan_spec pos fx fy :
forall n t md ct k seen, scanTurns n t (2 * JS.Math_PI) = Some k ->
  nearestSample (parametricPoint fx fy) pos seen md ct ->
  forall fuel, (k < fuel)%nat ->
    exists md' ct',
      loop fuel (parametricBody pos fx fy) (t, md, ct) = Ret (md', ct') /\
      nearestSample (parametricPoint fx fy) pos
        (seen ++ scanSamples n t (2 * JS.Math_PI)) md' ct'.
Proof.
induction n as [|n IH]; intros t md ct k seen Hk Hinv fuel Hfuel; cbn [scanTurns] in Hk;
  [done|].
destruct fuel as [|fuel]; [lia|]. cbn [loop scanSamples].
destruct (t <=? 2 * JS.Math_PI) eqn:Hle.
- rewrite (parametricBody_step pos fx fy t md ct Hle). cbn [bind].
  destruct (scanTurns n (t + 0.05) (2 * JS.Math_PI)) as [k'|] eqn:Hk'; [|done].
  cbn [option_map] in Hk. injection Hk as <-.
  pose proof (nearestSample_step _ pos seen md ct t Hinv) as Hstep.
  destruct (match parametricPoint fx fy t with
            | Some p => if Vector2D.distanceTo pos p <? md
                        then (Vector2D.distanceTo pos p, t) else (md, ct)
            | None => (md, ct)
            end) as [md1 ct1]. cbn [fst snd].
  destruct (IH (t + 0.05) md1 ct1 k' (seen ++ [t]) Hk' Hstep fuel ltac:(lia))
    as (md' & ct' & Hloop & Hres).
  exists md', ct'. split; [done|]. by rewrite cons_middle, app_assoc.
- unfold parametricBody at 1. rewrite Hle. cbn [bind].
  exists md, ct. split; [done|]. by rewrite app_nil_r.
Qed.

(** X23.  The scan of a parametric curve reports its nearest sample: over the
    parameters [0, 0.05, ...] up to [2 * PI], at which both evaluators return
    finite numbers, no sample point is nearer to the marble than the reported
    distance; a reported distance below infinity is the distance to the
    reported closest point, which is one of the sample points; and the
    curvature is reported as 0. *)
Theorem analyzeParametric_nearest_sample (fuel : nat) (pos : Vector2D) (eq : Equation)
  (evaluateX evaluateY : float -> option float) :
(enoughFuel <= fuel)%nat ->
exists r, analyzeParametric fuel pos eq evaluateX evaluateY = Ret r /\
  forall info, r = Some info ->
    curvature info = 0 /\
    (forall t p, t ∈ scanSamples enoughFuel 0 (2 * JS.Math_PI) ->
       parametricPoint evaluateX evaluateY t = Some p ->
       (Vector2D.distanceTo pos p <? distance info) = false) /\
    ((distance info <? infinity) = true ->
       distance info = Vector2D.distanceTo pos (closestPoint info) /\
       exists t, t ∈ scanSamples enoughFuel 0 (2 * JS.Math_PI) /\
         parametricPoint evaluateX evaluateY t = Some (closestPoint info)).
Proof.
intros Hfuel. unfold analyzeParametric.
assert (nearestSample (parametricPoint evaluateX evaluateY) pos [] infinity 0) as Hinit.
{ split; [by left|]. by intros t p ?%elem_of_nil. }
destruct (parametricScan_spec pos evaluateX evaluateY 200 0 infinity 0 126 []
            parametricScan_turns Hinit fuel) as (md & ct & -> & Hres).
{ unfold enoughFuel in Hfuel. lia. }
rewrite app_nil_l in Hres.
rewrite (scanSamples_mono 200 enoughFuel 0 (2 * JS.Math_PI) 126 parametricScan_turns) 
  by (unfold enoughFuel; lia).
cbn [bind]. destruct Hres as [Hfound Hmin].
destruct (evaluateX ct) as [x|] eqn:Hx; cbn [call bind try_catch]; [|by eexists].
destruct (evaluateY ct) as [y|] eqn:Hy; cbn [call bind try_catch]; [|by eexists].
destruct (evaluateX (ct + 0.01)); cbn [call bind try_catch]; [|by eexists].
destruct (evaluateX (ct - 0.01)); cbn [call bind try_catch]; [|by eexists].
destruct (evaluateY (ct + 0.01)); cbn [call bind try_catch]; [|by eexists].
destruct (evaluateY (ct - 0.01)); cbn [call bind try_catch]; [|by eexists].
eexists. split; [reflexivity|]. intros info [= <-].
cbn [mkPathInfo curvature distance closestPoint].
split; [done|]. split; [done|]. intros Hfin.
destruct Hfound as [->|(p & Hin & Hp & Hmd)]; [done|].
assert (p = Vector2D.mk x y) as ->.
{ unfold parametricPoint in Hp. rewrite Hx, Hy in Hp.
  destruct (JS.isFinite x && JS.isFinite y); congruence. }
split; [done|]. by exists ct.
Qed.

Lemma analyzeParametric_nearest_sample_witness :
let circleX := fun t : float => Some (RefHost.cos t) in
let circleY := fun t : float => Some (RefHost.sin t) in
exists r, analyzeParametric enoughFuel (Vector2D.mk 2 0) (parametric circleX circleY)
            circleX circleY = Ret r /\
  forall info, r = Some info ->
    curvature info = 0 /\
    (forall t p, t ∈ scanSamples enoughFuel 0 (2 * JS.Math_PI) ->
       parametricPoint circleX circleY t = Some p ->
       (Vector2D.distanceTo (Vector2D.mk 2 0) p <? distance info) = false) /\
    ((distance info <? infinity) = true ->
       distance info = Vector2D.distanceTo (Vector2D.mk 2 0) (closestPoint info) /\
       exists t, t ∈ scanSamples enoughFuel 0 (2 * JS.Math_PI) /\
         parametricPoint circleX circleY t = Some (closestPoint info)).
Proof.
exact (analyzeParametric_nearest_sample enoughFuel (Vector2D.mk 2 0)
         (parametric (fun t : float => Some (RefHost.cos t))
                     (fun t : float => Some (RefHost.sin t)))
         (fun t : float => Some (RefHost.cos t)) (fun t : float => Some (RefHost.sin t))
         (le_n enoughFuel)).
Defined.

Section PolarScan.

Variable H : MathHost.

Lemma polarBody_step pos f marbleTheta t md ct :
(t <=? marbleTheta + JS.Math_PI) = true ->
polarBody H pos f marbleTheta (t, md, ct) =
  Ret (inl (t + 0.05,
            fst (match polarPoint H f t with
                 | Some p => if Vector2D.distanceTo pos p <? md
                             then (Vector2D.distanceTo pos p, t) else (md, ct)
                 | None => (md, ct)
                 end),
            snd (match polarPoint H f t with
                 | Some p => if Vector2D.distanceTo pos p <? md
                             then (Vector2D.distanceTo pos p, t) else (md, ct)
                 | None => (md, ct)
                 end))).
Proof.
intros Hle. unfold polarBody, polarPoint. rewrite Hle.
destruct (f t) as [r|]; cbn [call bind try_catch]; [|done].
destruct (JS.isFinite r); cbn [negb bind try_catch]; try done.
by destruct (_ <? md).
Qed.

Lemma polarScan_spec pos f marbleTheta :
forall n t md ct k seen, scanTurns n t (marbleTheta + JS.Math_PI) = Some k ->
  nearestSample (polarPoint H f) pos seen md ct ->
  forall fuel, (k < fuel)%nat ->
    exists md' ct',
      loop fuel (polarBody H pos f marbleTheta) (t, md, ct) = Ret (md', ct') /\
      nearestSample (polarPoint H f) pos
        (seen ++ scanSamples n t (marbleTheta + JS.Math_PI)) md' ct'.
Proof.
induction n as [|n IH]; intros t md ct k seen Hk Hinv fuel Hfuel; cbn [scanTurns] in Hk;
  [done|].
destruct fuel as [|fuel]; [lia|]. cbn [loop scanSamples].
destruct (t <=? marbleTheta + JS.Math_PI) eqn:Hle.
- rewrite (polarBody_step pos f marbleTheta t md ct Hle). cbn [bind].
  destruct (scanTurns n (t + 0.05) (marbleTheta + JS.Math_PI)) as [k'|] eqn:Hk'; [|done].
  cbn [option_map] in Hk. injection Hk as <-.
  pose proof (nearestSample_step _ pos seen md ct t Hinv) as Hstep.
  destruct (match polarPoint H f t with
            | Some p => if Vector2D.distanceTo pos p <? md
                        then (Vector2D.distanceTo pos p, t) else (md, ct)
            | None => (md, ct)
            end) as [md1 ct1]. cbn [fst snd].
  destruct (IH (t + 0.05) md1 ct1 k' (seen ++ [t]) Hk' Hstep fuel ltac:(lia))
    as (md' & ct' & Hloop & Hres).
  exists md', ct'. split; [done|]. by rewrite cons_middle, app_assoc.
- unfold polarBody at 1. rewrite Hle. cbn [bind].
  exists md, ct. split; [done|]. by rewrite app_nil_r.
Qed.

End PolarScan.

(** X24.  The scan of a polar curve reports its nearest sample: over the
    angles from the marble's angle minus PI, in steps of 0.05, up to the
    marble's angle plus PI, at which the evaluator returns a finite radius, no
    sample point is nearer to the marble than the reported distance; a
    reported distance below infinity is the distance to the reported closest
    point, which is one of the sample points; and the curvature is reported as
    0. *)
Theorem analyzePolar_nearest_sample (H : MathHost) (fuel : nat) (pos : Vector2D)
  (eq : Equation) (evaluate : float -> option float) :
atan2_in_range H -> (enoughFuel <= fuel)%nat ->
let marbleTheta := Math_atan2 H (Vector2D.y pos) (Vector2D.x pos) in
let samples := scanSamples enoughFuel (marbleTheta - JS.Math_PI) (marbleTheta + JS.Math_PI) in
exists r, analyzePolar H fuel pos eq evaluate = Ret r /\
  forall info, r = Some info ->
    curvature info = 0 /\
    (forall theta p, theta ∈ samples -> polarPoint H evaluate theta = Some p ->
       (Vector2D.distanceTo pos p <? distance info) = false) /\
    ((distance info <? infinity) = true ->
       distance info = Vector2D.distanceTo pos (closestPoint info) /\
       exists theta, theta ∈ samples /\
         polarPoint H evaluate theta = Some (closestPoint info)).
Proof.
intros Hhost Hfuel. cbv zeta. unfold analyzePolar.
set (mt := Math_atan2 H (Vector2D.y pos) (Vector2D.x pos)).
destruct (polarScan_turns H Hhost (Vector2D.y pos) (Vector2D.x pos)) as (k & Hk & Hturns).
fold mt in Hturns.
assert (nearestSample (polarPoint H evaluate) pos [] infinity mt) as Hinit.
{ split; [by left|]. by intros t p ?%elem_of_nil. }
destruct (polarScan_spec H pos evaluate mt enoughFuel (mt - JS.Math_PI) infinity mt k []
            Hturns Hinit fuel) as (md & ct & -> & Hres); [lia|].
rewrite app_nil_l in Hres.
cbn [bind]. destruct Hres as [Hfound Hmin].
destruct (evaluate ct) as [r|] eqn:Hr; cbn [call bind try_catch]; [|by eexists].
destruct (evaluate (ct + 0.01)); cbn [call bind try_catch]; [|by eexists].
destruct (evaluate (ct - 0.01)); cbn [call bind try_catch]; [|by eexists].
eexists. split; [reflexivity|]. intros info [= <-].
cbn [mkPathInfo curvature distance closestPoint].
split; [done|]. split; [done|]. intros Hfin.
destruct Hfound as [->|(p & Hin & Hp & Hmd)]; [done|].
assert (p = Vector2D.mk (r * Math_cos H ct) (r * Math_sin H ct)) as ->.
{ unfold polarPoint in Hp. rewrite Hr in Hp. destruct (JS.isFinite r); congruence. }
split; [done|]. by exists ct.
Qed.

Lemma analyzePolar_nearest_sample_witness :
let H := RefHost.host in
let pos := Vector2D.mk 2 0 in
let evaluate := fun _ : float => Some 1 in
let marbleTheta := Math_atan2 H (Vector2D.y pos) (Vector2D.x pos) in
let samples := scanSamples enoughFuel (marbleTheta - JS.Math_PI) (marbleTheta + JS.Math_PI) in
exists r, analyzePolar H enoughFuel pos (polar evaluate) evaluate = Ret r /\
  forall info, r = Some info ->
    curvature info = 0 /\
    (forall theta p, theta ∈ samples -> polarPoint H evaluate theta = Some p ->
       (Vector2D.distanceTo pos p <? distance info) = false) /\
    ((distance info <? infinity) = true ->
       distance info = Vector2D.distanceTo pos (closestPoint info) /\
       exists theta, theta ∈ samples /\
         polarPoint H evaluate theta = Some (closestPoint info)).
Proof.
exact (analyzePolar_nearest_sample RefHost.host enoughFuel (Vector2D.mk 2 0)
         (polar (fun _ : float => Some 1)) (fun _ : float => Some 1)
         refHost_atan2_in_range (le_n enoughFuel)).
Defined.

(* ===================================================================== *)
(** * The kind of an equation                                              *)
(* ===================================================================== *)

Lemma removeWhitespace_idemp s :
Str.removeWhitespace (Str.removeWhitespace s) = Str.removeWhitespace s.
Proof.
unfold Str.removeWhitespace. induction s as [|c s IH]; [done|]. cbn [List.filter].
destruct (negb (Str.isWhitespace c)) eqn:Hc; [|done]. cbn [List.filter]. by rewrite Hc, IH.
Qed.

(** X25.  White space never changes the kind of an equation: two texts that
    are equal once their white space is removed get the same answer from
    [detectEquationType], the same kind or the same exception. *)
Theorem detectEquationType_whitespace (S : StringHost) (s1 s2 : JSString) :
Str.removeWhitespace s1 = Str.removeWhitespace s2 ->
detectEquationType S s1 = detectEquationType S s2 /\
detectEquationType S s1 = detectEquationType S (Str.removeWhitespace s1).
Proof.
intros Heq. unfold detectEquationType. by rewrite removeWhitespace_idemp, Heq.
Qed.

Lemma detectEquationType_whitespace_witness :
detectEquationType asciiLower (lit " Y =  x^2 ") = detectEquationType asciiLower (lit "Y=x^2") /\
detectEquationType asciiLower (lit " Y =  x^2 ") =
  detectEquationType asciiLower (Str.removeWhitespace (lit " Y =  x^2 ")).
Proof.
apply (detectEquationType_whitespace asciiLower (lit " Y =  x^2 ") (lit "Y=x^2")).
reflexivity.
Defined.

(** X26.  A text that starts with [x=] or [y=] (white space and case apart) is
    never taken for an implicit curve and is never refused: [y=...] is an
    explicit or constant curve in [y], [x=...] an explicit or constant curve
    in [x], unless the text is first taken for a parametric curve or an
    inequality. *)
Theorem detectEquationType_prefixed (S : StringHost) (equation : JSString) :
let lower := toLowerCase S (Str.removeWhitespace equation) in
(Str.startsWith lower (lit "y=") = true ->
   detectEquationType S equation = Ret "parametric"%string \/
   detectEquationType S equation = Ret "inequality"%string \/
   detectEquationType S equation = Ret "constant_y"%string \/
   detectEquationType S equation = Ret "explicit_y"%string) /\
(Str.startsWith lower (lit "x=") = true ->
   detectEquationType S equation = Ret "parametric"%string \/
   detectEquationType S equation = Ret "inequality"%string \/
   detectEquationType S equation = Ret "constant_x"%string \/
   detectEquationType S equation = Ret "explicit_x"%string).
Proof.
cbv zeta. unfold detectEquationType. cbv zeta.
set (clean := Str.removeWhitespace equation). set (lower := toLowerCase S clean).
assert (lit "y=" = [121; 61]%N) as Ely by reflexivity.
assert (lit "x=" = [120; 61]%N) as Elx by reflexivity.
assert (lit "r=" = [114; 61]%N) as Elr by reflexivity.
assert (forall l a b a', a <> a' ->
          Str.startsWith l [a; b] = true -> Str.startsWith l [a'; b] = false) as Hclash.
{ intros [|c [|d l]] a b a' Hne; cbn [Str.startsWith]; rewrite ?andb_false_r; try done.
  destruct (N.eqb_spec c a) as [->|?]; [|done].
  destruct (N.eqb_spec a a') as [?|?]; done. }
assert (forall l, Str.startsWith l (lit "y=") = true -> Str.startsWith l (lit "r=") = false /\
                  Str.startsWith l (lit "x=") = false) as Hy.
{ intros l. rewrite Ely, Elx, Elr. intros Hl. split; by apply (Hclash l 121%N). }
assert (forall l, Str.startsWith l (lit "x=") = true -> Str.startsWith l (lit "r=") = false)
  as Hx.
{ intros l. rewrite Elx, Elr. intros Hl. by apply (Hclash l 120%N). }
clear Ely Elx Elr Hclash.
split; intros Hp.
- destruct (Hy lower Hp) as [-> ->]. rewrite Hp. cbn [andb].
  destruct (_ || _); [by left|].
  destruct (_ || _); [right; by left|].
  destruct (Str.isNumberText _); [right; right; by left|by do 3 right].
- rewrite (Hx lower Hp), Hp. cbn [andb].
  destruct (_ || _); [by left|].
  destruct (_ || _); [right; by left|].
  destruct (Str.isNumberText _); [right; right; by left|].
  destruct (_ || _); [by do 3 right|].
  destruct (Str.startsWith lower (lit "y=")) eqn:Hy'.
  + destruct (Hy lower Hy') as [_ Hc]. congruence.
  + by do 3 right.
Qed.

(* ===================================================================== *)
(** * Inserting a key and deleting it                                      *)
(* ===================================================================== *)

Lemma prefixVerdict_sound k : forall p v,
prefixVerdict k p = Some v -> forall b, Str.startsWith (k ++ b) p = v.
Proof.
induction k as [|d k IH]; intros [|c p] v; cbn [prefixVerdict Str.startsWith app]; try done.
- by intros [= <-].
- by intros [= <-].
- destruct (N.eqb d c); cbn [andb]; [apply IH|by intros [= <-]].
Qed.

Lemma firstMatch_sound key ps : forall r,
firstMatch key ps = Some r ->
forall b, List.find (fun p => Str.endsWith (b ++ key) p) ps = r.
Proof.
induction ps as [|p rest IH]; intros r; cbn [firstMatch List.find]; [by intros [= <-]|].
destruct (prefixVerdict (rev key) (rev p)) as [[]|] eqn:Hv; [| |done].
- intros [= <-] b. unfold Str.endsWith. rewrite rev_app_distr.
  by rewrite (prefixVerdict_sound _ _ _ Hv).
- intros Hr b. unfold Str.endsWith at 1. rewrite rev_app_distr.
  rewrite (prefixVerdict_sound _ _ _ Hv). by apply IH.
Qed.

Lemma getDeleteCount_after before key after n :
deletedAfter key = Some n ->
MathKeyboard.getDeleteCount (before ++ key ++ after) (length before + length key) = n.
Proof.
unfold deletedAfter, MathKeyboard.getDeleteCount, Str.slice0. cbv zeta.
rewrite app_assoc, take_app_length'; [|by rewrite length_app].
destruct (firstMatch key MathKeyboard.patterns) as [r|] eqn:Hr; [|done].
rewrite (firstMatch_sound key _ r Hr before). by destruct r; intros [= <-].
Qed.

Lemma insert_backspace input key n :
(MathKeyboard.selectionStart input <= length (MathKeyboard.value input))%nat ->
deletedAfter key = Some n -> (0 < n <= length key)%nat ->
let pos := MathKeyboard.insertPosition input in
MathKeyboard.backspace (MathKeyboard.insert input key) =
  MathKeyboard.setSelectionRange
    (Str.slice0 (MathKeyboard.value input) pos ++ take (length key - n) key ++
     Str.substring (MathKeyboard.value input) pos)
    (pos + (length key - n)).
Proof.
intros Hsel Hn Hlen. cbv zeta.
assert (MathKeyboard.insertPosition input <= length (MathKeyboard.value input))%nat as Hpos.
{ unfold MathKeyboard.insertPosition. destruct (_ =? 0)%nat; lia. }
set (pos := MathKeyboard.insertPosition input) in *.
assert (MathKeyboard.insert input key =
          {| MathKeyboard.value :=
               Str.slice0 (MathKeyboard.value input) pos ++ key ++
               Str.substring (MathKeyboard.value input) pos;
             MathKeyboard.selectionStart :=
               length (Str.slice0 (MathKeyboard.value input) pos) + length key |}) as ->.
{ unfold MathKeyboard.insert, MathKeyboard.setSelectionRange. fold pos. cbv zeta.
  f_equal. rewrite !length_app. unfold Str.slice0. rewrite length_take. lia. }
set (before := Str.slice0 (MathKeyboard.value input) pos).
set (after := Str.substring (MathKeyboard.value input) pos).
assert (length before = pos) as Hb by (unfold before, Str.slice0; rewrite length_take; lia).
unfold MathKeyboard.backspace. cbn [MathKeyboard.value MathKeyboard.selectionStart].
destruct (Nat.ltb_spec 0 (length before + length key)) as [_|?]; [|lia].
rewrite (getDeleteCount_after before key after n Hn). rewrite <- Hb.
unfold Str.slice0, Str.substring.
replace (length before + length key - n)%nat with (length before + (length key - n))%nat
  by lia.
rewrite take_app_add', (take_app_le key after) by lia.
rewrite (app_assoc before key after), drop_app_length'; [|by rewrite length_app].
by rewrite <- app_assoc.
Qed.

(** X27.  Backspace undoes a function key: right after [insert] has written
    one of the keys [sin(], [cos(], ..., [log10(], [nthroot(], [theta], [pi],
    [ = ], [ <= ], ... the smart backspace deletes exactly that text, so the
    field holds its former text with the cursor where the key was written;
    after one of the keys [arcsin(], [arccos(], [arctan(] it deletes only the
    last four characters and leaves [arc] in the text. *)
Theorem backspace_undoes_key (input : MathKeyboard.Input) (key : JSString) :
(MathKeyboard.selectionStart input <= length (MathKeyboard.value input))%nat ->
let pos := MathKeyboard.insertPosition input in
let after_key := MathKeyboard.backspace (MathKeyboard.insert input key) in
(key ∈ MathKeyboard.smartKeys ->
   MathKeyboard.value after_key = MathKeyboard.value input /\
   MathKeyboard.selectionStart after_key = pos) /\
(key ∈ MathKeyboard.inverseKeys ->
   MathKeyboard.value after_key =
     Str.slice0 (MathKeyboard.value input) pos ++ lit "arc" ++
     Str.substring (MathKeyboard.value input) pos /\
   MathKeyboard.selectionStart after_key = (pos + 3)%nat).
Proof.
intros Hsel. cbv zeta.
assert (MathKeyboard.insertPosition input <= length (MathKeyboard.value input))%nat as Hpos.
{ unfold MathKeyboard.insertPosition. destruct (_ =? 0)%nat; lia. }
assert (forallb (fun k => match deletedAfter k with
                          | Some n => (n =? length k)%nat && (0 <? n)%nat
                          | None => false
                          end) MathKeyboard.smartKeys = true) as Hsmart
  by (vm_compute; reflexivity).
assert (forallb (fun k => match deletedAfter k with
                          | Some n => (n =? 4)%nat && (length k =? 7)%nat
                                      && N.eqb (nth 0 k 0%N) 97 && N.eqb (nth 1 k 0%N) 114
                                      && N.eqb (nth 2 k 0%N) 99
                          | None => false
                          end) MathKeyboard.inverseKeys = true) as Hinv
  by (vm_compute; reflexivity).
rewrite forallb_forall in Hsmart, Hinv. split; intros Hkey%list_elem_of_In.
- specialize (Hsmart key Hkey). destruct (deletedAfter key) as [n|] eqn:Hn; [|done].
  apply andb_true_iff in Hsmart as [->%Nat.eqb_eq Hpos'%Nat.ltb_lt].
  rewrite (insert_backspace input key (length key) Hsel Hn ltac:(lia)).
  rewrite Nat.sub_diag, Nat.add_0_r, take_0, app_nil_l.
  unfold MathKeyboard.setSelectionRange, Str.slice0, Str.substring.
  cbn [MathKeyboard.value MathKeyboard.selectionStart].
  rewrite take_drop. split; [done|]. lia.
- specialize (Hinv key Hkey). destruct (deletedAfter key) as [n|] eqn:Hn; [|done].
  apply andb_true_iff in Hinv as [[[[->%Nat.eqb_eq Hl%Nat.eqb_eq]%andb_true_iff
    Ha%N.eqb_eq]%andb_true_iff Hr%N.eqb_eq]%andb_true_iff Hc%N.eqb_eq].
  rewrite (insert_backspace input key 4 Hsel Hn ltac:(lia)). rewrite Hl.
  assert (take (7 - 4) key = lit "arc") as ->.
  { destruct key as [|a [|b [|c rest]]]; cbn in Hl; try lia. cbn in Ha, Hr, Hc. by subst. }
  unfold MathKeyboard.setSelectionRange. cbn [MathKeyboard.value MathKeyboard.selectionStart].
  split; [done|]. rewrite !length_app. unfold Str.slice0, Str.substring.
  rewrite length_take, length_drop. change (length (lit "arc")) with 3%nat. lia.
Qed.

Lemma backspace_undoes_key_witness :
let input := {| MathKeyboard.value := lit "y = 2*"; MathKeyboard.selectionStart := 6 |} in
MathKeyboard.value (MathKeyboard.backspace (MathKeyboard.insert input (lit "sqrt("))) =
  MathKeyboard.value input /\
MathKeyboard.selectionStart (MathKeyboard.backspace (MathKeyboard.insert input (lit "sqrt(")))
  = MathKeyboard.insertPosition input.
Proof.
apply (proj1 (backspace_undoes_key
                {| MathKeyboard.value := lit "y = 2*"; MathKeyboard.selectionStart := 6 |}
                (lit "sqrt(") (le_n 6))).
unfold MathKeyboard.smartKeys. cbn [map]. repeat constructor.
Defined.

(* ===================================================================== *)
(** * The pieces of a curve                                                *)
(* ===================================================================== *)

Lemma continuous_snoc segment l p :
continuous segment -> last segment = Some l ->
(100 <? abs (Vector2D.y p - Vector2D.y l)) = false -> continuous (segment ++ [p]).
Proof.
induction segment as [|a [|b rest] IH]; [done| |].
- cbn. by intros _ [= ->] Hp.
- intros [Hab Hrest] Hlast Hp. change ((a :: b :: rest) ++ [p]) with (a :: (b :: rest) ++ [p]).
  cbn [continuous app]. split; [done|]. apply IH; done.
Qed.

(** What the loop keeps: the drawn segments and the current one. *)
Lemma drawContinuousSegments_from_spec points : forall current drawn before,
Forall (fun segment => (2 <= length segment)%nat /\ continuous segment) drawn ->
continuous current ->
sublist (concat drawn ++ current) before ->
let result := EquationRenderer.drawContinuousSegments_from points current drawn in
Forall (fun segment => (2 <= length segment)%nat /\ continuous segment) result /\
sublist (concat result) (before ++ validPoints points).
Proof.
assert (forall current drawn before,
          Forall (fun segment => (2 <= length segment)%nat /\ continuous segment) drawn ->
          continuous current -> sublist (concat drawn ++ current) before ->
          Forall (fun segment => (2 <= length segment)%nat /\ continuous segment)
            (EquationRenderer.drawIfLong current drawn) /\
          sublist (concat (EquationRenderer.drawIfLong current drawn)) before) as Hflush.
{ intros current drawn before Hd Hc Hs. unfold EquationRenderer.drawIfLong.
  destruct (Nat.ltb_spec 1 (length current)) as [Hlt|Hge].
  - split; [apply Forall_app; split; [done|]; apply Forall_singleton; split; [lia|done]|].
    by rewrite concat_app, concat_cons, concat_nil, app_nil_r.
  - split; [done|]. etrans; [|exact Hs]. by apply sublist_inserts_r. }
induction points as [|[p|] rest IH]; intros current drawn before Hd Hc Hs;
  cbn [EquationRenderer.drawContinuousSegments_from]; cbv zeta.
- unfold validPoints. cbn [omap]. rewrite app_nil_r. by apply Hflush.
- assert (validPoints (Some p :: rest) = p :: validPoints rest) as -> by done.
  rewrite (cons_middle p before), app_assoc.
  destruct (last current) as [l|] eqn:Hl.
  + destruct (100 <? abs (Vector2D.y p - Vector2D.y l)) eqn:Hjump.
    * destruct (Hflush current drawn before Hd Hc Hs) as [Hd' Hs'].
      apply IH; [done|done|]. by apply sublist_app.
    * apply IH; [done|by apply (continuous_snoc current l)|].
      rewrite app_assoc. by apply sublist_app.
  + apply last_None in Hl. subst current. apply IH; [done|done|].
    rewrite app_assoc. by apply sublist_app.
- assert (validPoints (None :: rest) = validPoints rest) as -> by done.
  destruct (Hflush current drawn before Hd Hc Hs) as [Hd' Hs'].
  apply IH; [done|done|]. by rewrite app_nil_r.
Qed.

(** X28.  [drawContinuousSegments] draws the valid points in pieces: every
    segment it hands to [drawSmoothCurve] has at least two points and no jump
    of more than 100 between successive points, and the segments drawn, one
    after the other, are valid points of the input in their order (a valid
    point left alone between gaps or jumps is not drawn). *)
Theorem drawContinuousSegments_pieces (points : list (option Vector2D)) :
let drawn := EquationRenderer.drawContinuousSegments points in
Forall (fun segment => (2 <= length segment)%nat /\ continuous segment) drawn /\
sublist (concat drawn) (validPoints points).
Proof.
cbv zeta. unfold EquationRenderer.drawContinuousSegments.
apply (drawContinuousSegments_from_spec points [] [] []); done.
Qed.

(* ===================================================================== *)
(** * Grouping the points of an implicit curve                             *)
(* ===================================================================== *)

Section GroupingFacts.

Variable H : MathHost.
Variable points : list Vector2D.
Variable maxDistance : float.

Lemma nextPoint_Some used lastPoint j :
nextPoint H points maxDistance used lastPoint = Some j ->
(j < length points)%nat /\ (j ∉ used) /\
exists p, points !! j = Some p /\ (jumpTo H p lastPoint <=? maxDistance) = true.
Proof.
unfold nextPoint. intros [Hin Hj]%find_some.
apply in_seq in Hin. apply andb_true_iff in Hj as [Hu Hd].
apply negb_true_iff, bool_decide_eq_false in Hu.
split; [lia|]. split; [done|].
destruct (points !! j) as [p|]; [by exists p|done].
Qed.

Lemma linked_snoc curve i j p q :
linked H points maxDistance curve -> last curve = Some i ->
points !! i = Some p -> points !! j = Some q ->
(jumpTo H q p <=? maxDistance) = true ->
linked H points maxDistance (curve ++ [j]).
Proof.
induction curve as [|a [|b rest] IH]; [done| |].
- cbn. intros _ [= ->] Hp Hq Hd. split; [|done]. by exists p, q.
- intros [Hab Hrest] Hlast Hp Hq Hd.
  change ((a :: b :: rest) ++ [j]) with (a :: (b :: rest) ++ [j]).
  cbn [linked app]. split; [done|]. by apply IH.
Qed.

Lemma NoDup_bounded_length (l : list nat) n :
NoDup l -> Forall (fun j => (j < n)%nat) l -> (length l <= n)%nat.
Proof.
intros Hnd Hb.
assert (l ⊆ seq 0 n) as Hsub.
{ intros j Hj. rewrite Forall_forall in Hb. apply elem_of_seq. specialize (Hb j Hj). lia. }
pose proof (submseteq_length l (seq 0 n) (NoDup_submseteq l (seq 0 n) Hnd Hsub)) as Hlen.
by rewrite length_seq in Hlen.
Qed.

Lemma growCurve_spec fuel : forall done curve used,
grouped points done curve used -> curve <> [] -> linked H points maxDistance curve ->
(length points < fuel + length used)%nat ->
exists curve' used',
  growCurve H points maxDistance fuel curve used = Ret (curve', used') /\
  grouped points done curve' used' /\ curve' <> [] /\ linked H points maxDistance curve' /\
  used ⊆ used'.
Proof.
induction fuel as [|fuel IH]; intros done curve used (Hperm & Hnd & Hb) Hne Hl Hfuel.
- pose proof (NoDup_bounded_length used (length points) Hnd Hb). cbn in Hfuel. lia.
- cbn [growCurve].
  destruct (last curve) as [i|] eqn:Hlast; [|by apply last_None in Hlast].
  assert (i ∈ used) as Hi.
  { rewrite Hperm. apply elem_of_app. right. apply last_Some in Hlast as [l' ->].
    apply elem_of_app. right. by apply list_elem_of_singleton. }
  assert (i < length points)%nat as Hib by (rewrite Forall_forall in Hb; by apply Hb).
  apply lookup_lt_is_Some in Hib as [p Hp]. cbn [mbind option_bind]. rewrite Hp.
  destruct (nextPoint H points maxDistance used p) as [j|] eqn:Hnext.
  + apply nextPoint_Some in Hnext as (Hjb & Hju & q & Hq & Hd).
    destruct (IH done (curve ++ [j]) (j :: used)) as (curve' & used' & Hr & Hg & Hne' & Hl' & Hsub).
    * split; [|split].
      -- rewrite app_assoc, <- Hperm. by rewrite Permutation_cons_append.
      -- by apply NoDup_cons.
      -- by apply Forall_cons.
    * by destruct curve.
    * by apply (linked_snoc curve i j p q).
    * cbn [length]. lia.
    * exists curve', used'. repeat (split; [done|]).
      intros k Hk. apply Hsub, elem_of_cons. by right.
  + exists curve, used. done.
Qed.

Lemma groupFrom_spec fuel indices : forall used curves,
(length points < fuel)%nat ->
Forall (fun j => (j < length points)%nat) indices ->
grouped points curves [] used ->
Forall (fun curve => curve <> [] /\ linked H points maxDistance curve) curves ->
exists curves' used',
  groupFrom H points maxDistance fuel indices used curves = Ret curves' /\
  grouped points curves' [] used' /\
  Forall (fun curve => curve <> [] /\ linked H points maxDistance curve) curves' /\
  (forall j, j ∈ used \/ j ∈ indices -> j ∈ used').
Proof.
induction indices as [|i rest IH]; intros used curves Hfuel Hidx Hg Hc; cbn [groupFrom].
- exists curves, used. repeat (split; [done|]).
  intros j [?|Hin]; [done|]. by apply elem_of_nil in Hin.
- apply Forall_cons in Hidx as [Hib Hidx].
  destruct (bool_decide (i ∈ used)) eqn:Hi.
  + apply bool_decide_eq_true in Hi.
    destruct (IH used curves Hfuel Hidx Hg Hc) as (curves' & used' & Hr & Hg' & Hc' & Hall).
    exists curves', used'. repeat (split; [done|]).
    intros j [?|[->|Hin]%elem_of_cons]; apply Hall; [by left|by left|by right].
  + apply bool_decide_eq_false in Hi.
    destruct Hg as (Hperm & Hnd & Hb).
    destruct (growCurve_spec fuel curves [i] (i :: used))
      as (curve & used1 & -> & Hg1 & Hne & Hl & Hgrow).
    { split; [|split].
      - rewrite app_nil_r in Hperm. rewrite <- Hperm. by rewrite Permutation_cons_append.
      - by apply NoDup_cons.
      - by apply Forall_cons. }
    { done. }
    { done. }
    { cbn [length]. lia. }
    cbn [bind].
    destruct Hg1 as (Hperm1 & Hnd1 & Hb1).
    destruct (IH used1 (curves ++ [curve]) Hfuel Hidx) as (curves' & used' & Hr & Hg' & Hc' & Hall).
    { split; [|done]. by rewrite concat_app, concat_cons, concat_nil, !app_nil_r. }
    { apply Forall_app. split; [done|]. by apply Forall_singleton. }
    exists curves', used'. repeat (split; [done|]).
    intros j [Hj|[->|Hin]%elem_of_cons]; apply Hall.
    * left. apply Hgrow, elem_of_cons. by right.
    * left. apply Hgrow, elem_of_cons. by left.
    * by right.
Qed.

End GroupingFacts.

(** X29. With more fuel than there are points, [groupPointsIntoCurves]
    returns; the curves it returns hold every point exactly once, none of
    them is empty, and within a curve each point lies within [maxDistance]
    of the point before it. *)
Theorem groupPointsIntoCurves_partition (H : MathHost) (points : list Vector2D)
    (maxDistance : float) (fuel : nat) :
(length points < fuel)%nat ->
exists curves,
  groupPointsIntoCurves H points maxDistance fuel = Ret curves /\
  concat curves ≡ₚ seq 0 (length points) /\
  Forall (fun curve => curve <> [] /\ linked H points maxDistance curve) curves.
Proof.
intros Hfuel. unfold groupPointsIntoCurves.
destruct (length points =? 0)%nat eqn:Hlen.
- apply Nat.eqb_eq in Hlen. rewrite Hlen. by exists [].
- destruct (groupFrom_spec H points maxDistance fuel (seq 0 (length points)) [] [] Hfuel)
    as (curves & used & Hr & (Hperm & Hnd & Hb) & Hc & Hall).
  { apply Forall_forall. intros j Hj%elem_of_seq. lia. }
  { split; [done|]. split; [apply NoDup_nil_2|done]. }
  { done. }
  exists curves. split; [done|]. split; [|done].
  rewrite app_nil_r in Hperm. rewrite <- Hperm.
  apply NoDup_Permutation; [done|apply NoDup_seq|].
  intros j. split.
  + intros Hj. apply elem_of_seq. rewrite Forall_forall in Hb. specialize (Hb j Hj). lia.
  + intros Hj. apply Hall. by right.
Qed.

Lemma groupPointsIntoCurves_partition_witness :
let points := [Vector2D.mk 0 0; Vector2D.mk 5 5; Vector2D.mk 1 0] in
exists curves,
  groupPointsIntoCurves squaringHost points 2 4 = Ret curves /\
  concat curves ≡ₚ seq 0 (length points) /\
  Forall (fun curve => curve <> [] /\ linked squaringHost points 2 curve) curves.
Proof.
intros points. apply (groupPointsIntoCurves_partition squaringHost points 2 4).
cbn. lia.
Defined.
